(** * house_report: a shallow embedding of [house_report.py]

    The script turns a directory of annotated photographs into a Markdown
    report and then into HTML.  This development embeds its functions
    ([shrink_image], [get_most_recent_photos], [render_report_data],
    [markdown_to_html], [main]) and proves properties of them.

    Conventions of the embedding.
    - A Python [bytes] object is a [string] (a list of 8-bit characters).
    - A Python [str] is represented by its UTF-8 encoding, again a [string]:
      concatenation, emptiness and the removal of U+0000 commute with that
      encoding, and [bytes.decode()] becomes a validity check.
    - A Python [float] is an IEEE 754 binary64 number, [spec_float] at
      precision 53 and maximal exponent 1024.
    - A raised exception is the [Raise] case of [result].
    - Pillow, the file system and the pandoc process are outside the
      repository: Pillow is an interface ([Pillow]) the definitions are
      parameterised by; the file system is a field of [world]; the clock,
      pandoc and the encoding of the locale, in which the script writes its
      two files, are fields of [env]. *)

From Stdlib Require Import ZArith NArith Ascii Lia Bool.
From Stdlib Require Import Floats.SpecFloat.
From stdpp Require Import base option list strings gmap pretty.

Local Open Scope Z_scope.

(** ** Exceptions and the error monad *)

Inductive exn :=
  | FileNotFoundError
  | NotADirectoryError
  | PermissionError
  | IsADirectoryError
  | UnidentifiedImageError
  | UnicodeDecodeError
  | UnicodeEncodeError
  | ZeroDivisionError
  | OverflowError
  | ValueError
  | OSError
  | AttributeError
  | TypeError
  | CalledProcessError.

Inductive result (A : Type) :=
  | Ok (a : A)
  | Raise (e : exn).
Arguments Ok {A} a.
Arguments Raise {A} e.

Definition rbind {A B} (r : result A) (k : A -> result B) : result B :=
  match r with
  | Ok a => k a
  | Raise e => Raise e
  end.

Notation "'let*' x ':=' r 'in' k" := (rbind r (fun x => k))
  (at level 10, x pattern, r at level 100, k at level 200).

(** ** Bytes and text *)

Definition bytes := string.
Definition str := string.

Definition byte_val (c : ascii) : N := N_of_ascii c.

(** [s.replace(old, "")] for a one-character [old]. *)
Fixpoint remove_char (old : ascii) (s : string) : string :=
  match s with
  | EmptyString => EmptyString
  | String c r =>
      if Ascii.eqb c old then remove_char old r else String c (remove_char old r)
  end.

(** [sep.join(lines)]. *)
Fixpoint str_join (sep : string) (lines : list string) : string :=
  match lines with
  | [] => ""
  | [l] => l
  | l :: rest => l +:+ sep +:+ str_join sep rest
  end.

Definition nl : string := String (ascii_of_nat 10) EmptyString.

(** ** UTF-8: [bytes.decode()] *)

Module Utf8.

Definition between (lo hi b : N) : bool := ((lo <=? b) && (b <=? hi))%N.

(** Well-formed byte sequences, Unicode table 3-7: no overlong forms, no
    surrogates, nothing above U+10FFFF. *)
Fixpoint valid (s : string) : bool :=
  match s with
  | EmptyString => true
  | String c0 r0 =>
      let b0 := byte_val c0 in
      if (b0 <? 128)%N then valid r0 else
      match r0 with
      | EmptyString => false
      | String c1 r1 =>
          let b1 := byte_val c1 in
          if between 194 223 b0 then between 128 191 b1 && valid r1 else
          match r1 with
          | EmptyString => false
          | String c2 r2 =>
              let b2 := byte_val c2 in
              if between 224 239 b0 then
                (if (b0 =? 224)%N then between 160 191 b1
                 else if (b0 =? 237)%N then between 128 159 b1
                 else between 128 191 b1)
                && between 128 191 b2 && valid r2
              else
              match r2 with
              | EmptyString => false
              | String c3 r3 =>
                  let b3 := byte_val c3 in
                  if between 240 244 b0 then
                    (if (b0 =? 240)%N then between 144 191 b1
                     else if (b0 =? 244)%N then between 128 143 b1
                     else between 128 191 b1)
                    && between 128 191 b2 && between 128 191 b3 && valid r3
                  else false
              end
          end
      end
  end.

(** [b.decode()]: strict UTF-8; the text is represented by the bytes
    themselves. *)
Definition decode (b : bytes) : result str :=
  if valid b then Ok b else Raise UnicodeDecodeError.

End Utf8.

(** ** Base64: [base64.b64encode] (RFC 4648, section 4) *)

Module Base64.

Definition alphabet : string :=
  "ABCDEFGHIJKLMNOPQRSTUVWXYZabcdefghijklmnopqrstuvwxyz0123456789+/".

Definition pad : ascii := "="%char.

Definition sextet_char (n : N) : ascii :=
  match String.get (N.to_nat n) alphabet with
  | Some c => c
  | None => pad
  end.

Fixpoint index_of (c : ascii) (s : string) (i : N) : option N :=
  match s with
  | EmptyString => None
  | String d r => if Ascii.eqb c d then Some i else index_of c r (N.succ i)
  end.

Definition char_sextet (c : ascii) : option N := index_of c alphabet 0.

Definition enc3 (a b c : N) : string :=
  String (sextet_char (a / 4))
    (String (sextet_char ((a mod 4) * 16 + b / 16))
       (String (sextet_char ((b mod 16) * 4 + c / 64))
          (String (sextet_char (c mod 64)) EmptyString)))%N.

Definition enc2 (a b : N) : string :=
  String (sextet_char (a / 4))
    (String (sextet_char ((a mod 4) * 16 + b / 16))
       (String (sextet_char ((b mod 16) * 4))
          (String pad EmptyString)))%N.

Definition enc1 (a : N) : string :=
  String (sextet_char (a / 4))
    (String (sextet_char ((a mod 4) * 16))
       (String pad (String pad EmptyString)))%N.

Fixpoint b64encode (bs : bytes) : string :=
  match bs with
  | EmptyString => EmptyString
  | String a EmptyString => enc1 (byte_val a)
  | String a (String b EmptyString) => enc2 (byte_val a) (byte_val b)
  | String a (String b (String c rest)) =>
      enc3 (byte_val a) (byte_val b) (byte_val c) +:+ b64encode rest
  end.

(** The decoder of the same RFC: groups of four characters, padding only
    in the last group. *)
Definition dec3 (s1 s2 s3 s4 : N) : string :=
  String (ascii_of_N (s1 * 4 + s2 / 16))
    (String (ascii_of_N ((s2 mod 16) * 16 + s3 / 4))
       (String (ascii_of_N ((s3 mod 4) * 64 + s4)) EmptyString))%N.

Definition dec2 (s1 s2 s3 : N) : string :=
  String (ascii_of_N (s1 * 4 + s2 / 16))
    (String (ascii_of_N ((s2 mod 16) * 16 + s3 / 4)) EmptyString)%N.

Definition dec1 (s1 s2 : N) : string :=
  String (ascii_of_N (s1 * 4 + s2 / 16)) EmptyString%N.

Fixpoint b64decode (s : string) : option bytes :=
  match s with
  | EmptyString => Some EmptyString
  | String c1 (String c2 (String c3 (String c4 rest))) =>
      match char_sextet c1, char_sextet c2 with
      | Some s1, Some s2 =>
          match char_sextet c3, char_sextet c4 with
          | Some s3, Some s4 =>
              match b64decode rest with
              | Some tl => Some (dec3 s1 s2 s3 s4 +:+ tl)
              | None => None
              end
          | Some s3, None =>
              if Ascii.eqb c4 pad && String.eqb rest EmptyString
              then Some (dec2 s1 s2 s3) else None
          | None, _ =>
              if Ascii.eqb c3 pad && Ascii.eqb c4 pad && String.eqb rest EmptyString
              then Some (dec1 s1 s2) else None
          end
      | _, _ => None
      end
  | _ => None
  end.

End Base64.

(** ** Floating point: Python's [float], [/] and [int()] *)

Module Float.

Definition prec : Z := 53.
Definition emax : Z := 1024.

(** The value checks Python does on a float result: an overflow raises. *)
Definition finite_or_raise (x : spec_float) : result spec_float :=
  match x with
  | S754_infinity _ => Raise OverflowError
  | _ => Ok x
  end.

(** [float(z)]: the nearest binary64 number, ties to even. *)
Definition of_int (z : Z) : result spec_float :=
  finite_or_raise (binary_normalize prec emax z 0 false).

(** [a / b] on two [int]s: the correctly rounded quotient of the integers. *)
Definition int_truediv (a b : Z) : result spec_float :=
  match a, b with
  | _, Z0 => Raise ZeroDivisionError
  | Z0, _ => Ok (S754_zero (b <? 0))
  | Zpos ma, Zpos mb =>
      finite_or_raise (SFdiv prec emax (S754_finite false ma 0) (S754_finite false mb 0))
  | Zpos ma, Zneg mb =>
      finite_or_raise (SFdiv prec emax (S754_finite false ma 0) (S754_finite true mb 0))
  | Zneg ma, Zpos mb =>
      finite_or_raise (SFdiv prec emax (S754_finite true ma 0) (S754_finite false mb 0))
  | Zneg ma, Zneg mb =>
      finite_or_raise (SFdiv prec emax (S754_finite true ma 0) (S754_finite true mb 0))
  end.

(** [x / y] on two [float]s. *)
Definition truediv (x y : spec_float) : result spec_float :=
  match y with
  | S754_zero _ => Raise ZeroDivisionError
  | _ => Ok (SFdiv prec emax x y)
  end.

(** [a / y] for an [int] [a] and a [float] [y]: [a] is converted first. *)
Definition int_float_truediv (a : Z) (y : spec_float) : result spec_float :=
  let* x := of_int a in truediv x y.

(** [int(x)]: truncation toward zero. *)
Definition to_int (x : spec_float) : result Z :=
  match x with
  | S754_zero _ => Ok 0
  | S754_finite s m e =>
      let a := Z.shiftl (Z.pos m) e in
      Ok (if s then - a else a)
  | S754_infinity _ => Raise OverflowError
  | S754_nan => Raise ValueError
  end.

(** [round(x)]: the nearest integer, ties to the even one. *)
Definition round (x : spec_float) : result Z :=
  match x with
  | S754_zero _ => Ok 0
  | S754_finite s m e =>
      let a :=
        if 0 <=? e then Z.shiftl (Z.pos m) e
        else
          let d := 2 ^ (- e) in
          let q := Z.pos m / d in
          let r := Z.pos m mod d in
          if 2 * r <? d then q
          else if d <? 2 * r then q + 1
          else if Z.even q then q else q + 1 in
      Ok (if s then - a else a)
  | S754_infinity _ => Raise OverflowError
  | S754_nan => Raise ValueError
  end.

End Float.

(** ** The size computation of [shrink_image] *)

Definition ideal_max_dimension : Z := 900.

(** Lines 67-71 of [shrink_image]: the size handed to [resize]. *)
Definition scaled_size (size : Z * Z) : result (Z * Z) :=
  let '(img_w, img_h) := size in
  let max_dim := Z.max img_w img_h in
  let* scale := Float.int_truediv max_dim ideal_max_dimension in
  let* qw := Float.int_float_truediv img_w scale in
  let* scaled_w := Float.to_int qw in
  let* qh := Float.int_float_truediv img_h scale in
  let* scaled_h := Float.to_int qh in
  Ok (scaled_w, scaled_h).

(** The size computation as the specification words it, with [round] where
    the script has [int]. *)
Definition scaled_size_rounding (size : Z * Z) : result (Z * Z) :=
  let '(img_w, img_h) := size in
  let max_dim := Z.max img_w img_h in
  let* scale := Float.int_truediv max_dim ideal_max_dimension in
  let* qw := Float.int_float_truediv img_w scale in
  let* scaled_w := Float.round qw in
  let* qh := Float.int_float_truediv img_h scale in
  let* scaled_h := Float.round qh in
  Ok (scaled_w, scaled_h).

(** ** Pillow

    The operations of the imaging library the script calls.  The library is
    not part of the repository, so the embedding is parameterised by it; only
    the types of the operations are fixed here. *)

(** A value stored under an Exif tag, as [exifdata.get] hands it out:
    [bytes] for the BYTE and UNDEFINED types, [str] for ASCII, an [int] for
    one integer, a tuple for several, and for the remaining types a float, a
    rational or a tuple of these.  Of a value of the last kind the script
    uses nothing but the text an f-string makes of it, which is what
    [EOther] holds. *)
Inductive exif_value :=
  | EBytes (b : bytes)
  | EText (s : str)
  | ENum (n : Z)
  | ETuple (ns : list Z)
  | EOther (shown : str).

Class Pillow := {
  image : Type;
  (** [image.size] *)
  im_size : image -> Z * Z;
  (** [Image.open] applied to the content of a file *)
  im_open : bytes -> result image;
  (** [image.resize(size, Image.BICUBIC)] *)
  im_resize : image -> Z * Z -> result image;
  (** [ImageOps.exif_transpose(image)] *)
  exif_transpose : image -> image;
  (** [image.getexif()], as a mapping from tag to value *)
  getexif : image -> gmap Z exif_value;
  (** [image.save(buffer, format="JPEG")] on a fresh buffer, then
      [buffer.getvalue()] *)
  save_jpeg : image -> result bytes;
}.

(** ** The file system, the clock and the converter process *)

Inductive node :=
  | File (content : string)
  | Dir (names : list string)
  | LockedDir.

Inductive event :=
  | EvTruncate (path : string)
  | EvWrite (path : string) (data : string)
  | EvSpawn (argv : list string) (stdin : string).

Inductive month :=
  | January | February | March | April | May | June
  | July | August | September | October | November | December.

Record date := { year : Z; mon : month; day : Z }.

Record world := {
  (** the files, by the text of their paths as [pathlib] writes them;
      two texts are taken to name two files: no links, and no second name
      for the working directory *)
  fs : gmap string node;
  (** what has been done to the outside, latest first *)
  trace : list event;
}.

(** What the run reads but does not change. *)
Record env := {
  today : date;
  (** the converter: [argv] and standard input to standard output *)
  run_process : list string -> string -> result string;
  (** whether the encoding of the locale, in which [open("w")] writes, has
      every character of a text *)
  encodes : str -> bool;
}.

(** The last character of a text, if it has one. *)
Fixpoint last_char (s : string) : option ascii :=
  match s with
  | EmptyString => None
  | String c EmptyString => Some c
  | String _ r => last_char r
  end.

(** [dir / name] on POSIX, for a path [dir] given by its text [str(dir)]
    and a name of its listing: [pathlib] leaves the path [.] out and puts no
    second slash after a root. *)
Definition child (dir name : string) : string :=
  if String.eqb dir "." then name
  else match last_char dir with
       | Some "/"%char => dir +:+ name
       | _ => dir +:+ "/" +:+ name
       end.

(** [photo_dir.iterdir()], forced. *)
Definition iterdir (w : world) (dir : string) : result (list string) :=
  match fs w !! dir with
  | None => Raise FileNotFoundError
  | Some (File _) => Raise NotADirectoryError
  | Some LockedDir => Raise PermissionError
  | Some (Dir names) => Ok (child dir <$> names)
  end.

(** The bytes [Image.open(path)] reads. *)
Definition read_file (w : world) (path : string) : result bytes :=
  match fs w !! path with
  | None => Raise FileNotFoundError
  | Some (File content) => Ok content
  | Some _ => Raise IsADirectoryError
  end.

(** Computations on the world that may raise. *)
Definition io (A : Type) : Type := world -> result A * world.

Definition io_bind {A B} (m : io A) (k : A -> io B) : io B :=
  fun w =>
    match m w with
    | (Ok a, w') => k a w'
    | (Raise x, w') => (Raise x, w')
    end.

Notation "'do*' x ':=' m 'in' k" := (io_bind m (fun x => k))
  (at level 10, x pattern, m at level 100, k at level 200).

(** A computation that leaves the world alone. *)
Definition io_of {A} (r : result A) : io A := fun w => (r, w).

(** A computation that only reads the world. *)
Definition io_read {A} (f : world -> result A) : io A := fun w => (f w, w).

(** [path.open("w")]: the file is created or truncated at once. *)
Definition open_w (path : string) : io unit :=
  fun w =>
    match fs w !! path with
    | Some (Dir _) | Some LockedDir => (Raise IsADirectoryError, w)
    | _ => (Ok tt, {| fs := <[path := File ""]> (fs w);
                      trace := EvTruncate path :: trace w |})
    end.

(** [print(text, file=f)] and the close of [f] at the end of the [with]
    block, which is when the text reaches the file.  [print] writes the
    text and then the line end; the text is encoded as a whole when it is
    written, so where the locale's encoding cannot take it [print] raises
    with nothing written, and the file, truncated by [open], is closed
    empty. *)
Definition print_close (e : env) (path text : string) : io unit :=
  fun w =>
    if encodes e text then
      (Ok tt, {| fs := <[path := File (text +:+ nl)]> (fs w);
                 trace := EvWrite path (text +:+ nl) :: trace w |})
    else (Raise UnicodeEncodeError, w).

(** [subprocess.check_output(argv, input=stdin, universal_newlines=True)] *)
Definition spawn (e : env) (argv : list string) (stdin : string) : io string :=
  fun w =>
    (run_process e argv stdin,
     {| fs := fs w; trace := EvSpawn argv stdin :: trace w |}).

(** ** The script *)

(** What [get_most_recent_photos] yields as third component: the decoded
    text, or a stored value that was not [bytes], as it is. *)
Inductive comment :=
  | CText (s : str)
  | CNum (n : Z)
  | CTuple (ns : list Z)
  | COther (shown : str).

(** [str(t)] for a tuple of integers: [()], [(1,)], [(1, 2)]. *)
Definition format_tuple (ns : list Z) : str :=
  match ns with
  | [] => "()"
  | [n] => "(" +:+ pretty n +:+ ",)"
  | _ => "(" +:+ str_join ", " (pretty <$> ns) +:+ ")"
  end.

(** [f"{comment}"] *)
Definition format_comment (c : comment) : str :=
  match c with
  | CText s => s
  | CNum n => pretty n
  | CTuple ns => format_tuple ns
  | COther shown => shown
  end.

(** [f"{x}"] for a command-line argument, [None] when the flag is absent. *)
Definition format_arg (a : option str) : str :=
  match a with
  | Some s => s
  | None => "None"
  end.

Definition month_name (m : month) : str :=
  match m with
  | January => "January" | February => "February" | March => "March"
  | April => "April" | May => "May" | June => "June"
  | July => "July" | August => "August" | September => "September"
  | October => "October" | November => "November" | December => "December"
  end.

(** [d.strftime("%B %-d, %Y")] in the C locale. *)
Definition strftime_report (d : date) : str :=
  month_name (mon d) +:+ " " +:+ pretty (day d) +:+ ", " +:+ pretty (year d).

(** [f"#### {i + 1}. {comment}"] *)
Definition heading_line (i : nat) (c : comment) : str :=
  "#### " +:+ pretty (i + 1)%nat +:+ ". " +:+ format_comment c.

(** [f"data:image/jpeg;base64,{img_str}"] *)
Definition data_url (img_str : str) : str :=
  "data:image/jpeg;base64," +:+ img_str.

(** [f"![]({embedded_img}){{width=90%}}"] *)
Definition image_line (embedded_img : str) : str :=
  "![](" +:+ embedded_img +:+ "){width=90%}".

(** The three lines that open the report. *)
Definition title_line (address : option str) : str :=
  "% Home Owner's Report for " +:+ format_arg address.
Definition author_line (auth : option str) : str := "% " +:+ format_arg auth.
Definition date_line (formatted_date : str) : str := "% " +:+ formatted_date.

Definition NUL : ascii := ascii_of_nat 0.

Definition tag_id : Z := 40092.

Section Script.
Context `{Pillow}.

Record ReportData := {
  effective_date : date;
  property_address : option str;
  author : option str;
  photo_list : list (string * image * comment);
}.

(** [shrink_image] *)
Definition shrink_image (im : image) : result image :=
  let* size := scaled_size (im_size im) in
  let* sm_image := im_resize im size in
  Ok (exif_transpose sm_image).

(** Lines 86-90: the comment of an image that has been shrunk already;
    [None] stands for [continue]. *)
Definition extract_comment (im : image) : result (option comment) :=
  match default (EBytes "") (getexif im !! tag_id) with
  | EBytes b =>
      let* text := Utf8.decode b in
      let text := remove_char NUL text in
      if String.eqb text "" then Ok None else Ok (Some (CText text))
  | EText s => Ok (Some (CText s))
  | ENum n => Ok (Some (CNum n))
  | ETuple ns => Ok (Some (CTuple ns))
  | EOther shown => Ok (Some (COther shown))
  end.

(** The body of the loop of [get_most_recent_photos] for one path. *)
Definition visit_photo (w : world) (photo_path : string)
  : result (option (string * image * comment)) :=
  let* content := read_file w photo_path in
  let* im := im_open content in
  let* im := shrink_image im in
  let* c := extract_comment im in
  Ok ((fun c => (photo_path, im, c)) <$> c).

(** The loop of [get_most_recent_photos] over the paths still to visit,
    with the entries it yields collected in order, as [tuple] does. *)
Fixpoint photos_from (w : world) (paths : list string)
  : result (list (string * image * comment)) :=
  match paths with
  | [] => Ok []
  | photo_path :: rest =>
      let* r := visit_photo w photo_path in
      let* more := photos_from w rest in
      Ok (match r with
          | Some entry => entry :: more
          | None => more
          end)
  end.

(** [tuple(get_most_recent_photos(photo_dir))] *)
Definition get_most_recent_photos (w : world) (photo_dir : string)
  : result (list (string * image * comment)) :=
  let* attachable_files := iterdir w photo_dir in
  photos_from w attachable_files.

(** The three lines appended for the entry at position [i]. *)
Definition entry_lines (i : nat) (entry : string * image * comment)
  : result (list str) :=
  let '(_, im, c) := entry in
  let* buffer := save_jpeg im in
  let img_str := Base64.b64encode buffer in
  let embedded_img := data_url img_str in
  Ok [ heading_line i c; image_line embedded_img; nl ].

(** The loop over [enumerate(report_data.photo_list)], from index [i]. *)
Fixpoint render_entries (i : nat) (photos : list (string * image * comment))
  (lines : list str) : result (list str) :=
  match photos with
  | [] => Ok lines
  | entry :: rest =>
      let* ls := entry_lines i entry in
      render_entries (S i) rest (lines ++ ls)
  end.

(** Lines 27-34: the list [lines] before the loop. *)
Definition front_matter (report_data : ReportData) : list str :=
  let formatted_date := strftime_report (effective_date report_data) in
  [ title_line (property_address report_data);
    author_line (author report_data);
    date_line formatted_date ].

(** [render_report_data] *)
Definition render_report_data (report_data : ReportData) : result str :=
  let* lines := render_entries 0 (photo_list report_data) (front_matter report_data) in
  Ok (str_join nl lines).

Definition pandoc_args : list string :=
  [ "pandoc"; "--table-of-contents"; "--toc-depth=6"; "--from=markdown";
    "--to=html5"; "--include-in-header=style.css" ].

(** [markdown_to_html] *)
Definition markdown_to_html (e : env) (markdown_input : str) : io str :=
  spawn e pandoc_args markdown_input.

(** The parsed arguments; [arg_photo_path] is the text of the [Path] that
    [argparse] makes of the flag's value. *)
Record args := {
  arg_author : option str;
  arg_property_address : option str;
  arg_photo_path : option string;
}.

(** [args.photo_path.iterdir]: the attribute is missing on [None]. *)
Definition photo_dir_of (a : args) : result string :=
  match arg_photo_path a with
  | Some d => Ok d
  | None => Raise AttributeError
  end.

(** [main], once the arguments are parsed. *)
Definition main (e : env) (a : args) : io unit :=
  do* photo_dir := io_of (photo_dir_of a) in
  do* most_recent_photos := io_read (fun w => get_most_recent_photos w photo_dir) in
  let report_data :=
    {| effective_date := today e;
       property_address := arg_property_address a;
       author := arg_author a;
       photo_list := most_recent_photos |} in
  let report_filepath := "report.md" in
  do* markdown_input := io_of (render_report_data report_data) in
  do* _ := open_w report_filepath in
  do* _ := print_close e report_filepath markdown_input in
  do* _ := open_w "report.html" in
  do* html := markdown_to_html e markdown_input in
  print_close e "report.html" html.

End Script.

(** ** The renderer with its objects made explicit

    [render_report_data] once more, now on a store of Python objects: the
    [ReportData] instance and its photo sequence live in the store, and the
    function allocates and updates its own list [lines] and one [BytesIO]
    buffer per photo. *)

Module Store.

Abbreviation loc := positive.

Inductive obj `{Pillow} :=
  | OReportData (d : date) (address auth : option str) (photos : loc)
  | OPhotos (items : list (string * image * comment))
  | OLines (items : list str)
  | OBytesIO (data : bytes).

Abbreviation heap := (gmap loc obj).

Section Store.
Context `{Pillow}.

Definition st (A : Type) : Type := heap -> result A * heap.

Definition st_bind {A B} (m : st A) (k : A -> st B) : st B :=
  fun h =>
    match m h with
    | (Ok a, h') => k a h'
    | (Raise x, h') => (Raise x, h')
    end.

Notation "'do!' x ':=' m 'in' k" := (st_bind m (fun x => k))
  (at level 10, x pattern, m at level 100, k at level 200).

Definition st_of {A} (r : result A) : st A := fun h => (r, h).

(** A new object at an unused location. *)
Definition alloc (o : obj) : st loc :=
  fun h => let l := fresh (dom h) in (Ok l, <[l := o]> h).

Definition load (l : loc) : st obj :=
  fun h =>
    match h !! l with
    | Some o => (Ok o, h)
    | None => (Raise AttributeError, h)
    end.

Definition store (l : loc) (o : obj) : st unit :=
  fun h => (Ok tt, <[l := o]> h).

(** [lines.append(x)] *)
Definition append (lines : loc) (x : str) : st unit :=
  do! o := load lines in
  match o with
  | OLines items => store lines (OLines (items ++ [x]))
  | _ => st_of (Raise AttributeError)
  end.

(** [image.save(buffer, format="JPEG")] *)
Definition save (im : image) (buffer : loc) : st unit :=
  do! data := st_of (save_jpeg im) in
  store buffer (OBytesIO data).

(** [buffer.getvalue()] *)
Definition getvalue (buffer : loc) : st bytes :=
  do! o := load buffer in
  match o with
  | OBytesIO data => st_of (Ok data)
  | _ => st_of (Raise AttributeError)
  end.

(** The body of the loop for the entry at position [i]. *)
Definition render_entry_st (lines : loc) (i : nat)
  (entry : string * image * comment) : st unit :=
  let '(_, im, c) := entry in
  do! buffer := alloc (OBytesIO "") in
  do! _ := save im buffer in
  do! data := getvalue buffer in
  let img_str := Base64.b64encode data in
  let embedded_img := data_url img_str in
  do! _ := append lines (heading_line i c) in
  do! _ := append lines (image_line embedded_img) in
  append lines nl.

Fixpoint render_entries_st (lines : loc) (i : nat)
  (photos : list (string * image * comment)) : st unit :=
  match photos with
  | [] => st_of (Ok tt)
  | entry :: rest =>
      do! _ := render_entry_st lines i entry in
      render_entries_st lines (S i) rest
  end.

(** The [ReportData] value stored at [l], if there is one. *)
Definition report_at (h : heap) (l : loc) : option ReportData :=
  match h !! l with
  | Some (OReportData d address auth photos) =>
      match h !! photos with
      | Some (OPhotos items) =>
          Some {| effective_date := d; property_address := address;
                  author := auth; photo_list := items |}
      | _ => None
      end
  | _ => None
  end.

(** [render_report_data(report_data)] for the object at [report_data]. *)
Definition render_report_data_st (report_data : loc) : st str :=
  do! o := load report_data in
  match o with
  | OReportData d address auth photos =>
      do! p := load photos in
      match p with
      | OPhotos items =>
          let formatted_date := strftime_report d in
          do! lines :=
            alloc (OLines [ title_line address; author_line auth;
                            date_line formatted_date ]) in
          do! _ := render_entries_st lines 0 items in
          do! o := load lines in
          match o with
          | OLines ls => st_of (Ok (str_join nl ls))
          | _ => st_of (Raise TypeError)
          end
      | _ => st_of (Raise TypeError)
      end
  | _ => st_of (Raise AttributeError)
  end.

End Store.
End Store.

(** ** Vocabulary of the properties *)

Fixpoint starts_with (pre s : string) : bool :=
  match pre, s with
  | EmptyString, _ => true
  | String _ _, EmptyString => false
  | String a pre', String b s' => Ascii.eqb a b && starts_with pre' s'
  end.

(** A line of the report that is an entry heading. *)
Definition is_heading (line : str) : bool := starts_with "#### " line.

(** [s] without the prefix [pre], when it starts with it. *)
Fixpoint strip_prefix (pre s : string) : option string :=
  match pre, s with
  | EmptyString, _ => Some s
  | String _ _, EmptyString => None
  | String a pre', String b s' =>
      if Ascii.eqb a b then strip_prefix pre' s' else None
  end.

Fixpoint until_char (stop : ascii) (s : string) : string :=
  match s with
  | EmptyString => EmptyString
  | String c r => if Ascii.eqb c stop then EmptyString else String c (until_char stop r)
  end.

(** What a reader of the report takes out of an image reference: the text
    between the comma of the data URI and the closing parenthesis. *)
Definition embedded_text (line : str) : option str :=
  until_char ")" <$> strip_prefix "![](data:image/jpeg;base64," line.

(** The bytes a reader gets from an image reference. *)
Definition embedded_bytes (line : str) : option bytes :=
  embedded_text line ≫= Base64.b64decode.

(** The paths and comments of a list of entries. *)
Definition captions `{Pillow} (entries : list (string * image * comment))
  : list (string * comment) :=
  (fun entry => (entry.1.1, entry.2)) <$> entries.

(** [path.open("w")] succeeds: the path is free or names a regular file. *)
Definition writable (w : world) (path : string) : bool :=
  match fs w !! path with
  | Some (Dir _) | Some LockedDir => false
  | _ => true
  end.

(** The report [main] builds from the photos it found. *)
Definition report_of `{Pillow} (e : env) (a : args)
  (photos : list (string * image * comment)) : ReportData :=
  {| effective_date := today e;
     property_address := arg_property_address a;
     author := arg_author a;
     photo_list := photos |}.

(** Where the remainder [r] of a division by [m2] lies, as the rounding of
    [SFdiv] records it. *)
Definition loc_ok (l : location) (r m2 : Z) : Prop :=
  match l with
  | loc_Exact => r = 0
  | loc_Inexact Lt => 0 < r /\ 2 * r < m2
  | loc_Inexact Eq => 0 < r /\ 2 * r = m2
  | loc_Inexact Gt => m2 < 2 * r
  end.

(** The second half of [binary_round_aux]: the rounded mantissa is brought
    back to 53 bits. *)
Definition finish_round (mr e : Z) : spec_float :=
  let '(mrs, e') := shr_fexp 53 1024 mr e loc_Exact in
  match shr_m mrs with
  | Z0 => S754_zero false
  | Zpos m => if Z.leb e' (1024 - 53) then S754_finite false m e' else S754_infinity false
  | Zneg _ => S754_nan
  end.

(** [h'] agrees with [h] on every object of [h] except the one at [l]. *)
Definition frame `{Pillow} (l : Store.loc) (h h' : Store.heap) : Prop :=
  forall l' o, l' <> l -> h !! l' = Some o -> h' !! l' = Some o.

Definition rmap {A B} (f : A -> B) (r : result A) : result B :=
  match r with
  | Ok a => Ok (f a)
  | Raise x => Raise x
  end.

(** ** A small imaging library to run the script on

    A file is a tag letter, four bytes with the width and the height, and a
    payload: [B] stores the payload as [bytes] under the comment tag, [T]
    stores it as text, [-] stores no comment; anything else is not an image.
    [keep] says whether [resize] keeps the metadata. *)

Module Toy.

Record toy_image := {
  t_size : Z * Z;
  t_exif : gmap Z exif_value;
}.

Definition two_bytes (n : Z) : string :=
  String (ascii_of_N (Z.to_N (n / 256)))
    (String (ascii_of_N (Z.to_N (n mod 256))) EmptyString).

Definition toy_file (tag : ascii) (w h : Z) (payload : string) : bytes :=
  String tag (two_bytes w +:+ two_bytes h +:+ payload).

Definition toy_tags (tag : ascii) (payload : string) : option (gmap Z exif_value) :=
  if Ascii.eqb tag "B" then Some {[ tag_id := EBytes payload ]}
  else if Ascii.eqb tag "T" then Some {[ tag_id := EText payload ]}
  else if Ascii.eqb tag "-" then Some ∅
  else None.

Definition toy_open (content : bytes) : result toy_image :=
  match content with
  | String tag (String w1 (String w0 (String h1 (String h0 payload)))) =>
      match toy_tags tag payload with
      | Some tags =>
          Ok {| t_size := (Z.of_N (byte_val w1) * 256 + Z.of_N (byte_val w0),
                           Z.of_N (byte_val h1) * 256 + Z.of_N (byte_val h0));
                t_exif := tags |}
      | None => Raise UnidentifiedImageError
      end
  | _ => Raise UnidentifiedImageError
  end.

Definition toy_resize (keep : bool) (im : toy_image) (size : Z * Z)
  : result toy_image :=
  if (0 <? fst size) && (0 <? snd size)
  then Ok {| t_size := size; t_exif := if keep then t_exif im else ∅ |}
  else Raise ValueError.

Definition toy_save (im : toy_image) : result bytes :=
  let '(w, h) := t_size im in
  if (0 <? w) && (w <? 65536) && (0 <? h) && (h <? 65536)
  then Ok (toy_file "-" w h "")
  else Raise OSError.

Definition pillow (keep : bool) : Pillow := {|
  image := toy_image;
  im_size := t_size;
  im_open := toy_open;
  im_resize := toy_resize keep;
  exif_transpose := fun im => im;
  getexif := t_exif;
  save_jpeg := toy_save;
|}.

(** A directory [photos] with three photographs of 4032 by 3024. *)
Definition three_files (second : bytes) : world := {|
  fs := {[ "photos" := Dir ["a.jpg"; "b.jpg"; "c.jpg"];
           "photos/a.jpg" := File (toy_file "B" 4032 3024 "Cracked tile");
           "photos/b.jpg" := File second;
           "photos/c.jpg" := File (toy_file "B" 4032 3024 "Loose railing") ]};
  trace := [];
|}.

Definition clock : date := {| year := 2024; mon := March; day := 4 |}.

(** The clock at [clock], a converter that wraps what it is given, or
    fails, and a UTF-8 locale, which has every character. *)
Definition converter (ok : bool) : env := {|
  today := clock;
  run_process := fun _ stdin =>
    if ok then Ok ("<html>" +:+ stdin +:+ "</html>") else Raise CalledProcessError;
  encodes := fun _ => true;
|}.

(** The directory with an uncommented photograph between two commented
    ones, and what the selector finds there. *)
Definition sample_world : world := three_files (toy_file "-" 4032 3024 "").

Definition selected : list (string * @image (pillow true) * comment) :=
  match @get_most_recent_photos (pillow true) sample_world "photos" with
  | Ok entries => entries
  | Raise _ => []
  end.

Definition shot (w h : Z) : @image (pillow true) :=
  {| t_size := (w, h); t_exif := ∅ |}.

Definition sample_report : @ReportData (pillow true) := {|
  effective_date := clock;
  property_address := Some "123 Main St";
  author := Some "J. Smith";
  photo_list := [ ("photos/a.jpg", shot 899 674, CText "Cracked tile");
                  ("photos/c.jpg", shot 899 674, CText "Loose railing") ];
|}.

Definition sample_markup : str :=
  Eval vm_compute in
    match render_report_data sample_report with
    | Ok out => out
    | Raise _ => ""
    end.

(** A store with the sample report at location 1. *)
Definition sample_heap : gmap positive (@Store.obj (pillow true)) :=
  {[ 1%positive := Store.OReportData clock (Some "123 Main St") (Some "J. Smith") 2%positive;
     2%positive := Store.OPhotos (photo_list sample_report) ]}.

Definition cli (dir : string) : args := {|
  arg_author := Some "J. Smith";
  arg_property_address := Some "123 Main St";
  arg_photo_path := Some dir;
|}.

(** The markup of the report on [selected]. *)
Definition selected_markup : str :=
  Eval vm_compute in
    match @render_report_data (pillow true)
            (report_of (converter false) (cli "photos") selected) with
    | Ok out => out
    | Raise _ => ""
    end.

End Toy.

(** ** The argument parser

    [BashCompleteArgParser] and [get_arg_parser].  What [argparse] itself
    does with the command line is the library's business and stays a
    parameter; the completion mode is the script's own. *)

Module Cli.

(** [os.environ.get(k)] is truthy: the variable is set and not empty. *)
Definition env_truthy (environ : gmap string string) (k : string) : bool :=
  match environ !! k with
  | Some v => negb (String.eqb v "")
  | None => false
  end.

(** [os.environ.get("COMP_LINE") and os.environ.get("COMP_POINT")] *)
Definition completing (environ : gmap string string) : bool :=
  env_truthy environ "COMP_LINE" && env_truthy environ "COMP_POINT".

(** The option strings of the actions of the parser [get_arg_parser]
    builds, in the order of registration: the help action that
    [ArgumentParser] adds itself, then the three [add_argument] calls. *)
Definition actions : list (list string) :=
  [ ["-h"; "--help"]; ["--author"]; ["--property-address"]; ["--photo-path"] ].

(** How a call ends when it does not return. *)
Inductive stop :=
  | Threw (x : exn)
  | UnboundLocalError
  | SystemExit.

(** The inner loop of [_bash_complete_recursor] over the option strings of
    one action. *)
Fixpoint match_options (curr_word : string) (option_strings : list string)
  (matches : gset string) : gset string :=
  match option_strings with
  | [] => matches
  | opt_string :: rest =>
      match_options curr_word rest
        (if starts_with curr_word opt_string then {[ opt_string ]} ∪ matches
         else matches)
  end.

(** The outer loop, over the actions. *)
Fixpoint match_actions (curr_word : string) (acts : list (list string))
  (matches : gset string) : gset string :=
  match acts with
  | [] => matches
  | option_strings :: rest =>
      match_actions curr_word rest (match_options curr_word option_strings matches)
  end.

(** [_bash_complete_recursor]: [argv] is [sys.argv].  Outside the completion
    mode [curr_word] is never assigned, and its first use fails. *)
Definition bash_complete_recursor (environ : gmap string string)
  (argv : list string) : stop + gset string :=
  if completing environ then
    match tail argv with
    | [command; curr_word; prev_word] => inr (match_actions curr_word actions ∅)
    | _ => inl (Threw ValueError)
    end
  else
    match actions with
    | (_ :: _) :: _ => inl UnboundLocalError
    | _ => inr ∅
    end.

(** What [parse_args] does: in the completion mode it prints the matches,
    one per line in the order the set gives them (nothing when there are
    none), and quits; else it hands over to [argparse]. *)
Inductive parsed :=
  | Completed (printed : gset string)
  | Stopped (why : stop)
  | Parsed (a : args).

(** [parse_args]; [library_parse] is [ArgumentParser.parse_args], which
    returns the arguments or exits. *)
Definition parse_args (library_parse : list string -> option args)
  (environ : gmap string string) (argv : list string) : parsed :=
  if completing environ then
    match bash_complete_recursor environ argv with
    | inr matches => Completed matches
    | inl why => Stopped why
    end
  else
    match library_parse argv with
    | Some a => Parsed a
    | None => Stopped SystemExit
    end.

(** The script from its first line: [main] with its call of [parse_args]. *)
Definition script `{Pillow} (library_parse : list string -> option args)
  (environ : gmap string string) (argv : list string) (e : env) (w : world)
  : parsed * option (result unit) * world :=
  match parse_args library_parse environ argv with
  | Parsed a => let '(r, w') := main e a w in (Parsed a, Some r, w')
  | other => (other, None, w)
  end.

End Cli.

(** ** More vocabulary *)

(** Text of 7-bit characters other than NUL. *)
Fixpoint ascii_text (s : string) : bool :=
  match s with
  | EmptyString => true
  | String c r => (0 <? byte_val c)%N && (byte_val c <? 128)%N && ascii_text r
  end.

(** The UTF-16 little-endian encoding of such a text, as Windows stores a
    comment: every character is followed by a null byte. *)
Fixpoint utf16le_ascii (s : string) : bytes :=
  match s with
  | EmptyString => EmptyString
  | String c r => String c (String NUL (utf16le_ascii r))
  end.

(** Text made of decimal digits. *)
Fixpoint all_digits (s : string) : bool :=
  match s with
  | EmptyString => true
  | String c r => (48 <=? byte_val c)%N && (byte_val c <=? 57)%N && all_digits r
  end.

(** A text without its null characters, said with the library's
    [filter]. *)
Definition without_nulls (s : string) : string :=
  String.string_of_list_ascii
    (filter (fun c => c <> "000"%char) (String.list_ascii_of_string s)).

(** The lines of a text: what lies between its line feeds, as
    [text.split("\n")] gives them. *)
Fixpoint lines_of (s : string) : list string :=
  match s with
  | EmptyString => [EmptyString]
  | String c r =>
      if Ascii.eqb c "010"%char then EmptyString :: lines_of r
      else match lines_of r with
           | l :: ls => String c l :: ls
           | [] => [String c EmptyString]
           end
  end.

(** A text with no line feed in it. *)
Fixpoint one_line (s : string) : bool :=
  match s with
  | EmptyString => true
  | String c r => negb (Ascii.eqb c "010"%char) && one_line r
  end.

(** The number a decimal digit stands for. *)
Definition digit_value (c : ascii) : option N :=
  let b := byte_val c in
  if ((48 <=? b) && (b <=? 57))%N then Some (b - 48)%N else None.

Fixpoint numeral_value_from (acc : N) (s : string) : option N :=
  match s with
  | EmptyString => Some acc
  | String c r =>
      match digit_value c with
      | Some d => numeral_value_from (10 * acc + d) r
      | None => None
      end
  end.

(** The number a decimal numeral stands for when it is written without
    sign and without padding: no zero in front, but for the numeral 0. *)
Definition plain_numeral (s : string) : option N :=
  match s with
  | EmptyString => None
  | String c r =>
      if Ascii.eqb c "0"%char
      then (if String.eqb r EmptyString then Some 0%N else None)
      else numeral_value_from 0 s
  end.

(** The month as [datetime] counts it. *)
Definition month_number (m : month) : nat :=
  match m with
  | January => 1 | February => 2 | March => 3 | April => 4 | May => 5
  | June => 6 | July => 7 | August => 8 | September => 9 | October => 10
  | November => 11 | December => 12
  end%nat.

(** Text of 7-bit characters. *)
Fixpoint seven_bit (s : string) : bool :=
  match s with
  | EmptyString => true
  | String c r => (byte_val c <? 128)%N && seven_bit r
  end.

(** The world once [path] has been opened for writing. *)
Definition opened (w : world) (path : string) : world :=
  {| fs := <[path := File ""]> (fs w); trace := EvTruncate path :: trace w |}.

(** The worlds a run goes through: report.md written; then report.html
    truncated and the converter started; then report.html written. *)
Definition wrote_markdown (w : world) (markdown_input : str) : world :=
  {| fs := <["report.md" := File (markdown_input +:+ nl)]>
             (<["report.md" := File ""]> (fs w));
     trace := EvWrite "report.md" (markdown_input +:+ nl)
                :: EvTruncate "report.md" :: trace w |}.

Definition started_converter (w : world) (markdown_input : str) : world :=
  {| fs := <["report.html" := File ""]> (fs (wrote_markdown w markdown_input));
     trace := EvSpawn [ "pandoc"; "--table-of-contents"; "--toc-depth=6";
                        "--from=markdown"; "--to=html5";
                        "--include-in-header=style.css" ] markdown_input
                :: EvTruncate "report.html"
                :: trace (wrote_markdown w markdown_input) |}.

Definition wrote_html (w : world) (markdown_input html : str) : world :=
  {| fs := <["report.html" := File (html +:+ nl)]>
             (fs (started_converter w markdown_input));
     trace := EvWrite "report.html" (html +:+ nl)
                :: trace (started_converter w markdown_input) |}.

Definition is_spawn (ev : event) : bool :=
  match ev with
  | EvSpawn _ _ => true
  | _ => false
  end.

(** The part of an entry the renderer reads: the JPEG bytes of the image
    and the caption. *)
Definition rendered_part `{Pillow} (entry : string * image * comment)
  : result bytes * comment :=
  (save_jpeg entry.1.2, entry.2).

(** [report_data] with another photo list. *)
Definition with_photos `{Pillow} (report_data : ReportData)
  (photos : list (string * image * comment)) : ReportData :=
  {| effective_date := effective_date report_data;
     property_address := property_address report_data;
     author := author report_data;
     photo_list := photos |}.

(** ** More scenes for the small imaging library *)

Module Scenes.

(** An existing directory with nothing in it. *)
Definition empty_dir : world := {|
  fs := {[ "photos" := Dir [] ]};
  trace := [];
|}.

(** The sample directory, with a directory in the place of report.html. *)
Definition html_blocked : world := {|
  fs := <["report.html" := Dir []]> (fs Toy.sample_world);
  trace := [];
|}.

(** The sample directory with a text file in the middle. *)
Definition with_notes : world := Toy.three_files "notes".

(** A photograph whose comment is stored the way Windows does. *)
Definition windows_photo : @image (Toy.pillow true) :=
  {| Toy.t_size := (899, 674);
     Toy.t_exif := {[ tag_id := EBytes (utf16le_ascii "Cracked tile") ]} |}.

(** Another image of the size of the sample shots, with other metadata. *)
Definition retake : @image (Toy.pillow true) :=
  {| Toy.t_size := (899, 674); Toy.t_exif := {[ tag_id := ENum 1 ]} |}.

(** The sample report with its files renamed and its first image retaken. *)
Definition renamed_report : @ReportData (Toy.pillow true) := {|
  effective_date := Toy.clock;
  property_address := Some "123 Main St";
  author := Some "J. Smith";
  photo_list := [ ("IMG_0001.JPG", retake, CText "Cracked tile");
                  ("IMG_0002.JPG", Toy.shot 899 674, CText "Loose railing") ];
|}.

(** A long and thin image. *)
Definition ribbon : Z * Z := (4000, 3).

(** The environment of a shell that asks for completions. *)
Definition completion_env : gmap string string :=
  {[ "COMP_LINE" := "house_report.py --p"; "COMP_POINT" := "19" ]}.

Definition completion_argv : list string :=
  [ "house_report.py"; "house_report.py"; "--p"; "house_report.py" ].

(** An [argparse] that accepts nothing. *)
Definition no_parse : list string -> option args := fun _ => None.

(** A photograph whose comment runs over two lines, the second of which
    reads like a heading. *)
Definition forged_caption : @ReportData (Toy.pillow true) := {|
  effective_date := Toy.clock;
  property_address := Some "123 Main St";
  author := Some "J. Smith";
  photo_list :=
    [ ("photos/a.jpg", Toy.shot 899 674,
       CText ("Cracked tile" +:+ nl +:+ "#### 7. Forged entry")) ];
|}.

(** A report without photographs whose address runs over two lines. *)
Definition forged_address : @ReportData (Toy.pillow true) := {|
  effective_date := Toy.clock;
  property_address := Some ("1 Main St" +:+ nl +:+ "#### 1. Forged");
  author := Some "J. Smith";
  photo_list := [];
|}.

(** The sample directory where the second photograph has the UTF-16 form
    of an e with acute accent as comment: the bytes E9 00. *)
Definition accented_comment : world :=
  Toy.three_files
    (Toy.toy_file "B" 4032 3024 (String (ascii_of_nat 233) (String NUL ""))).

(** A locale whose encoding is ASCII, and an address that needs more: the
    UTF-8 form of an e with acute accent in it. *)
Definition ascii_locale : env := {|
  today := Toy.clock;
  run_process := fun _ stdin => Ok ("<html>" +:+ stdin +:+ "</html>");
  encodes := seven_bit;
|}.

Definition accented_cli : args := {|
  arg_author := Some "J. Smith";
  arg_property_address :=
    Some ("12 All" +:+ String (ascii_of_nat 195) (String (ascii_of_nat 169) "e"));
  arg_photo_path := Some "photos";
|}.

End Scenes.

(** * Properties *)

(** ** The size computation: binary64 division and truncation *)

Section FloatFacts.

Lemma new_location_ok (m2 r : Z) :
  0 <= r < m2 -> loc_ok (new_location m2 r) r m2.
Proof.
  intros Hr. unfold new_location, new_location_even, new_location_odd.
  destruct (Z.even m2) eqn:Hev.
  - destruct (Z.eqb_spec r 0) as [->|Hne]; [reflexivity|].
    destruct (Z.compare_spec (2 * r) m2); simpl; lia.
  - destruct (Z.eqb_spec r 0) as [->|Hne]; [reflexivity|].
    assert (Hodd : Z.odd m2 = true) by (rewrite <- Z.negb_even, Hev; reflexivity).
    apply Z.odd_spec in Hodd as [t Ht].
    destruct (Z.compare_spec (2 * r + 1) m2); simpl; lia.
Qed.

Lemma digits2_pos_bounds (p : positive) :
  2 ^ (Z.pos (digits2_pos p) - 1) <= Z.pos p < 2 ^ Z.pos (digits2_pos p).
Proof.
  induction p as [p IH|p IH|]; cbn [digits2_pos].
  - rewrite Pos2Z.inj_succ.
    replace (Z.succ (Z.pos (digits2_pos p)) - 1) with (Z.succ (Z.pos (digits2_pos p) - 1)) by lia.
    rewrite !Z.pow_succ_r by lia. lia.
  - rewrite Pos2Z.inj_succ.
    replace (Z.succ (Z.pos (digits2_pos p)) - 1) with (Z.succ (Z.pos (digits2_pos p) - 1)) by lia.
    rewrite !Z.pow_succ_r by lia. lia.
  - simpl. lia.
Qed.

Lemma digits2_pos_unique (p : positive) (n : Z) :
  2 ^ (n - 1) <= Z.pos p < 2 ^ n -> Z.pos (digits2_pos p) = n.
Proof.
  intros [Hlo Hhi]. pose proof (digits2_pos_bounds p) as [Dlo Dhi].
  assert (Hn : 0 < n).
  { destruct (Z.ltb_spec 0 n) as [|Hle]; [assumption|].
    assert (2 ^ n <= 1).
    { destruct (Z.eq_dec n 0) as [->|]; [simpl; lia|].
      rewrite Z.pow_neg_r by lia. lia. }
    lia. }
  destruct (Z.lt_trichotomy (Z.pos (digits2_pos p)) n) as [Hlt|[Heq|Hgt]]; [|exact Heq|].
  - assert (2 ^ Z.pos (digits2_pos p) <= 2 ^ (n - 1)) by (apply Z.pow_le_mono_r; lia). lia.
  - assert (2 ^ n <= 2 ^ (Z.pos (digits2_pos p) - 1)) by (apply Z.pow_le_mono_r; lia). lia.
Qed.

Lemma binary_round_aux_unfold (mx ex : Z) (lx : location) :
  binary_round_aux 53 1024 false mx ex lx =
  finish_round
    (round_nearest_even (shr_m (shr_fexp 53 1024 mx ex lx).1)
       (loc_of_shr_record (shr_fexp 53 1024 mx ex lx).1))
    (shr_fexp 53 1024 mx ex lx).2.
Proof.
  unfold binary_round_aux, finish_round.
  now destruct (shr_fexp 53 1024 mx ex lx) as [mrs' e'].
Qed.

Lemma fexp_normal (x : Z) : -1074 <= x - 53 -> fexp 53 1024 x = x - 53.
Proof. intros Hx. unfold fexp, emin. lia. Qed.

Lemma shr_fexp_53 (p : positive) (e : Z) (l : location) :
  2 ^ 52 <= Z.pos p < 2 ^ 53 -> -1074 <= e ->
  shr_fexp 53 1024 (Z.pos p) e l = (shr_record_of_loc (Z.pos p) l, e).
Proof.
  intros Hp He. unfold shr_fexp. cbn [Zdigits2].
  rewrite (digits2_pos_unique p 53) by exact Hp.
  rewrite fexp_normal by lia.
  replace (53 + e - 53 - e) with 0 by lia. reflexivity.
Qed.

Lemma shr_fexp_54 (p : positive) (e : Z) (l : location) :
  2 ^ 53 <= Z.pos p < 2 ^ 54 -> -1074 <= e ->
  shr_fexp 53 1024 (Z.pos p) e l = (shr_1 (shr_record_of_loc (Z.pos p) l), e + 1).
Proof.
  intros Hp He. unfold shr_fexp. cbn [Zdigits2].
  rewrite (digits2_pos_unique p 54) by exact Hp.
  rewrite fexp_normal by lia.
  replace (54 + e - 53 - e) with 1 by lia. reflexivity.
Qed.

Lemma shr_record_of_loc_m (m : Z) (l : location) : shr_m (shr_record_of_loc m l) = m.
Proof. now destruct l as [|[]]. Qed.

Lemma loc_of_shr_record_of_loc (m : Z) (l : location) :
  loc_of_shr_record (shr_record_of_loc m l) = l.
Proof. now destruct l as [|[]]. Qed.

(** The last step of a rounding: a mantissa of 53 bits is kept, 2^53 is
    renormalised. *)
Lemma finish_round_spec (mr e : Z) :
  2 ^ 52 <= mr <= 2 ^ 53 -> -1074 <= e -> e + 1 <= 971 ->
  exists (mz : positive) (ez : Z),
    finish_round mr e = S754_finite false mz ez /\
    2 ^ 52 <= Z.pos mz < 2 ^ 53 /\ e <= ez <= e + 1 /\
    Z.pos mz * 2 ^ (ez - e) = mr.
Proof.
  intros Hm He Hmax. unfold finish_round.
  destruct (Z.eq_dec mr (2 ^ 53)) as [->|Hne].
  - change (2 ^ 53) with (Z.pos (2 ^ 53)%positive) at 1.
    rewrite shr_fexp_54 by (change (Z.pos (2 ^ 53)%positive) with (2 ^ 53); lia).
    cbn [shr_record_of_loc shr_1 shr_m].
    exists (2 ^ 52)%positive, (e + 1).
    assert (Hle : (e + 1 <=? 1024 - 53) = true) by (apply Z.leb_le; lia).
    rewrite Hle. replace (e + 1 - e) with 1 by lia.
    change (Z.pos (2 ^ 52)%positive) with (2 ^ 52).
    repeat split; try lia.
  - destruct mr as [|p|p]; try lia.
    rewrite shr_fexp_53 by lia. cbn [shr_record_of_loc shr_m].
    exists p, e.
    assert (Hle : (e <=? 1024 - 53) = true) by (apply Z.leb_le; lia).
    rewrite Hle. replace (e - e) with 0 by lia. rewrite Z.mul_1_r.
    repeat split; lia.
Qed.

(** Rounding a quotient [q + r / m2] of 53 or 54 bits to nearest: the
    result is within half a unit in the last place. *)
Lemma round_aux_div (q : positive) (e r m2 : Z) (l : location) :
  2 ^ 52 <= Z.pos q < 2 ^ 54 -> loc_ok l r m2 -> 0 <= r < m2 ->
  -1074 <= e -> e + 2 <= 971 ->
  exists (mz : positive) (ez U : Z),
    binary_round_aux 53 1024 false (Z.pos q) e l = S754_finite false mz ez /\
    2 ^ 52 <= Z.pos mz < 2 ^ 53 /\ e <= ez <= e + 2 /\ (U = 1 \/ U = 2) /\
    2 ^ 52 * U <= Z.pos mz * 2 ^ (ez - e) /\
    2 * Z.abs (Z.pos mz * 2 ^ (ez - e) * m2 - (Z.pos q * m2 + r)) <= U * m2.
Proof.
  intros Hq Hl Hr He Hmax. rewrite binary_round_aux_unfold.
  destruct (Z.ltb_spec (Z.pos q) (2 ^ 53)) as [Hlt|Hge].
  - (* 53 bits: no shift *)
    rewrite shr_fexp_53 by lia. cbn [fst snd].
    rewrite shr_record_of_loc_m, loc_of_shr_record_of_loc.
    set (mr := round_nearest_even (Z.pos q) l).
    assert (Hmr : (mr = Z.pos q \/ mr = Z.pos q + 1) /\
                  2 * Z.abs (mr * m2 - (Z.pos q * m2 + r)) <= m2).
    { unfold mr, round_nearest_even.
      destruct l as [|[]]; cbn [loc_ok] in Hl.
      - split; [now left|]. subst r. rewrite Z.add_0_r, Z.sub_diag. simpl. lia.
      - destruct (Z.even (Z.pos q)); (split; [auto|]); nia.
      - split; [now left|]. nia.
      - split; [now right|]. nia. }
    destruct Hmr as [Hmr Herr].
    destruct (finish_round_spec mr e) as (mz & ez & -> & Hmz & Hez & Hval); try lia.
    exists mz, ez, 1. rewrite Hval.
    repeat split; lia.
  - (* 54 bits: one shift *)
    rewrite shr_fexp_54 by lia. cbn [fst snd].
    set (h := Z.pos q / 2).
    set (mr := round_nearest_even (shr_m (shr_1 (shr_record_of_loc (Z.pos q) l)))
                 (loc_of_shr_record (shr_1 (shr_record_of_loc (Z.pos q) l)))).
    assert (Hmr : (mr = h \/ mr = h + 1) /\
                  Z.abs (2 * mr * m2 - (Z.pos q * m2 + r)) <= m2).
    { unfold mr, h. destruct q as [p|p|]; [| |lia].
      - (* odd *)
        replace (Z.pos p~1 / 2) with (Z.pos p) by (rewrite Pos2Z.inj_xI; Z.to_euclidean_division_equations; lia).
        destruct l as [|[]]; cbn [loc_ok] in Hl;
          cbn [shr_record_of_loc shr_1 shr_m loc_of_shr_record round_nearest_even orb];
          rewrite Pos2Z.inj_xI.
        + destruct (Z.even (Z.pos p)); (split; [auto|]); nia.
        + split; [now right|]. nia.
        + split; [now right|]. nia.
        + split; [now right|]. nia.
      - (* even *)
        replace (Z.pos p~0 / 2) with (Z.pos p) by (rewrite Pos2Z.inj_xO; Z.to_euclidean_division_equations; lia).
        destruct l as [|[]]; cbn [loc_ok] in Hl;
          cbn [shr_record_of_loc shr_1 shr_m loc_of_shr_record round_nearest_even orb];
          rewrite Pos2Z.inj_xO; (split; [now left|]); nia. }
    destruct Hmr as [Hmr Herr].
    assert (Hh : 2 ^ 52 <= h < 2 ^ 53).
    { unfold h. Z.to_euclidean_division_equations. lia. }
    destruct (finish_round_spec mr (e + 1)) as (mz & ez & -> & Hmz & Hez & Hval); try lia.
    exists mz, ez, 2.
    assert (Hpow : Z.pos mz * 2 ^ (ez - e) = 2 * mr).
    { replace (ez - e) with (Z.succ (ez - (e + 1))) by lia.
      rewrite Z.pow_succ_r by lia. lia. }
    rewrite Hpow. repeat split; lia.
Qed.

(** The division of two positive numbers, away from overflow and underflow:
    the result is normal and within half a unit in the last place of the
    quotient. *)
Lemma SFdiv_pos (m1 m2 : positive) (e1 e2 : Z) :
  let d1 := Z.pos (digits2_pos m1) in
  let d2 := Z.pos (digits2_pos m2) in
  let e' := d1 + e1 - (d2 + e2) - 53 in
  d1 <= d2 + 53 -> -1074 <= e' -> e' + 2 <= 971 ->
  exists (mz : positive) (ez U : Z),
    SFdiv 53 1024 (S754_finite false m1 e1) (S754_finite false m2 e2)
      = S754_finite false mz ez /\
    2 ^ 52 <= Z.pos mz < 2 ^ 53 /\ e' <= ez <= e' + 2 /\ (U = 1 \/ U = 2) /\
    2 ^ 52 * U <= Z.pos mz * 2 ^ (ez - e') /\
    2 * Z.abs (Z.pos mz * 2 ^ (ez - e') * Z.pos m2
               - Z.pos m1 * 2 ^ (53 + d2 - d1)) <= U * Z.pos m2.
Proof.
  intros d1 d2 e' Hd He Hmax.
  pose proof (digits2_pos_bounds m1) as [H1lo H1hi]. fold d1 in H1lo, H1hi.
  pose proof (digits2_pos_bounds m2) as [H2lo H2hi]. fold d2 in H2lo, H2hi.
  assert (Hd1 : 0 < d1) by (unfold d1; lia).
  assert (Hd2 : 0 < d2) by (unfold d2; lia).
  unfold SFdiv, SFdiv_core_binary. cbn [Zdigits2 xorb]. fold d1 d2.
  rewrite fexp_normal by (fold e'; lia).
  replace (Z.min (d1 + e1 - (d2 + e2) - 53) (e1 - e2)) with e' by (unfold e'; lia).
  replace (e1 - e2 - e') with (53 + d2 - d1) by (unfold e'; lia).
  set (sh := 53 + d2 - d1).
  set (m' := match sh with
             | 0 => Z.pos m1
             | Z.pos _ => Z.shiftl (Z.pos m1) sh
             | Z.neg _ => 0
             end).
  assert (Hm' : m' = Z.pos m1 * 2 ^ sh).
  { unfold m'. assert (Hsh : 0 <= sh) by (unfold sh; lia).
    destruct sh as [|s|s]; [simpl; lia| |lia].
    now rewrite Z.shiftl_mul_pow2 by lia. }
  clearbody m'.
  pose proof (Z_div_mod m' (Z.pos m2) ltac:(lia)) as Hdiv.
  destruct (Z.div_eucl m' (Z.pos m2)) as [q r]. destruct Hdiv as [Hq Hr].
  (* the quotient has 53 or 54 bits *)
  set (A := 2 ^ (d2 - 1)) in *.
  assert (HA : 2 ^ d2 = 2 * A).
  { unfold A. replace d2 with (Z.succ (d2 - 1)) at 1 by lia.
    now rewrite Z.pow_succ_r by lia. }
  assert (Hm'lo : 2 ^ 52 * (2 * A) <= m').
  { rewrite Hm', <- HA, <- Z.pow_add_r by lia.
    replace (52 + d2) with ((d1 - 1) + sh) by (unfold sh; lia).
    rewrite Z.pow_add_r by (unfold sh; lia).
    apply Z.mul_le_mono_nonneg_r; [apply Z.pow_nonneg; lia|exact H1lo]. }
  assert (Hm'hi : m' < 2 ^ 53 * (2 * A)).
  { rewrite Hm', <- HA, <- Z.pow_add_r by lia.
    replace (53 + d2) with (d1 + sh) by (unfold sh; lia).
    rewrite Z.pow_add_r by (unfold sh; lia).
    apply Z.mul_lt_mono_pos_r; [apply Z.pow_pos_nonneg; unfold sh; lia|exact H1hi]. }
  rewrite HA in H2hi.
  assert (HApos : 0 < A) by (unfold A; apply Z.pow_pos_nonneg; lia).
  assert (Hqr : 2 ^ 52 <= q < 2 ^ 54) by nia.
  destruct q as [|q|q]; try lia.
  destruct (round_aux_div q e' r (Z.pos m2) (new_location (Z.pos m2) r))
    as (mz & ez & U & Hres & Hmz & Hez & HU & Hbig & Herr);
    try lia; [now apply new_location_ok|].
  exists mz, ez, U. rewrite Hres. repeat split; lia.
Qed.

Lemma iter_xO_pow (a d : positive) :
  Z.pos (Pos.iter xO a d) = Z.pos a * 2 ^ Z.pos d.
Proof.
  induction d as [|d IH] using Pos.peano_ind.
  - simpl. lia.
  - rewrite Pos.iter_succ, Pos2Z.inj_xO, IH, Pos2Z.inj_succ, Z.pow_succ_r by lia. ring.
Qed.

(** [float(a)] for a positive integer of at most 53 bits is exact. *)
Lemma of_int_pos (a : positive) :
  let da := Z.pos (digits2_pos a) in
  Z.pos a < 2 ^ 53 ->
  exists mx : positive,
    Float.of_int (Z.pos a) = Ok (S754_finite false mx (da - 53)) /\
    Z.pos mx = Z.pos a * 2 ^ (53 - da) /\
    2 ^ 52 <= Z.pos mx < 2 ^ 53.
Proof.
  intros da Ha.
  pose proof (digits2_pos_bounds a) as [Hlo Hhi]. fold da in Hlo, Hhi.
  assert (Hda : 0 < da <= 53).
  { split; [unfold da; lia|].
    destruct (Z_le_gt_dec da 53) as [|Hgt]; [assumption|].
    assert (2 ^ 53 <= 2 ^ (da - 1)) by (apply Z.pow_le_mono_r; lia). lia. }
  unfold Float.of_int, Float.prec, Float.emax, binary_normalize, binary_round, shl_align.
  rewrite Z.add_0_r. fold da. rewrite fexp_normal by lia. rewrite Z.sub_0_r.
  assert (Hmx : exists mx : positive,
            (match da - 53 with
             | Z.neg d => (Pos.iter xO a d, da - 53)
             | _ => (a, 0)
             end) = (mx, da - 53) /\
            Z.pos mx = Z.pos a * 2 ^ (53 - da)).
  { destruct (da - 53) as [|d|d] eqn:Hd; [|lia|].
    - exists a. replace (53 - da) with 0 by lia. split; [reflexivity|]. simpl. lia.
    - exists (Pos.iter xO a d). split; [reflexivity|].
      rewrite iter_xO_pow. f_equal. f_equal. lia. }
  destruct Hmx as (mx & -> & Hval).
  assert (Hrange : 2 ^ 52 <= Z.pos mx < 2 ^ 53).
  { rewrite Hval. split.
    - replace 52 with ((da - 1) + (53 - da)) by lia.
      rewrite Z.pow_add_r by lia.
      apply Z.mul_le_mono_nonneg_r; [apply Z.pow_nonneg; lia|exact Hlo].
    - replace 53 with (da + (53 - da)) at 2 by lia.
      rewrite Z.pow_add_r by lia.
      apply Z.mul_lt_mono_pos_r; [apply Z.pow_pos_nonneg; lia|exact Hhi]. }
  exists mx. split; [|split; assumption].
  rewrite binary_round_aux_unfold, shr_fexp_53 by lia. cbn [fst snd shr_record_of_loc shr_m loc_of_shr_record round_nearest_even].
  destruct (finish_round_spec (Z.pos mx) (da - 53)) as (mz & ez & -> & Hmz & Hez & Hv); try lia.
  assert (ez = da - 53).
  { destruct (Z.eq_dec ez (da - 53)) as [|Hne]; [assumption|].
    replace (ez - (da - 53)) with 1 in Hv by lia. lia. }
  subst ez. rewrite Z.sub_diag, Z.mul_1_r in Hv. injection Hv as ->. reflexivity.
Qed.

Lemma scale_core (a m ms mq T A P R N U1 U2 : Z) :
  0 < a < 2 ^ 31 -> 0 < m ->
  0 < T -> 2 ^ 22 <= A -> 0 < P -> 0 < R -> 0 < N ->
  R * N * P = A * 2 ^ 53 * T ->
  (U1 = 1 \/ U1 = 2) -> (U2 = 1 \/ U2 = 2) ->
  2 ^ 52 * U1 <= ms * T -> 2 ^ 52 <= ms < 2 ^ 53 ->
  2 * Z.abs (ms * T * 900 - m * P) <= U1 * 900 ->
  2 * Z.abs (mq * R * ms - a * A * 2 ^ 53) <= U2 * ms ->
  Z.abs (mq * m - 900 * a * N) < N.
Proof.
  intros Ha Hm HT HA HP HR HN HD HU1 HU2 HQs Hms He1 He2.
  remember (ms * T) as Qs eqn:EQs.
  remember (A * 2 ^ 53 * T) as D eqn:ED.
  remember (Qs * 900 - m * P) as eta1 eqn:E1.
  remember (mq * R * ms - a * A * 2 ^ 53) as eta2 eqn:E2.
  remember (mq * m - 900 * a * N) as X eqn:EX.
  remember (Z.abs eta1) as al eqn:Eal.
  remember (Z.abs (T * eta2)) as be eqn:Ebe.
  assert (Hal0 : 0 <= al) by (subst al; apply Z.abs_nonneg).
  assert (Hbe0 : 0 <= be) by (subst be; apply Z.abs_nonneg).
  assert (HQs52 : 2 ^ 52 <= Qs) by (clear - HQs HU1; lia).
  assert (HQs0 : 0 <= Qs) by (clear - HQs52; lia).
  assert (HAT : 0 < A * T) by (apply Z.mul_pos_pos; clear - HA HT; lia).
  assert (HDpos : 0 < D).
  { subst D. replace (A * 2 ^ 53 * T) with (2 ^ 53 * (A * T)) by ring.
    clear - HAT. lia. }
  assert (HD0 : 0 <= D) by (clear - HDpos; lia).
  assert (HQD : 0 < Qs * D) by (apply Z.mul_pos_pos; [clear - HQs52|clear - HDpos]; lia).
  (* the three error terms *)
  assert (Hal : 2 ^ 53 * al <= 900 * Qs) by (clear - He1 HU1 HQs; lia).
  assert (Hal900 : al <= 900) by (clear - He1 HU1; lia).
  assert (Hbe : be <= Qs).
  { subst be. rewrite Z.abs_mul, (Z.abs_eq T) by (clear - HT; lia).
    assert (Z.abs eta2 <= ms) by (clear - He2 HU2 Hms; lia).
    subst Qs. rewrite (Z.mul_comm ms T).
    apply Z.mul_le_mono_nonneg_l; [clear - HT; lia|assumption]. }
  assert (HQsD : Qs * 2 ^ 22 <= D).
  { subst Qs D.
    replace (A * 2 ^ 53 * T) with (2 ^ 53 * T * A) by ring.
    assert (H1 : ms * T <= 2 ^ 53 * T)
      by (apply Z.mul_le_mono_nonneg_r; [clear - HT|clear - Hms]; lia).
    assert (H2 : 2 ^ 53 * T * 2 ^ 22 <= 2 ^ 53 * T * A)
      by (apply Z.mul_le_mono_nonneg_l; [clear - HT|clear - HA]; lia).
    clear - H1 H2. lia. }
  assert (Hid : Qs * (R * P) * X
                = - (a * D * eta1) + 900 * Qs * (T * eta2) - eta1 * (T * eta2)).
  { assert (HD' : D = R * N * P) by (clear - HD; lia).
    transitivity (Qs * R * P * mq * m - 900 * a * Qs * (R * N * P)); [subst X; ring|].
    rewrite <- HD'. subst eta1 eta2.
    replace (T * (mq * R * ms - a * A * 2 ^ 53)) with (mq * R * (ms * T) - a * (A * 2 ^ 53 * T)) by ring.
    rewrite <- EQs, <- ED. ring. }
  destruct (Z_lt_le_dec (Z.abs X) N) as [Hlt|Hge]; [exact Hlt|exfalso].
  assert (HRP : 0 <= Qs * (R * P)).
  { apply Z.mul_nonneg_nonneg; [assumption|].
    apply Z.mul_nonneg_nonneg; [clear - HR|clear - HP]; lia. }
  assert (Hlhs : Qs * D <= Z.abs (Qs * (R * P) * X)).
  { rewrite Z.abs_mul, (Z.abs_eq (Qs * (R * P))) by assumption.
    replace (Qs * D) with (Qs * (R * P) * N) by (rewrite <- HD; ring).
    apply Z.mul_le_mono_nonneg_l; assumption. }
  assert (Ht1 : 2 ^ 53 * Z.abs (a * D * eta1) <= 900 * 2 ^ 31 * (Qs * D)).
  { assert (HaD : 0 <= a * D) by (apply Z.mul_nonneg_nonneg; [clear - Ha; lia|assumption]).
    rewrite Z.abs_mul, (Z.abs_eq (a * D)), <- Eal by assumption.
    replace (2 ^ 53 * (a * D * al)) with (a * D * (2 ^ 53 * al)) by ring.
    assert (H1 : a * D * (2 ^ 53 * al) <= a * D * (900 * Qs))
      by (apply Z.mul_le_mono_nonneg_l; assumption).
    assert (H2 : a * (900 * (Qs * D)) <= 2 ^ 31 * (900 * (Qs * D)))
      by (apply Z.mul_le_mono_nonneg_r; [clear - HQD|clear - Ha]; lia).
    replace (a * D * (900 * Qs)) with (a * (900 * (Qs * D))) in H1 by ring.
    clear - H1 H2. lia. }
  assert (Ht2 : 2 ^ 22 * Z.abs (900 * Qs * (T * eta2)) <= 900 * (Qs * D)).
  { rewrite Z.abs_mul, (Z.abs_eq (900 * Qs)), <- Ebe by (clear - HQs0; lia).
    assert (H1 : Qs * be <= Qs * Qs) by (apply Z.mul_le_mono_nonneg_l; assumption).
    assert (H2 : Qs * (Qs * 2 ^ 22) <= Qs * D) by (apply Z.mul_le_mono_nonneg_l; assumption).
    clear - H1 H2. lia. }
  assert (Ht3 : 2 ^ 22 * Z.abs (eta1 * (T * eta2)) <= 900 * (Qs * D)).
  { rewrite Z.abs_mul, <- Eal, <- Ebe.
    assert (H1 : al * be <= 900 * be) by (apply Z.mul_le_mono_nonneg_r; assumption).
    assert (H2 : 1 * D <= Qs * D)
      by (apply Z.mul_le_mono_nonneg_r; [assumption|clear - HQs52; lia]).
    clear - H1 H2 Hbe HQsD. lia. }
  rewrite Hid in Hlhs.
  clear - Hlhs Ht1 Ht2 Ht3 HQD. lia.
Qed.

Lemma digits2_pos_small (p : positive) (n : Z) :
  0 <= n -> Z.pos p < 2 ^ n -> Z.pos (digits2_pos p) <= n.
Proof.
  intros Hn Hp. pose proof (digits2_pos_bounds p) as [Hlo _].
  destruct (Z_le_gt_dec (Z.pos (digits2_pos p)) n) as [|Hgt]; [assumption|].
  assert (2 ^ n <= 2 ^ (Z.pos (digits2_pos p) - 1)) by (apply Z.pow_le_mono_r; lia).
  lia.
Qed.

(** [max_dim / ideal_max_dimension]: the scale, with its rounding error. *)
Lemma scale_spec (pm : positive) :
  let dm := Z.pos (digits2_pos pm) in
  Z.pos pm < 2 ^ 31 ->
  exists (ms : positive) (es U1 : Z),
    Float.int_truediv (Z.pos pm) ideal_max_dimension = Ok (S754_finite false ms es) /\
    2 ^ 52 <= Z.pos ms < 2 ^ 53 /\ dm - 63 <= es <= dm - 61 /\ (U1 = 1 \/ U1 = 2) /\
    2 ^ 52 * U1 <= Z.pos ms * 2 ^ (es - (dm - 63)) /\
    2 * Z.abs (Z.pos ms * 2 ^ (es - (dm - 63)) * 900 - Z.pos pm * 2 ^ (63 - dm))
      <= U1 * 900.
Proof.
  intros dm Hm.
  assert (Hdm : 0 < dm <= 31) by (split; [unfold dm; lia|apply digits2_pos_small; lia]).
  destruct (SFdiv_pos pm 900 0 0) as (ms & es & U1 & Hres & Hms & Hes & HU & Hbig & Herr).
  - change (Z.pos (digits2_pos 900)) with 10. fold dm. lia.
  - change (Z.pos (digits2_pos 900)) with 10. fold dm. lia.
  - change (Z.pos (digits2_pos 900)) with 10. fold dm. lia.
  - change (Z.pos (digits2_pos 900)) with 10 in *. fold dm in Hes, Hbig, Herr.
    replace (dm + 0 - (10 + 0) - 53) with (dm - 63) in * by lia.
    replace (53 + 10 - dm) with (63 - dm) in * by lia.
    exists ms, es, U1.
    unfold Float.int_truediv, ideal_max_dimension, Float.prec, Float.emax.
    rewrite Hres. cbn [Float.finite_or_raise].
    repeat split; lia.
Qed.

(** [int(a / scale)] for one side [a] of the image. *)
Lemma side_spec (pm pa ms : positive) (es U1 : Z) :
  let dm := Z.pos (digits2_pos pm) in
  Z.pos pm < 2 ^ 31 -> Z.pos pa < 2 ^ 31 ->
  2 ^ 52 <= Z.pos ms < 2 ^ 53 -> dm - 63 <= es <= dm - 61 -> (U1 = 1 \/ U1 = 2) ->
  2 ^ 52 * U1 <= Z.pos ms * 2 ^ (es - (dm - 63)) ->
  2 * Z.abs (Z.pos ms * 2 ^ (es - (dm - 63)) * 900 - Z.pos pm * 2 ^ (63 - dm))
    <= U1 * 900 ->
  exists (q : spec_float) (n : Z),
    Float.int_float_truediv (Z.pos pa) (S754_finite false ms es) = Ok q /\
    Float.to_int q = Ok n /\
    n * Z.pos pm <= 900 * Z.pos pa <= (n + 1) * Z.pos pm.
Proof.
  intros dm Hm Ha Hms Hes HU1 Hbig1 Herr1.
  assert (Hdm : 0 < dm <= 31) by (split; [unfold dm; lia|apply digits2_pos_small; lia]).
  set (da := Z.pos (digits2_pos pa)).
  assert (Hda : 0 < da <= 31) by (split; [unfold da; lia|apply digits2_pos_small; lia]).
  destruct (of_int_pos pa) as (mx & Hx & Hmx & Hmxr); [lia|]. fold da in Hx, Hmx.
  assert (Hdx : Z.pos (digits2_pos mx) = 53) by (apply digits2_pos_unique; lia).
  assert (Hds : Z.pos (digits2_pos ms) = 53) by (apply digits2_pos_unique; lia).
  destruct (SFdiv_pos mx ms (da - 53) es) as (mq & eq & U2 & Hres & Hmq & Heq & HU2 & Hbig2 & Herr2);
    rewrite ?Hdx, ?Hds; try lia.
  rewrite Hdx, Hds in Heq, Hbig2, Herr2.
  set (e2 := 53 + (da - 53) - (53 + es) - 53) in *.
  replace (53 + 53 - 53) with 53 in Herr2 by lia.
  exists (S754_finite false mq eq), (Z.shiftl (Z.pos mq) eq).
  split.
  { unfold Float.int_float_truediv. rewrite Hx. cbn [rbind].
    unfold Float.truediv, Float.prec, Float.emax. now rewrite Hres. }
  split; [reflexivity|].
  assert (Heqneg : eq < 0) by (unfold e2 in Heq; lia).
  rewrite Z.shiftl_div_pow2 by lia.
  set (N := 2 ^ (- eq)).
  assert (HN : 0 < N) by (apply Z.pow_pos_nonneg; lia).
  set (n := Z.pos mq / N).
  assert (Hn : n * N <= Z.pos mq < (n + 1) * N).
  { unfold n. pose proof (Z.div_mod (Z.pos mq) N ltac:(lia)).
    pose proof (Z.mod_pos_bound (Z.pos mq) N HN). lia. }
  assert (HT : 0 < 2 ^ (es - (dm - 63))) by (apply Z.pow_pos_nonneg; lia).
  assert (HA : 2 ^ 22 <= 2 ^ (53 - da)) by (apply Z.pow_le_mono_r; lia).
  assert (HP : 0 < 2 ^ (63 - dm)) by (apply Z.pow_pos_nonneg; lia).
  assert (HR : 0 < 2 ^ (eq - e2)) by (apply Z.pow_pos_nonneg; lia).
  assert (Hexp : 2 ^ (eq - e2) * N * 2 ^ (63 - dm)
                 = 2 ^ (53 - da) * 2 ^ 53 * 2 ^ (es - (dm - 63))).
  { unfold N. rewrite <- !Z.pow_add_r by lia. f_equal. unfold e2. lia. }
  rewrite Hmx in Herr2.
  assert (Hcore : Z.abs (Z.pos mq * Z.pos pm - 900 * Z.pos pa * N) < N).
  { apply (scale_core (Z.pos pa) (Z.pos pm) (Z.pos ms) (Z.pos mq)
             (2 ^ (es - (dm - 63))) (2 ^ (53 - da)) (2 ^ (63 - dm)) (2 ^ (eq - e2))
             N U1 U2); try assumption; lia. }
  clearbody n N. clear - Hn Hcore HN.
  assert (H1 : n * N * Z.pos pm <= Z.pos mq * Z.pos pm)
    by (apply Z.mul_le_mono_nonneg_r; lia).
  assert (H2 : Z.pos mq * Z.pos pm <= ((n + 1) * N - 1) * Z.pos pm)
    by (apply Z.mul_le_mono_nonneg_r; lia).
  split.
  - destruct (Z_le_gt_dec (n * Z.pos pm) (900 * Z.pos pa)) as [|Hgt]; [assumption|exfalso].
    assert (N * (900 * Z.pos pa + 1) <= N * (n * Z.pos pm))
      by (apply Z.mul_le_mono_nonneg_l; lia).
    lia.
  - destruct (Z_le_gt_dec (900 * Z.pos pa) ((n + 1) * Z.pos pm)) as [|Hgt]; [assumption|exfalso].
    assert (N * ((n + 1) * Z.pos pm + 1) <= N * (900 * Z.pos pa))
      by (apply Z.mul_le_mono_nonneg_l; lia).
    lia.
Qed.

End FloatFacts.

(** C1: the script misses the size it aims at.  It divides by
    [max_dim / 900] so that the longer side comes out as 900, but the
    quotient of the floats can fall just short of the whole number and
    [int] cuts it off: a photograph of 4032 by 3024 is scaled to 899 by 674,
    where rounding, as the claim has it, gives 900 by 675; a 3 by 3 image is
    scaled to 899 by 899; and the short side of a 1000 by 1 image becomes 0,
    where rounding gives 1. *)
Lemma scaled_size_is_not_rounded :
  scaled_size (4032, 3024) = Ok (899, 674) /\
  scaled_size_rounding (4032, 3024) = Ok (900, 675) /\
  scaled_size (3, 3) = Ok (899, 899) /\
  scaled_size_rounding (3, 3) = Ok (900, 900) /\
  scaled_size (1000, 1) = Ok (900, 0) /\
  scaled_size_rounding (1000, 1) = Ok (900, 1).
Proof. vm_compute. repeat split; reflexivity. Qed.

(** How far the computed size is from the exact one: for a bitmap whose
    sides are at least 1 and below 2^31 the size computation raises
    nothing, each new side is between 0 and 900, and it is the exact share
    [900 * side / max] or less than it by at most one. *)
Theorem scaled_size_truncates (W H : Z) :
  1 <= W < 2 ^ 31 -> 1 <= H < 2 ^ 31 ->
  exists (scale qw qh : spec_float) (w h : Z),
    Float.int_truediv (Z.max W H) ideal_max_dimension = Ok scale /\
    Float.int_float_truediv W scale = Ok qw /\ Float.to_int qw = Ok w /\
    Float.int_float_truediv H scale = Ok qh /\ Float.to_int qh = Ok h /\
    scaled_size (W, H) = Ok (w, h) /\
    w * Z.max W H <= 900 * W <= (w + 1) * Z.max W H /\
    h * Z.max W H <= 900 * H <= (h + 1) * Z.max W H /\
    0 <= w <= 900 /\ 0 <= h <= 900.
Proof.
  intros HW HH.
  assert (Hmax : 1 <= Z.max W H < 2 ^ 31) by lia.
  assert (HWm : W <= Z.max W H) by lia.
  assert (HHm : H <= Z.max W H) by lia.
  unfold scaled_size. generalize dependent (Z.max W H). intros m Hm HWm HHm.
  destruct m as [|pm|pm]; try lia.
  destruct W as [|pw|pw]; try lia.
  destruct H as [|ph|ph]; try lia.
  destruct (scale_spec pm) as (ms & es & U1 & Hscale & Hms & Hes & HU1 & Hbig & Herr);
    [lia|].
  destruct (side_spec pm pw ms es U1) as (qw & w & Hqw & Hw & Hbw); try assumption; try lia.
  destruct (side_spec pm ph ms es U1) as (qh & h & Hqh & Hh & Hbh); try assumption; try lia.
  exists (S754_finite false ms es), qw, qh, w, h.
  rewrite Hscale. cbn [rbind]. rewrite Hqw. cbn [rbind]. rewrite Hw. cbn [rbind].
  rewrite Hqh. cbn [rbind]. rewrite Hh. cbn [rbind].
  repeat split; try reflexivity; try lia; try assumption.
  - destruct (Z_le_gt_dec 0 w) as [|Hneg]; [assumption|exfalso].
    assert ((w + 1) * Z.pos pm <= 0 * Z.pos pm) by (apply Z.mul_le_mono_nonneg_r; lia).
    lia.
  - destruct (Z_le_gt_dec w 900) as [|Hbig']; [assumption|exfalso].
    assert (901 * Z.pos pm <= w * Z.pos pm) by (apply Z.mul_le_mono_nonneg_r; lia).
    lia.
  - destruct (Z_le_gt_dec 0 h) as [|Hneg]; [assumption|exfalso].
    assert ((h + 1) * Z.pos pm <= 0 * Z.pos pm) by (apply Z.mul_le_mono_nonneg_r; lia).
    lia.
  - destruct (Z_le_gt_dec h 900) as [|Hbig']; [assumption|exfalso].
    assert (901 * Z.pos pm <= h * Z.pos pm) by (apply Z.mul_le_mono_nonneg_r; lia).
    lia.
Qed.

Lemma scaled_size_truncates_witness :
  exists (scale qw qh : spec_float) (w h : Z),
    Float.int_truediv (Z.max 4032 3024) ideal_max_dimension = Ok scale /\
    Float.int_float_truediv 4032 scale = Ok qw /\ Float.to_int qw = Ok w /\
    Float.int_float_truediv 3024 scale = Ok qh /\ Float.to_int qh = Ok h /\
    scaled_size (4032, 3024) = Ok (w, h) /\
    w * Z.max 4032 3024 <= 900 * 4032 <= (w + 1) * Z.max 4032 3024 /\
    h * Z.max 4032 3024 <= 900 * 3024 <= (h + 1) * Z.max 4032 3024 /\
    0 <= w <= 900 /\ 0 <= h <= 900.
Proof. apply (scaled_size_truncates 4032 3024); lia. Defined.

(** ** Base64 *)

Section Base64Facts.
Import Base64.

Local Ltac divlia := zify; Z.to_euclidean_division_equations; lia.

Lemma sextet_table :
  forallb (fun n => match char_sextet (sextet_char n) with
                    | Some k => (k =? n)%N && negb (Ascii.eqb (sextet_char n) pad)
                                && negb (Ascii.eqb (sextet_char n) ")")
                    | None => false
                    end)
          (N.of_nat <$> seq 0 64) = true.
Proof. vm_compute. reflexivity. Qed.

Lemma sextet_roundtrip (n : N) :
  (n < 64)%N ->
  char_sextet (sextet_char n) = Some n /\
  Ascii.eqb (sextet_char n) ")" = false.
Proof.
  intros Hn.
  pose proof (proj1 (forallb_forall _ _) sextet_table n) as Hall.
  assert (Hin : In n (N.of_nat <$> seq 0 64)).
  { apply in_map_iff. exists (N.to_nat n). split; [divlia|].
    apply in_seq. lia. }
  specialize (Hall Hin). cbv beta in Hall.
  destruct (char_sextet (sextet_char n)) as [k|]; [|discriminate].
  apply andb_true_iff in Hall as [Hk Hp].
  apply andb_true_iff in Hk as [Hk _].
  apply N.eqb_eq in Hk. subst k. split; [reflexivity|].
  now apply negb_true_iff in Hp.
Qed.

Lemma pad_is_no_sextet : char_sextet pad = None.
Proof. reflexivity. Qed.

Lemma byte_val_lt (c : ascii) : (byte_val c < 256)%N.
Proof. apply N_ascii_bounded. Qed.

Lemma ascii_of_byte_val (n : N) (c : ascii) :
  n = byte_val c -> ascii_of_N n = c.
Proof. intros ->. apply ascii_N_embedding. Qed.

Lemma b64decode_group (c1 c2 c3 c4 : ascii) (rest : string) :
  b64decode (String c1 (String c2 (String c3 (String c4 rest)))) =
  match char_sextet c1, char_sextet c2 with
  | Some s1, Some s2 =>
      match char_sextet c3, char_sextet c4 with
      | Some s3, Some s4 =>
          match b64decode rest with
          | Some tl => Some (dec3 s1 s2 s3 s4 +:+ tl)
          | None => None
          end
      | Some s3, None =>
          if Ascii.eqb c4 pad && String.eqb rest EmptyString
          then Some (dec2 s1 s2 s3) else None
      | None, _ =>
          if Ascii.eqb c3 pad && Ascii.eqb c4 pad && String.eqb rest EmptyString
          then Some (dec1 s1 s2) else None
      end
  | _, _ => None
  end.
Proof. reflexivity. Qed.

Lemma b64encode_group (a b c : ascii) (rest : string) :
  b64encode (String a (String b (String c rest))) =
  String (sextet_char (byte_val a / 4))
    (String (sextet_char (byte_val a mod 4 * 16 + byte_val b / 16))
       (String (sextet_char (byte_val b mod 16 * 4 + byte_val c / 64))
          (String (sextet_char (byte_val c mod 64)) (b64encode rest))))%N.
Proof. reflexivity. Qed.

Lemma dec3_enc (a b c : ascii) :
  dec3 (byte_val a / 4) (byte_val a mod 4 * 16 + byte_val b / 16)
       (byte_val b mod 16 * 4 + byte_val c / 64) (byte_val c mod 64)
  = String a (String b (String c EmptyString)).
Proof.
  pose proof (byte_val_lt a). pose proof (byte_val_lt b). pose proof (byte_val_lt c).
  unfold dec3.
  repeat (f_equal; try (apply ascii_of_byte_val; divlia)).
Qed.

Lemma dec2_enc (a b : ascii) :
  dec2 (byte_val a / 4) (byte_val a mod 4 * 16 + byte_val b / 16)
       (byte_val b mod 16 * 4)
  = String a (String b EmptyString).
Proof.
  pose proof (byte_val_lt a). pose proof (byte_val_lt b).
  unfold dec2.
  repeat (f_equal; try (apply ascii_of_byte_val; divlia)).
Qed.

Lemma dec1_enc (a : ascii) :
  dec1 (byte_val a / 4) (byte_val a mod 4 * 16) = String a EmptyString.
Proof.
  pose proof (byte_val_lt a). unfold dec1.
  repeat (f_equal; try (apply ascii_of_byte_val; divlia)).
Qed.

(** Decoding undoes encoding, for every byte string. *)
Lemma b64_roundtrip (bs : bytes) : b64decode (b64encode bs) = Some bs.
Proof.
  revert bs. fix IH 1. intros [|a [|b [|c rest]]].
  - reflexivity.
  - pose proof (byte_val_lt a).
    change (b64encode (String a EmptyString)) with (enc1 (byte_val a)).
    unfold enc1. rewrite b64decode_group.
    destruct (sextet_roundtrip (byte_val a / 4)) as [-> _]; [divlia|].
    destruct (sextet_roundtrip (byte_val a mod 4 * 16)) as [-> _]; [divlia|].
    rewrite pad_is_no_sextet. cbn.
    now rewrite dec1_enc.
  - pose proof (byte_val_lt a). pose proof (byte_val_lt b).
    change (b64encode (String a (String b EmptyString)))
      with (enc2 (byte_val a) (byte_val b)).
    unfold enc2. rewrite b64decode_group.
    destruct (sextet_roundtrip (byte_val a / 4)) as [-> _]; [divlia|].
    destruct (sextet_roundtrip (byte_val a mod 4 * 16 + byte_val b / 16)) as [-> _]; [divlia|].
    destruct (sextet_roundtrip (byte_val b mod 16 * 4)) as [-> _]; [divlia|].
    rewrite pad_is_no_sextet. cbn.
    now rewrite dec2_enc.
  - pose proof (byte_val_lt a). pose proof (byte_val_lt b). pose proof (byte_val_lt c).
    rewrite b64encode_group, b64decode_group.
    destruct (sextet_roundtrip (byte_val a / 4)) as [-> _]; [divlia|].
    destruct (sextet_roundtrip (byte_val a mod 4 * 16 + byte_val b / 16)) as [-> _]; [divlia|].
    destruct (sextet_roundtrip (byte_val b mod 16 * 4 + byte_val c / 64)) as [-> _]; [divlia|].
    destruct (sextet_roundtrip (byte_val c mod 64)) as [-> _]; [divlia|].
    rewrite (IH rest), dec3_enc. reflexivity.
Qed.

(** The encoding has no closing parenthesis in it. *)
Lemma b64encode_no_paren (bs : bytes) :
  until_char ")" (b64encode bs) = b64encode bs.
Proof.
  revert bs. fix IH 1. intros [|a [|b [|c rest]]].
  - reflexivity.
  - pose proof (byte_val_lt a).
    change (b64encode (String a EmptyString)) with (enc1 (byte_val a)).
    unfold enc1. cbn [until_char].
    destruct (sextet_roundtrip (byte_val a / 4)) as [_ ->]; [divlia|].
    destruct (sextet_roundtrip (byte_val a mod 4 * 16)) as [_ ->]; [divlia|].
    reflexivity.
  - pose proof (byte_val_lt a). pose proof (byte_val_lt b).
    change (b64encode (String a (String b EmptyString)))
      with (enc2 (byte_val a) (byte_val b)).
    unfold enc2. cbn [until_char].
    destruct (sextet_roundtrip (byte_val a / 4)) as [_ ->]; [divlia|].
    destruct (sextet_roundtrip (byte_val a mod 4 * 16 + byte_val b / 16)) as [_ ->]; [divlia|].
    destruct (sextet_roundtrip (byte_val b mod 16 * 4)) as [_ ->]; [divlia|].
    reflexivity.
  - pose proof (byte_val_lt a). pose proof (byte_val_lt b). pose proof (byte_val_lt c).
    rewrite b64encode_group. cbn [until_char].
    destruct (sextet_roundtrip (byte_val a / 4)) as [_ ->]; [divlia|].
    destruct (sextet_roundtrip (byte_val a mod 4 * 16 + byte_val b / 16)) as [_ ->]; [divlia|].
    destruct (sextet_roundtrip (byte_val b mod 16 * 4 + byte_val c / 64)) as [_ ->]; [divlia|].
    destruct (sextet_roundtrip (byte_val c mod 64)) as [_ ->]; [divlia|].
    now rewrite (IH rest).
Qed.

End Base64Facts.

(** ** The renderer *)

Section RenderFacts.
Context `{Pillow}.

Lemma entry_lines_inv (i : nat) (p : string) (im : image) (c : comment) (ls : list str) :
  entry_lines i (p, im, c) = Ok ls ->
  exists jpeg, save_jpeg im = Ok jpeg /\
    ls = [ heading_line i c; image_line (data_url (Base64.b64encode jpeg)); nl ].
Proof.
  unfold entry_lines. destruct (save_jpeg im) as [jpeg|x]; simpl; [|discriminate].
  intros [= <-]. now exists jpeg.
Qed.

(** What the loop adds to [lines]: three items per photo, in order. *)
Lemma render_entries_inv (photos : list (string * image * comment)) :
  forall (i : nat) (lines out : list str),
  render_entries i photos lines = Ok out ->
  exists tail, out = lines ++ tail /\
    length tail = (3 * length photos)%nat /\
    filter (fun l => is_heading l = true) tail
      = imap (fun k entry => heading_line (i + k) entry.2) photos /\
    forall (k : nat) p im c, photos !! k = Some (p, im, c) ->
      exists jpeg, save_jpeg im = Ok jpeg /\
        tail !! (3 * k)%nat = Some (heading_line (i + k) c) /\
        tail !! (3 * k + 1)%nat
          = Some (image_line (data_url (Base64.b64encode jpeg))) /\
        tail !! (3 * k + 2)%nat = Some nl.
Proof.
  induction photos as [|[[p im] c] rest IH]; intros i lines out Hr.
  - simpl in Hr. injection Hr as <-. exists []. rewrite app_nil_r.
    repeat split; try reflexivity. intros k ? ? ? Hk. discriminate.
  - simpl in Hr.
    destruct (save_jpeg im) as [jpeg|x] eqn:Hsave; simpl in Hr; [|discriminate].
    apply IH in Hr as (tail & -> & Hlen & Hfil & Hat).
    exists ([heading_line i c; image_line (data_url (Base64.b64encode jpeg)); nl] ++ tail).
    split; [now rewrite <- app_assoc|].
    split; [simpl; simpl in Hlen; lia|].
    split.
    + cbn [app imap]. rewrite !filter_cons.
      replace (i + 0)%nat with i by lia.
      assert (Hh : is_heading (heading_line i c) = true) by reflexivity.
      assert (Hi : is_heading (image_line (data_url (Base64.b64encode jpeg))) = false)
        by reflexivity.
      assert (Hn : is_heading nl = false) by reflexivity.
      rewrite !decide_True by (exact Hh).
      rewrite (decide_False (P := is_heading (image_line _) = true)) by (rewrite Hi; discriminate).
      rewrite (decide_False (P := is_heading nl = true)) by (rewrite Hn; discriminate).
      simpl. f_equal. rewrite Hfil. apply imap_ext. intros k e _. simpl.
      f_equal. lia.
    + intros [|k] p' im' c' Hk.
      * injection Hk as <- <- <-. exists jpeg. rewrite Nat.add_0_r.
        now repeat split.
      * simpl in Hk. destruct (Hat k p' im' c' Hk) as (jpeg' & Hs & H0 & H1 & H2).
        exists jpeg'. split; [exact Hs|].
        replace (3 * S k)%nat with (S (S (S (3 * k)))) by lia.
        replace (i + S k)%nat with (S i + k)%nat by lia.
        now repeat split.
Qed.

(** The loop returns as soon as every image can be saved. *)
Lemma render_entries_total (photos : list (string * image * comment)) :
  Forall (fun entry => exists jpeg, save_jpeg entry.1.2 = Ok jpeg) photos ->
  forall (i : nat) (lines : list str), exists out, render_entries i photos lines = Ok out.
Proof.
  induction 1 as [|[[p im] c] rest [jpeg Hs] _ IH]; intros i lines.
  - now exists lines.
  - simpl in *. rewrite Hs. simpl. apply IH.
Qed.

Lemma append_cons (ch : ascii) (s t : string) :
  String ch s +:+ t = String ch (s +:+ t).
Proof. reflexivity. Qed.

Lemma append_empty_r (s : string) : s +:+ "" = s.
Proof.
  induction s as [|ch s IH]; [reflexivity|]. now rewrite append_cons, IH.
Qed.

Lemma str_join_front (a b c : str) (tail : list str) :
  str_join nl ([a; b; c] ++ tail) =
  a +:+ nl +:+ b +:+ nl +:+ c +:+
    match tail with
    | [] => ""
    | _ :: _ => nl +:+ str_join nl tail
    end.
Proof.
  destruct tail as [|t tail]; cbn [app str_join]; [|reflexivity].
  now rewrite append_empty_r.
Qed.

End RenderFacts.

Section ReaderFacts.

Lemma strip_prefix_app (pre s : string) : strip_prefix pre (pre +:+ s) = Some s.
Proof.
  induction pre as [|ch pre IH]; [now destruct s|].
  rewrite append_cons. cbn [strip_prefix]. now rewrite Ascii.eqb_refl.
Qed.

Lemma until_char_app (stop : ascii) (s t : string) :
  until_char stop s = s -> until_char stop (s +:+ String stop t) = s.
Proof.
  induction s as [|ch s IH]; intros Hs.
  - change (until_char stop (String stop t) = "").
    cbn [until_char]. now rewrite Ascii.eqb_refl.
  - rewrite append_cons. cbn [until_char] in *.
    destruct (Ascii.eqb ch stop); [discriminate|].
    injection Hs as Hs. now rewrite IH.
Qed.

(** A reader recovers from an image reference the bytes that were encoded. *)
Lemma embedded_bytes_image_line (jpeg : bytes) :
  embedded_bytes (image_line (data_url (Base64.b64encode jpeg))) = Some jpeg.
Proof.
  unfold embedded_bytes, embedded_text, image_line, data_url.
  change ("![](" +:+ ("data:image/jpeg;base64," +:+ Base64.b64encode jpeg) +:+ "){width=90%}")
    with ("![](data:image/jpeg;base64," +:+ (Base64.b64encode jpeg +:+ "){width=90%}")).
  rewrite strip_prefix_app. cbn [fmap option_fmap option_map mbind option_bind].
  rewrite (until_char_app ")" _ "{width=90%}") by apply b64encode_no_paren.
  apply b64_roundtrip.
Qed.

End ReaderFacts.

Section RenderClaims.
Context `{Pillow}.

Lemma render_report_data_inv (rd : ReportData) (out : str) :
  render_report_data rd = Ok out ->
  exists tail,
    out = str_join nl (front_matter rd ++ tail) /\
    length tail = (3 * length (photo_list rd))%nat /\
    filter (fun l => is_heading l = true) tail
      = imap (fun k entry => heading_line k entry.2) (photo_list rd) /\
    forall (k : nat) p im c, photo_list rd !! k = Some (p, im, c) ->
      exists jpeg, save_jpeg im = Ok jpeg /\
        tail !! (3 * k)%nat = Some (heading_line k c) /\
        tail !! (3 * k + 1)%nat
          = Some (image_line (data_url (Base64.b64encode jpeg))) /\
        tail !! (3 * k + 2)%nat = Some nl.
Proof.
  unfold render_report_data. intros Hr.
  destruct (render_entries 0 (photo_list rd) (front_matter rd)) as [lines|x] eqn:Hl;
    simpl in Hr; [|discriminate].
  injection Hr as <-.
  apply render_entries_inv in Hl as (tail & -> & Hlen & Hfil & Hat).
  exists tail. repeat split; assumption.
Qed.

(** With no photos the renderer returns the three front-matter lines. *)
Lemma render_no_photos (rd : ReportData) :
  photo_list rd = [] ->
  render_report_data rd
    = Ok (title_line (property_address rd) +:+ nl
            +:+ author_line (author rd) +:+ nl
            +:+ date_line (strftime_report (effective_date rd))).
Proof. unfold render_report_data. now intros ->. Qed.

End RenderClaims.

(** ** The renderer on the sample report *)

Lemma sample_renders :
  @render_report_data (Toy.pillow true) Toy.sample_report = Ok Toy.sample_markup.
Proof. vm_compute. reflexivity. Defined.

(** ** The photo selector *)

Section SelectorFacts.
Context `{Pillow}.

Lemma extract_comment_inv (im : image) (c : comment) :
  extract_comment im = Ok (Some c) ->
  match default (EBytes "") (getexif im !! tag_id) with
  | EBytes b =>
      Utf8.decode b = Ok b /\ c = CText (remove_char NUL b) /\
      remove_char NUL b <> ""
  | EText s => c = CText s
  | ENum n => c = CNum n
  | ETuple ns => c = CTuple ns
  | EOther shown => c = COther shown
  end.
Proof.
  unfold extract_comment, Utf8.decode.
  destruct (default (EBytes "") (getexif im !! tag_id)) as [b|s|n|ns|shown].
  - destruct (Utf8.valid b); simpl; [|discriminate].
    destruct (String.eqb (remove_char NUL b) "") eqn:He; [discriminate|].
    intros [= <-]. repeat split. now apply String.eqb_neq in He.
  - now intros [= <-].
  - now intros [= <-].
  - now intros [= <-].
  - now intros [= <-].
Qed.

Lemma visit_photo_inv (w : world) (photo_path : string)
  (entry : string * image * comment) :
  visit_photo w photo_path = Ok (Some entry) ->
  exists content im0 im c,
    entry = (photo_path, im, c) /\
    read_file w photo_path = Ok content /\
    im_open content = Ok im0 /\
    shrink_image im0 = Ok im /\
    extract_comment im = Ok (Some c).
Proof.
  unfold visit_photo.
  destruct (read_file w photo_path) as [content|] eqn:Hc; simpl; [|discriminate].
  destruct (im_open content) as [im0|] eqn:Ho; simpl; [|discriminate].
  destruct (shrink_image im0) as [im|] eqn:Hs; simpl; [|discriminate].
  destruct (extract_comment im) as [[c|]|] eqn:He; simpl; try discriminate.
  intros [= <-]. now exists content, im0, im, c.
Qed.

(** Every entry the loop yields comes from a visit of one of the paths. *)
Lemma photos_from_elem (w : world) (paths : list string) :
  forall entries, photos_from w paths = Ok entries ->
  forall entry, entry ∈ entries ->
  exists photo_path, photo_path ∈ paths /\
    visit_photo w photo_path = Ok (Some entry).
Proof.
  induction paths as [|p rest IH]; intros entries Hr entry Hin.
  - injection Hr as <-. inversion Hin.
  - simpl in Hr.
    destruct (visit_photo w p) as [r|] eqn:Hv; simpl in Hr; [|discriminate].
    destruct (photos_from w rest) as [more|] eqn:Hm; simpl in Hr; [|discriminate].
    injection Hr as <-.
    destruct r as [first|].
    + apply elem_of_cons in Hin as [->|Hin].
      * exists p. split; [left|assumption].
      * destruct (IH more eq_refl entry Hin) as (q & Hq & Hvq).
        exists q. split; [now right|assumption].
    + destruct (IH more eq_refl entry Hin) as (q & Hq & Hvq).
      exists q. split; [now right|assumption].
Qed.

(** A visit that raises ends the whole loop. *)
Lemma photos_from_raises (w : world) (paths : list string) (photo_path : string) (x : exn) :
  photo_path ∈ paths -> visit_photo w photo_path = Raise x ->
  exists y, photos_from w paths = Raise y.
Proof.
  induction paths as [|p rest IH]; intros Hin Hv; [inversion Hin|].
  simpl. destruct (visit_photo w p) as [r|y] eqn:Hp; simpl; [|now exists y].
  apply elem_of_cons in Hin as [->|Hin]; [congruence|].
  destruct (IH Hin Hv) as [y ->]. now exists y.
Qed.

(** A stored text value reaches the output as it is, empty or not. *)
Lemma visit_photo_text (w : world) (photo_path : string) content im0 im (s : str) :
  read_file w photo_path = Ok content ->
  im_open content = Ok im0 ->
  shrink_image im0 = Ok im ->
  getexif im !! tag_id = Some (EText s) ->
  visit_photo w photo_path = Ok (Some (photo_path, im, CText s)).
Proof.
  intros Hc Ho Hs He. unfold visit_photo, extract_comment.
  rewrite Hc. simpl. rewrite Ho. simpl. rewrite Hs. simpl. now rewrite He.
Qed.

(** A [bytes] value, or none, is yielded only when text is left of it. *)
Lemma visit_photo_bytes_nonempty (w : world) (photo_path : string) p im c :
  visit_photo w photo_path = Ok (Some (p, im, c)) ->
  (getexif im !! tag_id = None \/ exists b, getexif im !! tag_id = Some (EBytes b)) ->
  exists s, c = CText s /\ s <> "".
Proof.
  intros Hv Hb. apply visit_photo_inv in Hv as (content & im0 & im' & c' & [= -> -> ->] & _ & _ & _ & He).
  apply extract_comment_inv in He.
  destruct Hb as [Hb|[b Hb]]; rewrite Hb in He; simpl in He.
  - destruct He as (_ & _ & Hne). now destruct Hne.
  - destruct He as (_ & -> & Hne). eauto.
Qed.

(** Paths and tuples as [pathlib] and [str] write them. *)
Lemma child_like_pathlib :
  child "photos" "a.jpg" = "photos/a.jpg" /\ child "." "a.jpg" = "a.jpg" /\
  child "/" "tmp" = "/tmp" /\ child ".." "a.jpg" = "../a.jpg".
Proof. repeat split; reflexivity. Qed.

Lemma tuple_as_str :
  format_comment (CTuple [1; 2]) = "(1, 2)" /\
  format_comment (CTuple [7]) = "(7,)" /\
  format_comment (CTuple []) = "()" /\
  format_comment (CTuple [1; -2; 3]) = "(1, -2, 3)".
Proof. repeat split; reflexivity. Qed.

End SelectorFacts.

(** C2: a directory whose second photograph stores the empty text under the
    comment tag: the selector yields three entries, and the second has the
    empty caption. *)
Theorem empty_text_comment_is_yielded :
  rmap captions
    (@get_most_recent_photos (Toy.pillow true)
       (Toy.three_files (Toy.toy_file "T" 4032 3024 "")) "photos")
  = Ok [ ("photos/a.jpg", CText "Cracked tile");
         ("photos/b.jpg", CText "");
         ("photos/c.jpg", CText "Loose railing") ].
Proof. vm_compute. reflexivity. Qed.

Section CaptionFacts.
Context `{Pillow}.

Lemma remove_char_without_nulls (s : string) :
  remove_char NUL s = without_nulls s.
Proof.
  unfold without_nulls. induction s as [|c r IH]; [reflexivity|].
  cbn [remove_char String.list_ascii_of_string]. rewrite filter_cons.
  destruct (Ascii.eqb_spec c NUL) as [->|Hne].
  - rewrite decide_False by (intros Hc; now apply Hc). exact IH.
  - rewrite decide_True by exact Hne.
    cbn [String.string_of_list_ascii]. now rewrite IH.
Qed.

(** What the loop makes of a comment that is [bytes], or is missing. *)
Lemma extract_comment_bytes (im : image) (b : bytes) :
  default (EBytes "") (getexif im !! 40092) = EBytes b ->
  extract_comment im =
    if Utf8.valid b then
      if String.eqb (without_nulls b) "" then Ok None
      else Ok (Some (CText (without_nulls b)))
    else Raise UnicodeDecodeError.
Proof.
  intros Hb. unfold extract_comment. change tag_id with 40092. rewrite Hb.
  unfold Utf8.decode. destruct (Utf8.valid b); [|reflexivity]. cbn [rbind].
  now rewrite remove_char_without_nulls.
Qed.

Lemma visit_photo_chain (w : world) (p : string) (content : bytes) (im0 im : image) :
  read_file w p = Ok content -> im_open content = Ok im0 ->
  shrink_image im0 = Ok im ->
  visit_photo w p
  = let* c := extract_comment im in Ok ((fun c => (p, im, c)) <$> c).
Proof.
  intros Hc Ho Hs. unfold visit_photo. rewrite Hc. cbn [rbind].
  rewrite Ho. cbn [rbind]. now rewrite Hs.
Qed.

(** What a visit yields is among the entries of the loop. *)
Lemma photos_from_yields (w : world) (paths : list string) (p : string)
  (entry : string * image * comment) :
  forall entries, photos_from w paths = Ok entries ->
  p ∈ paths -> visit_photo w p = Ok (Some entry) -> entry ∈ entries.
Proof.
  induction paths as [|q rest IH]; intros entries Hr Hin Hv; [inversion Hin|].
  simpl in Hr.
  destruct (visit_photo w q) as [r|] eqn:Hq; simpl in Hr; [|discriminate].
  destruct (photos_from w rest) as [more|] eqn:Hm; simpl in Hr; [|discriminate].
  injection Hr as <-.
  apply elem_of_cons in Hin as [->|Hin].
  - rewrite Hv in Hq. injection Hq as <-. left.
  - specialize (IH more eq_refl Hin Hv). destruct r; [now right|exact IH].
Qed.

End CaptionFacts.

(** C3, as stated, fails: a comment whose bytes are not UTF-8, here the
    UTF-16 form of an e with acute accent, does not count as empty, which
    would leave the other two photographs selected as they are when the
    second has no comment; the decoding raises and ends the selection. *)
Lemma undecodable_comment_aborts_selection :
  rmap captions
    (@get_most_recent_photos (Toy.pillow true) Toy.sample_world "photos")
  = Ok [ ("photos/a.jpg", CText "Cracked tile");
         ("photos/c.jpg", CText "Loose railing") ] /\
  Utf8.valid (String (ascii_of_nat 233) (String NUL "")) = false /\
  rmap captions
    (@get_most_recent_photos (Toy.pillow true) Scenes.accented_comment "photos")
  = Raise UnicodeDecodeError.
Proof. vm_compute. repeat split; reflexivity. Qed.

(** C3, amended: the comment is read under tag 40092 of the image as
    it is after normalization.  For every listed file that is read, opened
    and normalized, and whose comment is [bytes] or missing (which counts
    as no bytes): bytes that are not UTF-8 make the visit raise a decode
    error and the selection raise; bytes that are nothing but null
    characters, or no bytes, keep the file out of the entries; any other
    bytes give an entry whose caption is their text without the null
    characters.  And every entry comes from such a visit of a listed file:
    if its comment is bytes, they are UTF-8 and the caption is their text
    without null characters, which is not empty, and where normalization
    kept the field this is the text of the original field. *)
Theorem caption_is_decoded_comment `{Pillow} (w : world) (photo_dir : string)
  (paths : list string) :
  iterdir w photo_dir = Ok paths ->
  (forall p content im0 im b,
     p ∈ paths ->
     read_file w p = Ok content -> im_open content = Ok im0 ->
     shrink_image im0 = Ok im ->
     default (EBytes "") (getexif im !! 40092) = EBytes b ->
     (Utf8.valid b = false ->
        visit_photo w p = Raise UnicodeDecodeError /\
        exists x, get_most_recent_photos w photo_dir = Raise x) /\
     (Utf8.valid b = true -> without_nulls b = "" ->
        forall entries, get_most_recent_photos w photo_dir = Ok entries ->
        forall im' c, (p, im', c) ∉ entries) /\
     (Utf8.valid b = true -> without_nulls b <> "" ->
        forall entries, get_most_recent_photos w photo_dir = Ok entries ->
        (p, im, CText (without_nulls b)) ∈ entries)) /\
  (forall entries, get_most_recent_photos w photo_dir = Ok entries ->
   forall p im c, (p, im, c) ∈ entries ->
     p ∈ paths /\
     exists content im0,
       read_file w p = Ok content /\ im_open content = Ok im0 /\
       shrink_image im0 = Ok im /\
       (forall b, default (EBytes "") (getexif im !! 40092) = EBytes b ->
          Utf8.valid b = true /\ c = CText (without_nulls b) /\
          without_nulls b <> "" /\
          ~ In "000"%char (String.list_ascii_of_string (without_nulls b))) /\
       (getexif im !! 40092 = getexif im0 !! 40092 ->
        forall b, default (EBytes "") (getexif im0 !! 40092) = EBytes b ->
          c = CText (without_nulls b))).
Proof.
  intros Hd. unfold get_most_recent_photos. rewrite Hd. cbn [rbind]. split.
  - intros p content im0 im b Hin Hc Ho Hs Hb.
    pose proof (visit_photo_chain w p content im0 im Hc Ho Hs) as Hv.
    rewrite (extract_comment_bytes im b Hb) in Hv.
    split; [|split].
    + intros Hbad. rewrite Hbad in Hv. cbn [rbind] in Hv. split; [exact Hv|].
      exact (photos_from_raises w paths p _ Hin Hv).
    + intros Hok Hempty entries Hr im' c Hin'.
      rewrite Hok, Hempty in Hv. cbn in Hv.
      destruct (photos_from_elem w paths entries Hr _ Hin') as (q & _ & Hq).
      pose proof Hq as Hq'.
      apply visit_photo_inv in Hq' as (? & ? & ? & ? & [= <- _ _] & _).
      congruence.
    + intros Hok Hfull entries Hr.
      rewrite Hok in Hv.
      destruct (String.eqb_spec (without_nulls b) "") as [He|_]; [contradiction|].
      cbn in Hv. exact (photos_from_yields w paths p _ entries Hr Hin Hv).
  - intros entries Hr p im c Hin.
    destruct (photos_from_elem w paths entries Hr _ Hin) as (q & Hq & Hv).
    pose proof Hv as Hv'.
    apply visit_photo_inv in Hv'
      as (content & im0 & im' & c' & [= -> -> ->] & Hc & Ho & Hs & He).
    split; [exact Hq|]. exists content, im0.
    assert (Hbytes : forall b,
              default (EBytes "") (getexif im' !! 40092) = EBytes b ->
              Utf8.valid b = true /\ c' = CText (without_nulls b) /\
              without_nulls b <> "").
    { intros b Hb. rewrite (extract_comment_bytes im' b Hb) in He.
      destruct (Utf8.valid b); [|discriminate].
      destruct (String.eqb_spec (without_nulls b) "") as [|Hne]; [discriminate|].
      injection He as <-. now repeat split. }
    repeat split; try assumption.
    + now apply Hbytes.
    + now apply Hbytes.
    + now apply Hbytes.
    + unfold without_nulls. rewrite String.list_ascii_of_string_of_list_ascii.
      intros Hnul. apply list_elem_of_In, list_elem_of_filter in Hnul as [Hnul _].
      now apply Hnul.
    + intros Hkeep b Hb. rewrite <- Hkeep in Hb. now apply Hbytes.
Qed.

Lemma sample_selection :
  @get_most_recent_photos (Toy.pillow true) Toy.sample_world "photos"
  = Ok Toy.selected.
Proof. vm_compute. reflexivity. Defined.

Lemma caption_is_decoded_comment_witness :
  (forall p content im0 im b,
     p ∈ ["photos/a.jpg"; "photos/b.jpg"; "photos/c.jpg"] ->
     read_file Toy.sample_world p = Ok content ->
     @im_open (Toy.pillow true) content = Ok im0 ->
     @shrink_image (Toy.pillow true) im0 = Ok im ->
     default (EBytes "") (@getexif (Toy.pillow true) im !! 40092) = EBytes b ->
     (Utf8.valid b = false ->
        @visit_photo (Toy.pillow true) Toy.sample_world p
        = Raise UnicodeDecodeError /\
        exists x,
          @get_most_recent_photos (Toy.pillow true) Toy.sample_world "photos"
          = Raise x) /\
     (Utf8.valid b = true -> without_nulls b = "" ->
        forall entries,
          @get_most_recent_photos (Toy.pillow true) Toy.sample_world "photos"
          = Ok entries ->
        forall im' c, (p, im', c) ∉ entries) /\
     (Utf8.valid b = true -> without_nulls b <> "" ->
        forall entries,
          @get_most_recent_photos (Toy.pillow true) Toy.sample_world "photos"
          = Ok entries ->
        (p, im, CText (without_nulls b)) ∈ entries)) /\
  (forall entries,
     @get_most_recent_photos (Toy.pillow true) Toy.sample_world "photos"
     = Ok entries ->
   forall p im c, (p, im, c) ∈ entries ->
     p ∈ ["photos/a.jpg"; "photos/b.jpg"; "photos/c.jpg"] /\
     exists content im0,
       read_file Toy.sample_world p = Ok content /\
       @im_open (Toy.pillow true) content = Ok im0 /\
       @shrink_image (Toy.pillow true) im0 = Ok im /\
       (forall b,
          default (EBytes "") (@getexif (Toy.pillow true) im !! 40092) = EBytes b ->
          Utf8.valid b = true /\ c = CText (without_nulls b) /\
          without_nulls b <> "" /\
          ~ In "000"%char (String.list_ascii_of_string (without_nulls b))) /\
       (@getexif (Toy.pillow true) im !! 40092
        = @getexif (Toy.pillow true) im0 !! 40092 ->
        forall b,
          default (EBytes "") (@getexif (Toy.pillow true) im0 !! 40092) = EBytes b ->
          c = CText (without_nulls b))).
Proof.
  apply (@caption_is_decoded_comment (Toy.pillow true) Toy.sample_world "photos"
           ["photos/a.jpg"; "photos/b.jpg"; "photos/c.jpg"]).
  reflexivity.
Defined.

(** ** The top-level flow *)

Section MainFacts.
Context `{Pillow}.

Lemma open_w_writable (w : world) (path : string) :
  writable w path = true ->
  open_w path w
  = (Ok tt, {| fs := <[path := File ""]> (fs w);
               trace := EvTruncate path :: trace w |}).
Proof.
  unfold writable, open_w. now destruct (fs w !! path) as [[| |]|].
Qed.

(** A run that cannot list the directory stops there. *)
Lemma main_listing_fails (e : env) (a : args) (w : world) (photo_dir : string) (x : exn) :
  arg_photo_path a = Some photo_dir ->
  iterdir w photo_dir = Raise x ->
  main e a w = (Raise x, w).
Proof.
  intros Ha Hd. unfold main, io_bind, io_of, io_read, photo_dir_of, get_most_recent_photos.
  rewrite Ha, Hd. reflexivity.
Qed.

(** A run whose rendering raises stops before any file is touched. *)
Lemma main_render_fails (e : env) (a : args) (w : world) (photo_dir : string)
  (photos : list (string * image * comment)) (x : exn) :
  arg_photo_path a = Some photo_dir ->
  get_most_recent_photos w photo_dir = Ok photos ->
  render_report_data (report_of e a photos) = Raise x ->
  main e a w = (Raise x, w).
Proof.
  intros Ha Hp Hr. unfold main, io_bind, io_of, io_read, photo_dir_of.
  rewrite Ha, Hp. unfold report_of in Hr. now rewrite Hr.
Qed.

Lemma writable_after_markdown (w : world) (markdown_input : str) :
  writable (wrote_markdown w markdown_input) "report.html" = writable w "report.html".
Proof.
  unfold writable, wrote_markdown. cbn [fs].
  now rewrite !lookup_insert_ne by discriminate.
Qed.

Lemma open_w_blocked (w : world) (path : string) :
  writable w path = false -> open_w path w = (Raise IsADirectoryError, w).
Proof.
  unfold writable, open_w. now destruct (fs w !! path) as [[| |]|].
Qed.

(** How a run goes once the photos are selected and rendered. *)
Lemma main_after_render (e : env) (a : args) (w : world) (photo_dir : string)
  (photos : list (string * image * comment)) (markdown_input : str) :
  arg_photo_path a = Some photo_dir ->
  get_most_recent_photos w photo_dir = Ok photos ->
  render_report_data (report_of e a photos) = Ok markdown_input ->
  main e a w =
  if writable w "report.md" then
    if encodes e markdown_input then
      if writable w "report.html" then
        match run_process e pandoc_args markdown_input with
        | Ok html =>
            if encodes e html then (Ok tt, wrote_html w markdown_input html)
            else (Raise UnicodeEncodeError, started_converter w markdown_input)
        | Raise x => (Raise x, started_converter w markdown_input)
        end
      else (Raise IsADirectoryError, wrote_markdown w markdown_input)
    else (Raise UnicodeEncodeError, opened w "report.md")
  else (Raise IsADirectoryError, w).
Proof.
  intros Ha Hp Hr. unfold main, io_bind, io_of, io_read, photo_dir_of.
  rewrite Ha, Hp. unfold report_of in Hr. rewrite Hr.
  destruct (writable w "report.md") eqn:Hmd.
  - rewrite (open_w_writable w "report.md" Hmd). unfold print_close.
    destruct (encodes e markdown_input); [|reflexivity].
    cbn [fs trace].
    change {| fs := <["report.md" := File (markdown_input +:+ nl)]>
                      (<["report.md" := File ""]> (fs w));
              trace := EvWrite "report.md" (markdown_input +:+ nl)
                         :: EvTruncate "report.md" :: trace w |}
      with (wrote_markdown w markdown_input).
    pose proof (writable_after_markdown w markdown_input) as Hw.
    destruct (writable w "report.html") eqn:Hhtml.
    + rewrite (open_w_writable _ "report.html" Hw).
      unfold markdown_to_html, spawn. cbn [fs trace].
      destruct (run_process e pandoc_args markdown_input) as [html|x];
        [|reflexivity].
      now destruct (encodes e html).
    + now rewrite (open_w_blocked _ "report.html" Hw).
  - now rewrite (open_w_blocked w "report.md" Hmd).
Qed.

End MainFacts.

(** C5: when the photo directory does not exist or cannot be read, the run
    ends with an error and the world it leaves is the one it found: no file
    was created, truncated or written, and nothing was started. *)
Theorem main_unlistable_directory `{Pillow} (e : env) (a : args) (w : world)
  (photo_dir : string) :
  arg_photo_path a = Some photo_dir ->
  fs w !! photo_dir = None \/ fs w !! photo_dir = Some LockedDir ->
  exists x, main e a w = (Raise x, w) /\
    fs (main e a w).2 !! "report.md" = fs w !! "report.md" /\
    fs (main e a w).2 !! "report.html" = fs w !! "report.html" /\
    trace (main e a w).2 = trace w.
Proof.
  intros Ha Hd.
  assert (Hx : exists x, iterdir w photo_dir = Raise x).
  { unfold iterdir. destruct Hd as [-> | ->]; eauto. }
  destruct Hx as [x Hx]. exists x.
  rewrite (main_listing_fails e a w photo_dir x Ha Hx). now repeat split.
Qed.

Lemma main_unlistable_directory_witness :
  exists x,
    @main (Toy.pillow true) (Toy.converter true) (Toy.cli "nowhere") Toy.sample_world
      = (Raise x, Toy.sample_world) /\
    fs (@main (Toy.pillow true) (Toy.converter true) (Toy.cli "nowhere")
          Toy.sample_world).2 !! "report.md" = fs Toy.sample_world !! "report.md" /\
    fs (@main (Toy.pillow true) (Toy.converter true) (Toy.cli "nowhere")
          Toy.sample_world).2 !! "report.html" = fs Toy.sample_world !! "report.html" /\
    trace (@main (Toy.pillow true) (Toy.converter true) (Toy.cli "nowhere")
             Toy.sample_world).2 = trace Toy.sample_world.
Proof.
  apply (@main_unlistable_directory (Toy.pillow true) (Toy.converter true)
           (Toy.cli "nowhere") Toy.sample_world "nowhere").
  - reflexivity.
  - left. vm_compute. reflexivity.
Defined.

(** C6: a run renders before it touches a file (a rendering that raises
    leaves the world as it was); a run that renders and can open its two
    files has, when the converter is started, truncated and written
    report.md with the whole markup and truncated report.html, in that
    order, and the only thing it may do afterwards is write report.html; if
    the converter fails, the run fails with its error and report.md holds
    the whole markup.  Where the locale's encoding cannot take the markup
    the run ends at the first [print], with report.md opened and empty, and
    the converter is not started at all. *)
Theorem markup_written_before_conversion `{Pillow} (e : env) (a : args) (w : world)
  (photo_dir : string) (photos : list (string * image * comment)) :
  arg_photo_path a = Some photo_dir ->
  get_most_recent_photos w photo_dir = Ok photos ->
  writable w "report.md" = true ->
  writable w "report.html" = true ->
  match render_report_data (report_of e a photos) with
  | Raise x => main e a w = (Raise x, w)
  | Ok markdown_input =>
      if encodes e markdown_input then
        (exists after,
           trace (main e a w).2
           = after ++ [ EvSpawn pandoc_args markdown_input; EvTruncate "report.html";
                        EvWrite "report.md" (markdown_input +:+ nl);
                        EvTruncate "report.md" ] ++ trace w /\
           (after = [] \/ exists html, after = [EvWrite "report.html" (html +:+ nl)])) /\
        forall x, run_process e pandoc_args markdown_input = Raise x ->
          (main e a w).1 = Raise x /\
          fs (main e a w).2 !! "report.md" = Some (File (markdown_input +:+ nl))
      else
        main e a w = (Raise UnicodeEncodeError, opened w "report.md")
  end.
Proof.
  intros Ha Hp Hmd Hhtml.
  destruct (render_report_data (report_of e a photos)) as [markdown_input|x] eqn:Hr.
  - pose proof (main_after_render e a w photo_dir photos markdown_input
                  Ha Hp Hr) as Hm.
    rewrite Hmd, Hhtml in Hm.
    destruct (encodes e markdown_input); [|exact Hm]. split.
    + destruct (run_process e pandoc_args markdown_input) as [html|x].
      * destruct (encodes e html); rewrite Hm; cbn [snd trace wrote_html];
          [exists [EvWrite "report.html" (html +:+ nl)]|exists []];
          (split; [reflexivity|eauto]).
      * rewrite Hm. exists []. split; [reflexivity|now left].
    + intros x Hx. rewrite Hx in Hm. rewrite Hm.
      cbn [fst snd fs started_converter wrote_markdown]. split; [reflexivity|].
      rewrite lookup_insert_ne by discriminate. apply lookup_insert_eq.
  - now apply (main_render_fails e a w photo_dir photos x).
Qed.

(** C9: a run that renders and can open its two files, and whose converter
    fails, ends with the converter's error; report.html was truncated
    before the converter was started and is left empty, next to report.md
    with the whole markup.  This is so whenever the converter is started,
    which it is unless the first [print] raises because the locale's
    encoding cannot take the markup. *)
Theorem html_left_empty_when_conversion_fails `{Pillow} (e : env) (a : args)
  (w : world) (photo_dir : string) (photos : list (string * image * comment))
  (markdown_input : str) (x : exn) :
  arg_photo_path a = Some photo_dir ->
  get_most_recent_photos w photo_dir = Ok photos ->
  render_report_data (report_of e a photos) = Ok markdown_input ->
  writable w "report.md" = true ->
  writable w "report.html" = true ->
  run_process e pandoc_args markdown_input = Raise x ->
  if encodes e markdown_input then
    (main e a w).1 = Raise x /\
    fs (main e a w).2 !! "report.html" = Some (File "") /\
    fs (main e a w).2 !! "report.md" = Some (File (markdown_input +:+ nl)) /\
    trace (main e a w).2
    = [ EvSpawn pandoc_args markdown_input; EvTruncate "report.html";
        EvWrite "report.md" (markdown_input +:+ nl); EvTruncate "report.md" ]
        ++ trace w
  else
    main e a w = (Raise UnicodeEncodeError, opened w "report.md").
Proof.
  intros Ha Hp Hr Hmd Hhtml Hx.
  pose proof (main_after_render e a w photo_dir photos markdown_input
                Ha Hp Hr) as Hm.
  rewrite Hmd, Hhtml, Hx in Hm.
  destruct (encodes e markdown_input); [|exact Hm].
  rewrite Hm. cbn [fst snd fs trace started_converter wrote_markdown].
  split; [reflexivity|]. split; [apply lookup_insert_eq|]. split; [|reflexivity].
  rewrite lookup_insert_ne by discriminate. apply lookup_insert_eq.
Qed.

Lemma selection_renders :
  @render_report_data (Toy.pillow true)
     (report_of (Toy.converter false) (Toy.cli "photos") Toy.selected)
  = Ok Toy.selected_markup.
Proof. vm_compute. reflexivity. Defined.

Lemma markup_written_before_conversion_witness :
  match @render_report_data (Toy.pillow true)
          (report_of (Toy.converter false) (Toy.cli "photos") Toy.selected) with
  | Raise x =>
      @main (Toy.pillow true) (Toy.converter false) (Toy.cli "photos") Toy.sample_world
      = (Raise x, Toy.sample_world)
  | Ok markdown_input =>
      (exists after,
         trace (@main (Toy.pillow true) (Toy.converter false) (Toy.cli "photos")
                  Toy.sample_world).2
         = after ++ [ EvSpawn pandoc_args markdown_input; EvTruncate "report.html";
                      EvWrite "report.md" (markdown_input +:+ nl);
                      EvTruncate "report.md" ] ++ trace Toy.sample_world /\
         (after = [] \/ exists html, after = [EvWrite "report.html" (html +:+ nl)])) /\
      forall x,
        run_process (Toy.converter false) pandoc_args markdown_input = Raise x ->
        (@main (Toy.pillow true) (Toy.converter false) (Toy.cli "photos")
           Toy.sample_world).1 = Raise x /\
        fs (@main (Toy.pillow true) (Toy.converter false) (Toy.cli "photos")
              Toy.sample_world).2 !! "report.md"
        = Some (File (markdown_input +:+ nl))
  end.
Proof.
  apply (@markup_written_before_conversion (Toy.pillow true) (Toy.converter false)
           (Toy.cli "photos") Toy.sample_world "photos" Toy.selected).
  - reflexivity.
  - exact sample_selection.
  - vm_compute. reflexivity.
  - vm_compute. reflexivity.
Defined.

Lemma html_left_empty_when_conversion_fails_witness :
  (@main (Toy.pillow true) (Toy.converter false) (Toy.cli "photos")
     Toy.sample_world).1 = Raise CalledProcessError /\
  fs (@main (Toy.pillow true) (Toy.converter false) (Toy.cli "photos")
        Toy.sample_world).2 !! "report.html" = Some (File "") /\
  fs (@main (Toy.pillow true) (Toy.converter false) (Toy.cli "photos")
        Toy.sample_world).2 !! "report.md"
  = Some (File (Toy.selected_markup +:+ nl)) /\
  trace (@main (Toy.pillow true) (Toy.converter false) (Toy.cli "photos")
           Toy.sample_world).2
  = [ EvSpawn pandoc_args Toy.selected_markup; EvTruncate "report.html";
      EvWrite "report.md" (Toy.selected_markup +:+ nl); EvTruncate "report.md" ]
      ++ trace Toy.sample_world.
Proof.
  apply (@html_left_empty_when_conversion_fails (Toy.pillow true)
           (Toy.converter false) (Toy.cli "photos") Toy.sample_world "photos"
           Toy.selected Toy.selected_markup CalledProcessError).
  - reflexivity.
  - exact sample_selection.
  - exact selection_renders.
  - vm_compute. reflexivity.
  - vm_compute. reflexivity.
  - reflexivity.
Defined.

(** ** The renderer and the objects it is given *)

Section StoreFacts.
Context `{Pillow}.
Import Store.

Lemma frame_refl (l : loc) (h : heap) : frame l h h.
Proof. now intros l' o _ Hl. Qed.

Lemma frame_trans (l : loc) (h1 h2 h3 : heap) :
  frame l h1 h2 -> frame l h2 h3 -> frame l h1 h3.
Proof. intros H12 H23 l' o Hne Hl. eauto. Qed.

Lemma fresh_not_allocated (h : heap) : h !! fresh (dom h) = None.
Proof. apply not_elem_of_dom_1, is_fresh. Qed.

Lemma frame_alloc (l : loc) (o : obj) (h : heap) :
  frame l h (<[fresh (dom h) := o]> h).
Proof.
  intros l' o' _ Hl. rewrite lookup_insert_ne; [exact Hl|].
  intros <-. rewrite fresh_not_allocated in Hl. discriminate.
Qed.

Lemma frame_store (l : loc) (o : obj) (h : heap) : frame l h (<[l := o]> h).
Proof. intros l' o' Hne Hl. now rewrite lookup_insert_ne. Qed.

Lemma append_spec (lines : loc) (x : str) (ls : list str) (h : heap) :
  h !! lines = Some (OLines ls) ->
  append lines x h = (Ok tt, <[lines := OLines (ls ++ [x])]> h).
Proof. intros Hl. unfold append, st_bind, load, store. now rewrite Hl. Qed.

(** One turn of the loop: the same three lines as [entry_lines], added to
    the list at [lines]; nothing else that existed is changed. *)
Lemma render_entry_st_spec (lines : loc) (i : nat)
  (entry : string * image * comment) (ls : list str) (h : heap) :
  h !! lines = Some (OLines ls) ->
  exists h', frame lines h h' /\
    match entry_lines i entry with
    | Ok new =>
        render_entry_st lines i entry h = (Ok tt, h') /\
        h' !! lines = Some (OLines (ls ++ new))
    | Raise x =>
        render_entry_st lines i entry h = (Raise x, h')
    end.
Proof.
  intros Hl. destruct entry as [[p im] c].
  unfold entry_lines.
  cbv [render_entry_st st_bind alloc save getvalue load store st_of].
  set (buffer := fresh (dom h)).
  assert (Hne : buffer <> lines).
  { intros Heq. pose proof (fresh_not_allocated h) as Hf.
    fold buffer in Hf. rewrite Heq, Hl in Hf. discriminate. }
  destruct (save_jpeg im) as [data|x]; cbn [rbind].
  - rewrite lookup_insert_eq. cbv beta iota.
    set (h2 := <[buffer := OBytesIO data]> (<[buffer := OBytesIO ""]> h)).
    assert (Hl2 : h2 !! lines = Some (OLines ls)).
    { unfold h2. now rewrite !lookup_insert_ne by exact Hne. }
    rewrite (append_spec lines _ ls h2 Hl2). cbv beta iota.
    rewrite (append_spec lines _ (ls ++ [heading_line i c])) by apply lookup_insert_eq.
    cbv beta iota.
    rewrite (append_spec lines _ ((ls ++ [heading_line i c]) ++ [_]))
      by apply lookup_insert_eq.
    eexists. split; [|split; [reflexivity|]].
    + intros l' o Hne' Hl'. rewrite !lookup_insert_ne by congruence.
      unfold h2. rewrite !lookup_insert_ne; [exact Hl'| |];
        intros <-; pose proof (fresh_not_allocated h) as Hf; fold buffer in Hf;
        congruence.
    + rewrite lookup_insert_eq. now rewrite <- !app_assoc.
  - eexists. split; [|reflexivity]. apply frame_alloc.
Qed.

Lemma render_entries_st_spec (lines : loc)
  (photos : list (string * image * comment)) :
  forall (i : nat) (ls : list str) (h : heap),
  h !! lines = Some (OLines ls) ->
  exists h', frame lines h h' /\
    match render_entries i photos ls with
    | Ok out =>
        render_entries_st lines i photos h = (Ok tt, h') /\
        h' !! lines = Some (OLines out)
    | Raise x => render_entries_st lines i photos h = (Raise x, h')
    end.
Proof.
  induction photos as [|entry rest IH]; intros i ls h Hl.
  - exists h. split; [apply frame_refl|]. now split.
  - cbn [render_entries render_entries_st]. unfold st_bind.
    destruct (render_entry_st_spec lines i entry ls h Hl) as (h1 & Hf1 & H1).
    destruct (entry_lines i entry) as [new|x]; cbn [rbind].
    + destruct H1 as [-> Hl1].
      destruct (IH (S i) (ls ++ new) h1 Hl1) as (h2 & Hf2 & H2).
      exists h2. split; [now apply (frame_trans lines h h1 h2)|exact H2].
    + rewrite H1. now exists h1.
Qed.

Lemma render_report_data_st_spec (h : heap) (report_data : loc) (rd : ReportData) :
  report_at h report_data = Some rd ->
  (render_report_data_st report_data h).1 = render_report_data rd /\
  forall l o, h !! l = Some o -> (render_report_data_st report_data h).2 !! l = Some o.
Proof.
  unfold report_at, render_report_data_st, render_report_data, st_bind, load, alloc, st_of.
  destruct (h !! report_data) as [[d address auth photos| | |]|]; try discriminate.
  destruct (h !! photos) as [[|items| |]|]; try discriminate.
  intros [= <-]. cbn [photo_list front_matter effective_date property_address author].
  set (lines := fresh (dom h)).
  set (front := [title_line address; author_line auth; date_line (strftime_report d)]).
  set (h1 := <[lines := OLines front]> h).
  assert (Hl1 : h1 !! lines = Some (OLines front)) by apply lookup_insert_eq.
  destruct (render_entries_st_spec lines items 0 front h1 Hl1) as (h2 & Hf & H2).
  assert (Hkeep : forall l o, h !! l = Some o -> h2 !! l = Some o).
  { intros l o Hl. apply Hf.
    - intros ->. pose proof (fresh_not_allocated h) as Hn. fold lines in Hn. congruence.
    - unfold h1. rewrite lookup_insert_ne; [exact Hl|].
      intros <-. pose proof (fresh_not_allocated h) as Hn. fold lines in Hn. congruence. }
  change (front_matter _) with front.
  destruct (render_entries 0 items front) as [out|x]; cbn [rbind].
  - destruct H2 as [-> Hl2]. rewrite Hl2. now split.
  - rewrite H2. now split.
Qed.

End StoreFacts.

(** C10: the renderer's result is a function of the [ReportData] value
    alone, so runs on equal values, in whatever stores, return the same
    result, and so does a second run in the store the first one left; every
    object that existed before a run is the same after it, and the report
    the run was given still reads as the same value. *)
Theorem render_is_pure `{Pillow} (h1 h2 : Store.heap) (l1 l2 : Store.loc)
  (rd : ReportData) :
  Store.report_at h1 l1 = Some rd ->
  Store.report_at h2 l2 = Some rd ->
  (Store.render_report_data_st l1 h1).1 = render_report_data rd /\
  (Store.render_report_data_st l1 h1).1 = (Store.render_report_data_st l2 h2).1 /\
  (Store.render_report_data_st l1 (Store.render_report_data_st l1 h1).2).1
    = (Store.render_report_data_st l1 h1).1 /\
  (forall l o, h1 !! l = Some o ->
     (Store.render_report_data_st l1 h1).2 !! l = Some o) /\
  Store.report_at (Store.render_report_data_st l1 h1).2 l1 = Some rd.
Proof.
  intros Hr1 Hr2.
  destruct (render_report_data_st_spec h1 l1 rd Hr1) as [Hv1 Hk1].
  destruct (render_report_data_st_spec h2 l2 rd Hr2) as [Hv2 _].
  assert (Hr1' : Store.report_at (Store.render_report_data_st l1 h1).2 l1 = Some rd).
  { unfold Store.report_at in *.
    destruct (h1 !! l1) as [[d address auth photos| | |]|] eqn:Hl; try discriminate.
    rewrite (Hk1 _ _ Hl).
    destruct (h1 !! photos) as [[|items| |]|] eqn:Hp; try discriminate.
    now rewrite (Hk1 _ _ Hp). }
  destruct (render_report_data_st_spec _ l1 rd Hr1') as [Hv3 _].
  repeat split; try assumption; congruence.
Qed.

Lemma render_is_pure_witness :
  (@Store.render_report_data_st (Toy.pillow true) 1%positive Toy.sample_heap).1
    = @render_report_data (Toy.pillow true) Toy.sample_report /\
  (@Store.render_report_data_st (Toy.pillow true) 1%positive Toy.sample_heap).1
    = (@Store.render_report_data_st (Toy.pillow true) 1%positive Toy.sample_heap).1 /\
  (@Store.render_report_data_st (Toy.pillow true) 1%positive
     (@Store.render_report_data_st (Toy.pillow true) 1%positive Toy.sample_heap).2).1
    = (@Store.render_report_data_st (Toy.pillow true) 1%positive Toy.sample_heap).1 /\
  (forall l o, Toy.sample_heap !! l = Some o ->
     (@Store.render_report_data_st (Toy.pillow true) 1%positive Toy.sample_heap).2 !! l
     = Some o) /\
  @Store.report_at (Toy.pillow true)
    (@Store.render_report_data_st (Toy.pillow true) 1%positive Toy.sample_heap).2
    1%positive = Some Toy.sample_report.
Proof.
  apply (@render_is_pure (Toy.pillow true) Toy.sample_heap Toy.sample_heap
           1%positive 1%positive Toy.sample_report); reflexivity.
Defined.

(** * Further properties *)

(** ** The photo selector, further *)

Section SelectorMore.
Context `{Pillow}.

Lemma photos_from_spec (w : world) (paths : list string) :
  forall entries,
  photos_from w paths = Ok entries <->
  exists rs, Forall2 (fun p r => visit_photo w p = Ok r) paths rs /\
             entries = omap id rs.
Proof.
  induction paths as [|p rest IH]; intros entries; simpl.
  - split.
    + intros [= <-]. exists []. split; [constructor|reflexivity].
    + intros (rs & Hf & ->). inversion Hf; subst. reflexivity.
  - split.
    + destruct (visit_photo w p) as [r|] eqn:Hv; simpl; [|discriminate].
      destruct (photos_from w rest) as [more|] eqn:Hm; simpl; [|discriminate].
      intros [= <-]. destruct (proj1 (IH more) eq_refl) as (rs & Hf & ->).
      exists (r :: rs). split; [now constructor|]. now destruct r.
    + intros (rs & Hf & ->). inversion Hf as [|? r ? rs' Hv Hrest]; subst.
      rewrite Hv. simpl.
      rewrite (proj2 (IH (omap id rs')) (ex_intro _ rs' (conj Hrest eq_refl))).
      simpl. now destruct r.
Qed.

Lemma visit_photo_path (w : world) (p : string) (entry : string * image * comment) :
  visit_photo w p = Ok (Some entry) -> entry.1.1 = p.
Proof.
  intros Hv. apply visit_photo_inv in Hv as (? & ? & ? & ? & -> & _). reflexivity.
Qed.

Lemma photos_from_sublist (w : world) (paths : list string) :
  forall entries, photos_from w paths = Ok entries ->
  (fun entry => entry.1.1) <$> entries `sublist_of` paths.
Proof.
  induction paths as [|p rest IH]; intros entries Hr; simpl in Hr.
  - injection Hr as <-. constructor.
  - destruct (visit_photo w p) as [r|] eqn:Hv; simpl in Hr; [|discriminate].
    destruct (photos_from w rest) as [more|] eqn:Hm; simpl in Hr; [|discriminate].
    injection Hr as <-. specialize (IH more eq_refl).
    destruct r as [entry|].
    + rewrite fmap_cons, (visit_photo_path w p entry Hv). now constructor.
    + now constructor.
Qed.

Lemma photos_from_first_failure (w : world) (before after : list string)
  (p : string) (x : exn) :
  Forall (fun q => exists r, visit_photo w q = Ok r) before ->
  visit_photo w p = Raise x ->
  photos_from w (before ++ p :: after) = Raise x.
Proof.
  induction 1 as [|q before [r Hq] _ IH]; intros Hp; simpl.
  - now rewrite Hp.
  - rewrite Hq. simpl. now rewrite (IH Hp).
Qed.

End SelectorMore.

(** X1: the selector returns a list exactly when the directory can be
    listed and every file in it can be visited; the list is then made of
    the entries of the visits that yield one, in the order of the listing,
    the others being left out without a trace. *)
Theorem selection_is_filter_in_order `{Pillow} (w : world) (photo_dir : string)
  (entries : list (string * image * comment)) :
  get_most_recent_photos w photo_dir = Ok entries <->
  exists paths rs,
    iterdir w photo_dir = Ok paths /\
    Forall2 (fun p r => visit_photo w p = Ok r) paths rs /\
    entries = omap id rs.
Proof.
  unfold get_most_recent_photos. split.
  - destruct (iterdir w photo_dir) as [paths|] eqn:Hd; simpl; [|discriminate].
    intros Hr. apply photos_from_spec in Hr as (rs & Hf & ->). now exists paths, rs.
  - intros (paths & rs & -> & Hf & ->). simpl. apply photos_from_spec. now exists rs.
Qed.

(** X2: the paths of the entries the selector returns are files of the
    directory, each at most once and in the order of the listing, so there
    are never more entries than files. *)
Theorem selection_keeps_directory_order `{Pillow} (w : world) (photo_dir : string)
  (paths : list string) (entries : list (string * image * comment)) :
  iterdir w photo_dir = Ok paths ->
  get_most_recent_photos w photo_dir = Ok entries ->
  (fun entry => entry.1.1) <$> entries `sublist_of` paths /\
  (length entries <= length paths)%nat.
Proof.
  unfold get_most_recent_photos. intros -> Hr. simpl in Hr.
  pose proof (photos_from_sublist w paths entries Hr) as Hs.
  split; [exact Hs|]. apply sublist_length in Hs. now rewrite length_fmap in Hs.
Qed.

Lemma selection_keeps_directory_order_witness :
  (fun entry => entry.1.1) <$> Toy.selected
    `sublist_of` ["photos/a.jpg"; "photos/b.jpg"; "photos/c.jpg"] /\
  (length Toy.selected <= length ["photos/a.jpg"; "photos/b.jpg"; "photos/c.jpg"])%nat.
Proof.
  apply (@selection_keeps_directory_order (Toy.pillow true) Toy.sample_world "photos").
  - reflexivity.
  - exact sample_selection.
Defined.

(** X3: the selector stops at the first file, in the order of the listing,
    whose visit raises, and raises that error: the files after it are not
    looked at and nothing of the files before it is returned. *)
Theorem first_failure_aborts_selection `{Pillow} (w : world) (photo_dir : string)
  (before after : list string) (p : string) (x : exn) :
  iterdir w photo_dir = Ok (before ++ p :: after) ->
  Forall (fun q => exists r, visit_photo w q = Ok r) before ->
  visit_photo w p = Raise x ->
  get_most_recent_photos w photo_dir = Raise x.
Proof.
  unfold get_most_recent_photos. intros -> Hb Hp. simpl.
  now apply photos_from_first_failure.
Qed.

Lemma first_failure_aborts_selection_witness :
  @get_most_recent_photos (Toy.pillow true) Scenes.with_notes "photos"
  = Raise UnidentifiedImageError.
Proof.
  apply (@first_failure_aborts_selection (Toy.pillow true) Scenes.with_notes "photos"
           ["photos/a.jpg"] ["photos/c.jpg"] "photos/b.jpg").
  - reflexivity.
  - constructor; [|constructor]. eexists. vm_compute. reflexivity.
  - vm_compute. reflexivity.
Defined.

(** ** The comment of one image *)

Section CommentFacts.
Context `{Pillow}.

Lemma utf16le_ascii_valid (s : string) :
  ascii_text s = true -> Utf8.valid (utf16le_ascii s) = true.
Proof.
  induction s as [|c r IH]; [reflexivity|]. cbn [ascii_text utf16le_ascii].
  intros Hs. apply andb_true_iff in Hs as [Hc Hr].
  apply andb_true_iff in Hc as [_ Hc].
  cbn [Utf8.valid]. rewrite Hc.
  replace (byte_val NUL <? 128)%N with true by reflexivity.
  now apply IH.
Qed.

Lemma utf16le_ascii_strip (s : string) :
  ascii_text s = true -> remove_char NUL (utf16le_ascii s) = s.
Proof.
  induction s as [|c r IH]; [reflexivity|]. cbn [ascii_text utf16le_ascii].
  intros Hs. apply andb_true_iff in Hs as [Hc Hr].
  apply andb_true_iff in Hc as [Hc _].
  cbn [remove_char]. rewrite Ascii.eqb_refl.
  destruct (Ascii.eqb_spec c NUL) as [->|_]; [discriminate Hc|].
  now rewrite IH.
Qed.

Lemma remove_char_removes (old : ascii) (s : string) :
  ~ In old (String.list_ascii_of_string (remove_char old s)).
Proof.
  induction s as [|c r IH]; [now intros []|]. cbn [remove_char].
  destruct (Ascii.eqb_spec c old) as [->|Hne]; [exact IH|].
  cbn [String.list_ascii_of_string]. intros [Heq|Hin]; [now apply Hne|now apply IH].
Qed.

End CommentFacts.

(** X4: a comment stored as Windows stores it, in UTF-16 with a null byte
    after every character, is read as the text itself when the text is
    plain 7-bit text and not empty. *)
Theorem windows_comment_is_read `{Pillow} (im : image) (s : str) :
  ascii_text s = true -> s <> "" ->
  getexif im !! tag_id = Some (EBytes (utf16le_ascii s)) ->
  extract_comment im = Ok (Some (CText s)).
Proof.
  intros Hs Hne He. unfold extract_comment, Utf8.decode. rewrite He. simpl.
  rewrite utf16le_ascii_valid by exact Hs. simpl.
  rewrite utf16le_ascii_strip by exact Hs.
  destruct (String.eqb_spec s ""); [contradiction|reflexivity].
Qed.

Lemma windows_comment_is_read_witness :
  @extract_comment (Toy.pillow true) Scenes.windows_photo
  = Ok (Some (CText "Cracked tile")).
Proof.
  apply (@windows_comment_is_read (Toy.pillow true) Scenes.windows_photo "Cracked tile").
  - reflexivity.
  - discriminate.
  - reflexivity.
Defined.

(** X5: what becomes of a comment that is [bytes], or is missing and so
    counts as empty [bytes]: bytes that are not UTF-8 raise; bytes with
    nothing but null characters in them make the image be skipped; and
    otherwise the caption is text that is not empty and has no null
    character in it. *)
Theorem bytes_comment_cases `{Pillow} (im : image) (b : bytes) :
  default (EBytes "") (getexif im !! tag_id) = EBytes b ->
  (Utf8.valid b = false -> extract_comment im = Raise UnicodeDecodeError) /\
  (Utf8.valid b = true -> remove_char NUL b = "" -> extract_comment im = Ok None) /\
  (forall c, extract_comment im = Ok (Some c) ->
     exists s, c = CText s /\ s <> "" /\ ~ In NUL (String.list_ascii_of_string s)).
Proof.
  intros Hb. unfold extract_comment, Utf8.decode. rewrite Hb.
  split; [|split].
  - now intros ->.
  - intros -> Hr. simpl. now rewrite Hr.
  - intros c. destruct (Utf8.valid b); simpl; [|discriminate].
    destruct (String.eqb_spec (remove_char NUL b) "") as [|Hne]; [discriminate|].
    intros [= <-]. exists (remove_char NUL b).
    split; [reflexivity|]. split; [exact Hne|apply remove_char_removes].
Qed.

Lemma bytes_comment_cases_witness :
  (Utf8.valid (utf16le_ascii "Cracked tile") = false ->
     @extract_comment (Toy.pillow true) Scenes.windows_photo = Raise UnicodeDecodeError) /\
  (Utf8.valid (utf16le_ascii "Cracked tile") = true ->
     remove_char NUL (utf16le_ascii "Cracked tile") = "" ->
     @extract_comment (Toy.pillow true) Scenes.windows_photo = Ok None) /\
  (forall c, @extract_comment (Toy.pillow true) Scenes.windows_photo = Ok (Some c) ->
     exists s, c = CText s /\ s <> "" /\ ~ In NUL (String.list_ascii_of_string s)).
Proof.
  apply (@bytes_comment_cases (Toy.pillow true) Scenes.windows_photo
           (utf16le_ascii "Cracked tile")).
  reflexivity.
Defined.

(** ** The renderer, further *)

Section RenderMore.
Context `{Pillow}.

Lemma render_entries_ext (photos photos' : list (string * image * comment)) :
  Forall2 (fun entry entry' => rendered_part entry = rendered_part entry')
    photos photos' ->
  forall (i : nat) (lines : list str),
  render_entries i photos lines = render_entries i photos' lines.
Proof.
  induction 1 as [|[[p im] c] [[p' im'] c'] rest rest' Hpart _ IH]; intros i lines.
  - reflexivity.
  - unfold rendered_part in Hpart. simpl in Hpart. injection Hpart as Hs <-.
    cbn [render_entries entry_lines]. rewrite Hs.
    destruct (save_jpeg im') as [jpeg|x]; simpl; [apply IH|reflexivity].
Qed.

Lemma render_entries_raises (photos : list (string * image * comment)) (x : exn) :
  forall (k : nat) (lines : list str),
  render_entries k photos lines = Raise x <->
  exists (i : nat) p im c,
    photos !! i = Some (p, im, c) /\ save_jpeg im = Raise x /\
    forall (j : nat) entry, (j < i)%nat -> photos !! j = Some entry ->
      exists jpeg, save_jpeg entry.1.2 = Ok jpeg.
Proof.
  induction photos as [|[[p im] c] rest IH]; intros k lines.
  - split; [discriminate|]. intros (i & ? & ? & ? & Hi & _). discriminate.
  - cbn [render_entries entry_lines].
    destruct (save_jpeg im) as [jpeg|y] eqn:Hs; cbn [rbind].
    + rewrite IH. split.
      * intros (i & p' & im' & c' & Hi & Hx & Hbefore).
        exists (S i), p', im', c'. split; [exact Hi|]. split; [exact Hx|].
        intros [|j] entry Hj Hl.
        -- injection Hl as <-. now exists jpeg.
        -- apply (Hbefore j); [lia|exact Hl].
      * intros ([|i] & p' & im' & c' & Hi & Hx & Hbefore).
        -- injection Hi as <- <- <-. congruence.
        -- exists i, p', im', c'. split; [exact Hi|]. split; [exact Hx|].
           intros j entry Hj Hl. apply (Hbefore (S j)); [lia|exact Hl].
    + split.
      * intros [= <-]. exists 0%nat, p, im, c.
        split; [reflexivity|]. split; [exact Hs|]. intros j entry Hj. lia.
      * intros ([|i] & p' & im' & c' & Hi & Hx & Hbefore).
        -- injection Hi as <- <- <-. congruence.
        -- destruct (Hbefore 0%nat (p, im, c)) as [jpeg Hj]; [lia|reflexivity|].
           simpl in Hj. congruence.
Qed.

Lemma render_entries_app (photos more : list (string * image * comment)) :
  forall (i : nat) (lines : list str),
  render_entries i (photos ++ more) lines
  = let* ls := render_entries i photos lines in
    render_entries (i + length photos) more ls.
Proof.
  induction photos as [|entry rest IH]; intros i lines.
  - cbn [app render_entries rbind length]. now rewrite Nat.add_0_r.
  - cbn [app render_entries length].
    destruct (entry_lines i entry) as [ls|x]; cbn [rbind]; [|reflexivity].
    rewrite IH. now replace (S i + length rest)%nat with (i + S (length rest))%nat by lia.
Qed.

Lemma append_assoc (a b c : string) : (a +:+ b) +:+ c = a +:+ (b +:+ c).
Proof.
  induction a as [|ch a IH]; [reflexivity|]. now rewrite !append_cons, IH.
Qed.

Lemma str_join_snoc3 (lines : list str) (a b c : str) :
  lines <> [] ->
  str_join nl (lines ++ [a; b; c])
  = str_join nl lines +:+ nl +:+ a +:+ nl +:+ b +:+ nl +:+ c.
Proof.
  induction lines as [|l rest IH]; [congruence|]. intros _.
  destruct rest as [|l' rest'].
  - reflexivity.
  - change (str_join nl ((l :: l' :: rest') ++ [a; b; c]))
      with (l +:+ nl +:+ str_join nl ((l' :: rest') ++ [a; b; c])).
    rewrite IH by discriminate.
    change (str_join nl (l :: l' :: rest'))
      with (l +:+ nl +:+ str_join nl (l' :: rest')).
    now rewrite !append_assoc.
Qed.

Lemma render_entries_nonempty (photos : list (string * image * comment)) :
  forall (i : nat) (lines out : list str),
  render_entries i photos lines = Ok out -> lines <> [] -> out <> [].
Proof.
  intros i lines out Hr Hne. apply render_entries_inv in Hr as (tail & -> & _).
  destruct lines; [congruence|discriminate].
Qed.

End RenderMore.

(** X6: the renderer reads of a photo only the JPEG bytes of its image and
    its caption: two reports with the same date, address and author whose
    photos agree on these, one by one, render alike, whatever the paths and
    whatever else the images hold. *)
Theorem render_reads_bytes_and_captions `{Pillow} (rd rd' : ReportData) :
  effective_date rd = effective_date rd' ->
  property_address rd = property_address rd' ->
  author rd = author rd' ->
  Forall2 (fun entry entry' => rendered_part entry = rendered_part entry')
    (photo_list rd) (photo_list rd') ->
  render_report_data rd = render_report_data rd'.
Proof.
  intros Hd Ha Hau Hp. unfold render_report_data, front_matter.
  rewrite Hd, Ha, Hau. now rewrite (render_entries_ext _ _ Hp).
Qed.

Lemma render_reads_bytes_and_captions_witness :
  @render_report_data (Toy.pillow true) Toy.sample_report
  = @render_report_data (Toy.pillow true) Scenes.renamed_report.
Proof.
  apply (@render_reads_bytes_and_captions (Toy.pillow true)); try reflexivity.
  repeat constructor.
Defined.

(** X7: the renderer raises exactly when an image of the report cannot be
    saved as JPEG, and then with the error of the first such image in the
    order of the list. *)
Theorem render_fails_with_first_unsaved_image `{Pillow} (rd : ReportData) (x : exn) :
  render_report_data rd = Raise x <->
  exists (i : nat) p im c,
    photo_list rd !! i = Some (p, im, c) /\ save_jpeg im = Raise x /\
    forall (j : nat) entry, (j < i)%nat -> photo_list rd !! j = Some entry ->
      exists jpeg, save_jpeg entry.1.2 = Ok jpeg.
Proof.
  rewrite <- (render_entries_raises (photo_list rd) x 0 (front_matter rd)).
  unfold render_report_data.
  destruct (render_entries 0 (photo_list rd) (front_matter rd)); simpl;
    split; intros Hx; try discriminate; injection Hx as ->; reflexivity.
Qed.

(** X8: a photo added at the end of the list adds its block at the end of
    the text and leaves the text before it as it was: a new line, the
    heading with the next number, the image reference, and two line
    ends. *)
Theorem render_appends_block `{Pillow} (rd : ReportData) (out : str)
  (p : string) (im : image) (c : comment) (jpeg : bytes) :
  render_report_data rd = Ok out ->
  save_jpeg im = Ok jpeg ->
  render_report_data (with_photos rd (photo_list rd ++ [(p, im, c)]))
  = Ok (out +:+ nl +:+ heading_line (length (photo_list rd)) c
            +:+ nl +:+ image_line (data_url (Base64.b64encode jpeg))
            +:+ nl +:+ nl).
Proof.
  unfold render_report_data. intros Hr Hs.
  change (front_matter (with_photos rd (photo_list rd ++ [(p, im, c)])))
    with (front_matter rd).
  cbn [photo_list with_photos]. rewrite render_entries_app.
  destruct (render_entries 0 (photo_list rd) (front_matter rd)) as [lines|] eqn:Hl;
    simpl in Hr; [|discriminate].
  injection Hr as <-. cbn [rbind render_entries entry_lines]. rewrite Hs.
  cbn [rbind]. f_equal. apply str_join_snoc3.
  apply (render_entries_nonempty _ _ _ _ Hl). discriminate.
Qed.

Lemma render_appends_block_witness :
  @render_report_data (Toy.pillow true)
    (with_photos Toy.sample_report
       (@photo_list (Toy.pillow true) Toy.sample_report
          ++ [("photos/d.jpg", Toy.shot 900 600, CText "Damp wall")]))
  = Ok (Toy.sample_markup +:+ nl
          +:+ heading_line (length (@photo_list (Toy.pillow true) Toy.sample_report))
                (CText "Damp wall")
          +:+ nl +:+ image_line (data_url (Base64.b64encode (Toy.toy_file "-" 900 600 "")))
          +:+ nl +:+ nl).
Proof.
  apply (@render_appends_block (Toy.pillow true) Toy.sample_report Toy.sample_markup).
  - exact sample_renders.
  - reflexivity.
Defined.

(** ** Numbers in headings *)

Section HeadingFacts.

Lemma pretty_N_char_digit (x : N) : all_digits (String (pretty_N_char x) "") = true.
Proof. unfold pretty_N_char. repeat case_match; reflexivity. Qed.

Lemma all_digits_app (s t : string) :
  all_digits s = true -> all_digits t = true -> all_digits (s +:+ t) = true.
Proof.
  induction s as [|c s IH]; intros Hs Ht; [exact Ht|].
  rewrite append_cons. cbn [all_digits] in *.
  apply andb_true_iff in Hs as [Hc Hs]. rewrite Hc. now apply IH.
Qed.

Lemma pretty_N_go_digits (x : N) :
  forall s, exists d, pretty_N_go x s = d +:+ s /\ all_digits d = true.
Proof.
  induction (N.lt_wf_0 x) as [x _ IH]. intros s.
  destruct (N.eq_dec x 0%N) as [->|Hx].
  - exists "". now rewrite pretty_N_go_0.
  - rewrite pretty_N_go_step by lia.
    destruct (IH (x `div` 10)%N) with (s := String (pretty_N_char (x `mod` 10)) s)
      as (d & -> & Hd).
    { apply N.div_lt; lia. }
    exists (d +:+ String (pretty_N_char (x `mod` 10)) "").
    split; [now rewrite append_assoc|].
    apply all_digits_app; [exact Hd|apply pretty_N_char_digit].
Qed.

Lemma pretty_nat_digits (n : nat) : all_digits (pretty n) = true.
Proof.
  unfold pretty, pretty_nat, pretty, pretty_N.
  destruct (decide (N.of_nat n = 0%N)); [reflexivity|].
  destruct (pretty_N_go_digits (N.of_nat n) "") as (d & -> & Hd).
  now rewrite append_empty_r.
Qed.

(** Where two texts that start with digits and a period agree, the digits
    agree and so does what follows. *)
Lemma digits_period_inj (d1 d2 r1 r2 : string) :
  all_digits d1 = true -> all_digits d2 = true ->
  d1 +:+ String "." r1 = d2 +:+ String "." r2 -> d1 = d2 /\ r1 = r2.
Proof.
  revert d2. induction d1 as [|c1 d1 IH]; intros [|c2 d2] H1 H2 Heq.
  - now injection Heq as ->.
  - rewrite append_cons in Heq. injection Heq as <- _.
    cbn [all_digits] in H2. discriminate.
  - rewrite append_cons in Heq. injection Heq as -> _.
    cbn [all_digits] in H1. discriminate.
  - rewrite !append_cons in Heq. injection Heq as -> Heq.
    cbn [all_digits] in H1, H2.
    apply andb_true_iff in H1 as [_ H1]. apply andb_true_iff in H2 as [_ H2].
    destruct (IH d2 H1 H2 Heq) as [-> ->]. now split.
Qed.

End HeadingFacts.

(** X9: a heading tells its number and its caption: two headings are the
    same text only for the same position and the same caption text, so no
    two entries of a report share a heading. *)
Theorem heading_determines_number_and_caption (i j : nat) (c c' : comment) :
  heading_line i c = heading_line j c' <->
  i = j /\ format_comment c = format_comment c'.
Proof.
  split; [|now intros [-> Hc]; unfold heading_line; rewrite Hc].
  unfold heading_line. intros Heq.
  change ("#### " +:+ pretty (i + 1)%nat +:+ ". " +:+ format_comment c)
    with ("#### " +:+ (pretty (i + 1)%nat +:+ String "." (String " " (format_comment c))))
    in Heq.
  change ("#### " +:+ pretty (j + 1)%nat +:+ ". " +:+ format_comment c')
    with ("#### " +:+ (pretty (j + 1)%nat +:+ String "." (String " " (format_comment c'))))
    in Heq.
  rewrite !append_cons in Heq. injection Heq as Heq.
  change ("" +:+ ?s) with s in Heq.
  apply digits_period_inj in Heq as [Hn Hc]; try apply pretty_nat_digits.
  apply (inj pretty) in Hn. injection Hc as Hc. split; [lia|exact Hc].
Qed.

(** ** The markup, line by line *)

Section LineFacts.

Lemma lines_of_inhabited (s : string) : exists l ls, lines_of s = l :: ls.
Proof.
  induction s as [|c r (l & ls & IH)]; [now exists "", []|].
  cbn [lines_of]. destruct (Ascii.eqb c "010"); [eauto|]. rewrite IH. eauto.
Qed.

Lemma lines_of_one_line (s : string) : one_line s = true -> lines_of s = [s].
Proof.
  induction s as [|c r IH]; [reflexivity|].
  cbn [one_line lines_of]. intros Hs. apply andb_true_iff in Hs as [Hc Hr].
  apply negb_true_iff in Hc. now rewrite Hc, (IH Hr).
Qed.

(** Splitting at line feeds undoes joining with them. *)
Lemma lines_of_app_nl (a b : string) :
  lines_of (a +:+ nl +:+ b) = lines_of a ++ lines_of b.
Proof.
  induction a as [|c a IH]; [reflexivity|].
  rewrite append_cons. cbn [lines_of]. rewrite IH.
  destruct (Ascii.eqb c "010"); [reflexivity|].
  now destruct (lines_of_inhabited a) as (l & ls & ->).
Qed.

Lemma lines_of_join (l : string) (rest : list string) :
  lines_of (str_join nl (l :: rest)) = concat (lines_of <$> (l :: rest)).
Proof.
  revert l. induction rest as [|l2 rest IH]; intros l.
  - cbn. now rewrite app_nil_r.
  - change (str_join nl (l :: l2 :: rest))
      with (l +:+ nl +:+ str_join nl (l2 :: rest)).
    now rewrite lines_of_app_nl, IH.
Qed.

Lemma one_line_app (s t : string) :
  one_line (s +:+ t) = one_line s && one_line t.
Proof.
  induction s as [|c s IH]; [reflexivity|].
  rewrite append_cons. cbn [one_line]. now rewrite IH, andb_assoc.
Qed.

Lemma all_digits_one_line (s : string) : all_digits s = true -> one_line s = true.
Proof.
  induction s as [|c r IH]; [reflexivity|]. cbn [all_digits one_line]. intros Hs.
  apply andb_true_iff in Hs as [Hc Hr]. apply andb_true_iff in Hc as [Hlo _].
  rewrite (IH Hr), andb_true_r. apply negb_true_iff.
  destruct (Ascii.eqb_spec c "010") as [->|]; [|reflexivity].
  vm_compute in Hlo. discriminate.
Qed.

Lemma pretty_N_digits (n : N) : all_digits (pretty n) = true.
Proof.
  unfold pretty, pretty_N. destruct (decide (n = 0%N)); [reflexivity|].
  destruct (pretty_N_go_digits n "") as (d & -> & Hd).
  now rewrite append_empty_r.
Qed.

Lemma pretty_Z_one_line (z : Z) : one_line (pretty z) = true.
Proof.
  destruct z as [|q|q]; [reflexivity| |].
  - apply all_digits_one_line, (pretty_N_digits (N.pos q)).
  - change (pretty (Z.neg q)) with ("-" +:+ pretty (N.pos q)).
    rewrite one_line_app. apply andb_true_iff. split; [reflexivity|].
    apply all_digits_one_line, pretty_N_digits.
Qed.

Lemma strftime_report_one_line (d : date) : one_line (strftime_report d) = true.
Proof.
  unfold strftime_report. rewrite !one_line_app, !pretty_Z_one_line.
  now destruct (mon d).
Qed.

(** The characters of base64 text are no line feeds. *)
Lemma sextet_lines :
  forallb (fun n => negb (Ascii.eqb (Base64.sextet_char n) "010"))
          (N.of_nat <$> seq 0 64) = true.
Proof. vm_compute. reflexivity. Qed.

Lemma sextet_one_line (n : N) :
  (n < 64)%N -> Ascii.eqb (Base64.sextet_char n) "010" = false.
Proof.
  intros Hn.
  pose proof (proj1 (forallb_forall _ _) sextet_lines n) as Hall.
  apply negb_true_iff, Hall, in_map_iff. exists (N.to_nat n).
  split; [lia|]. apply in_seq. lia.
Qed.

Lemma b64encode_one_line (bs : bytes) : one_line (Base64.b64encode bs) = true.
Proof.
  revert bs. fix IH 1. intros [|a [|b [|c rest]]].
  - reflexivity.
  - pose proof (byte_val_lt a).
    change (Base64.b64encode (String a EmptyString)) with (Base64.enc1 (byte_val a)).
    unfold Base64.enc1. cbn [one_line].
    rewrite !sextet_one_line; [reflexivity|..];
      (zify; Z.to_euclidean_division_equations; lia).
  - pose proof (byte_val_lt a). pose proof (byte_val_lt b).
    change (Base64.b64encode (String a (String b EmptyString)))
      with (Base64.enc2 (byte_val a) (byte_val b)).
    unfold Base64.enc2. cbn [one_line].
    rewrite !sextet_one_line; [reflexivity|..];
      (zify; Z.to_euclidean_division_equations; lia).
  - pose proof (byte_val_lt a). pose proof (byte_val_lt b). pose proof (byte_val_lt c).
    rewrite b64encode_group. cbn [one_line].
    rewrite (IH rest).
    rewrite !sextet_one_line; [reflexivity|..];
      (zify; Z.to_euclidean_division_equations; lia).
Qed.

Lemma image_line_one_line (jpeg : bytes) :
  one_line (image_line (data_url (Base64.b64encode jpeg))) = true.
Proof.
  unfold image_line, data_url. rewrite !one_line_app, b64encode_one_line.
  reflexivity.
Qed.

Lemma heading_line_one_line (i : nat) (c : comment) :
  one_line (format_comment c) = true -> one_line (heading_line i c) = true.
Proof.
  intros Hc. unfold heading_line. rewrite !one_line_app, Hc.
  now rewrite (all_digits_one_line _ (pretty_nat_digits (i + 1))).
Qed.

(** Decimal numerals. *)
Lemma digit_value_char (d : N) :
  (d < 10)%N -> digit_value (pretty_N_char d) = Some d.
Proof.
  intros Hd.
  assert (Hc : (d = 0 \/ d = 1 \/ d = 2 \/ d = 3 \/ d = 4 \/ d = 5 \/ d = 6
                \/ d = 7 \/ d = 8 \/ d = 9)%N) by lia.
  repeat (destruct Hc as [->|Hc]; [reflexivity|]). now rewrite Hc.
Qed.

Lemma numeral_value_go (x : N) :
  forall s, exists p, forall acc,
    numeral_value_from acc (pretty_N_go x s) = numeral_value_from (acc * p + x) s.
Proof.
  induction (N.lt_wf_0 x) as [x _ IH]. intros s.
  destruct (N.eq_dec x 0%N) as [->|Hx].
  - exists 1%N. intros acc. rewrite pretty_N_go_0. f_equal. lia.
  - rewrite pretty_N_go_step by lia.
    destruct (IH (x `div` 10)%N) with (s := String (pretty_N_char (x `mod` 10)) s)
      as [p Hp].
    { apply N.div_lt; lia. }
    exists (10 * p)%N. intros acc. rewrite Hp. cbn [numeral_value_from].
    rewrite digit_value_char by (apply N.mod_lt; lia). f_equal.
    pose proof (N.div_mod x 10%N). lia.
Qed.

Lemma pretty_N_go_head (x : N) :
  forall s, (0 < x)%N ->
  exists c r, pretty_N_go x s = String c r /\ Ascii.eqb c "0" = false.
Proof.
  induction (N.lt_wf_0 x) as [x _ IH]. intros s Hx.
  rewrite pretty_N_go_step by exact Hx.
  destruct (N.eq_dec (x `div` 10)%N 0%N) as [Hq|Hq].
  - rewrite Hq, pretty_N_go_0. eexists _, _. split; [reflexivity|].
    assert (Hc : (x = 1 \/ x = 2 \/ x = 3 \/ x = 4 \/ x = 5 \/ x = 6
                  \/ x = 7 \/ x = 8 \/ x = 9)%N).
    { apply N.div_small_iff in Hq; lia. }
    repeat (destruct Hc as [->|Hc]; [reflexivity|]). now rewrite Hc.
  - apply IH; [apply N.div_lt; lia|now apply N.neq_0_lt_0].
Qed.

(** The text [pretty] makes of a number is its numeral without padding. *)
Lemma plain_numeral_pretty (n : N) : plain_numeral (pretty n) = Some n.
Proof.
  unfold pretty, pretty_N. destruct (decide (n = 0%N)) as [->|Hn]; [reflexivity|].
  destruct (pretty_N_go_head n "") as (c & r & Hcr & Hc); [lia|].
  unfold plain_numeral. rewrite Hcr, Hc, <- Hcr.
  destruct (numeral_value_go n "") as [p Hp]. rewrite Hp.
  cbn [numeral_value_from]. f_equal; lia.
Qed.

Lemma plain_numeral_pretty_Z (z : Z) :
  0 <= z -> plain_numeral (pretty z) = Some (Z.to_N z).
Proof.
  destruct z as [|q|q]; [reflexivity| |lia]. intros _.
  exact (plain_numeral_pretty (N.pos q)).
Qed.

End LineFacts.

Section MarkupLines.
Context `{Pillow}.

(** The lines the loop adds to the report: per photo the lines of its
    heading, its image reference and two empty lines. *)
Lemma render_entries_lines (photos : list (string * image * comment)) :
  forall (i : nat) (lines out : list str),
  render_entries i photos lines = Ok out ->
  exists L,
    concat (lines_of <$> out) = concat (lines_of <$> lines) ++ L /\
    (forall (k : nat) p im c, photos !! k = Some (p, im, c) ->
       exists jpeg, save_jpeg im = Ok jpeg /\
         image_line (data_url (Base64.b64encode jpeg)) ∈ L) /\
    (Forall (fun entry => one_line (format_comment entry.2) = true) photos ->
       length L = (4 * length photos)%nat /\
       filter (fun l => is_heading l = true) L
         = imap (fun k entry => heading_line (i + k) entry.2) photos /\
       forall (k : nat) p im c, photos !! k = Some (p, im, c) ->
         exists jpeg, save_jpeg im = Ok jpeg /\
           L !! (4 * k)%nat = Some (heading_line (i + k) c) /\
           L !! (4 * k + 1)%nat
             = Some (image_line (data_url (Base64.b64encode jpeg)))).
Proof.
  induction photos as [|[[p0 im0] c0] rest IH]; intros i lines out Hr.
  - simpl in Hr. injection Hr as <-. exists []. rewrite app_nil_r.
    split; [reflexivity|]. split; [intros k ? ? ? Hk; discriminate|].
    intros _. repeat split. intros k ? ? ? Hk. discriminate.
  - simpl in Hr.
    destruct (save_jpeg im0) as [jpeg|x] eqn:Hsave; simpl in Hr; [|discriminate].
    apply IH in Hr as (L' & Hcat & Hmem & Hpos).
    set (h := heading_line i c0) in *.
    set (r := image_line (data_url (Base64.b64encode jpeg))) in *.
    exists (lines_of h ++ [r; ""; ""] ++ L').
    split; [|split].
    + rewrite Hcat, fmap_app, concat_app. rewrite <- !app_assoc. f_equal.
      cbn [fmap list_fmap concat]. unfold r.
      rewrite (lines_of_one_line _ (image_line_one_line jpeg)).
      rewrite <- !app_assoc. reflexivity.
    + intros [|k] p im c Hk.
      * injection Hk as <- <- <-. exists jpeg. split; [exact Hsave|].
        apply elem_of_app. right. left.
      * destruct (Hmem k p im c Hk) as (jpeg' & Hs & Hin). exists jpeg'.
        split; [exact Hs|]. apply elem_of_app. right.
        do 3 right. exact Hin.
    + intros Hall. apply Forall_cons in Hall as [Hc0 Hall].
      destruct (Hpos Hall) as (Hlen & Hfil & Hat). cbn [snd] in Hc0.
      rewrite (lines_of_one_line h (heading_line_one_line i c0 Hc0)).
      split; [cbn [app length]; rewrite Hlen; cbn [length]; lia|]. split.
      * cbn [app imap]. rewrite !filter_cons.
        assert (Hh : is_heading h = true) by reflexivity.
        assert (Hi : is_heading r = false) by reflexivity.
        assert (Hn : is_heading "" = false) by reflexivity.
        rewrite (decide_True (P := is_heading h = true)) by exact Hh.
        rewrite (decide_False (P := is_heading r = true)) by (rewrite Hi; discriminate).
        rewrite !(decide_False (P := is_heading "" = true)) by (rewrite Hn; discriminate).
        cbn [snd]. replace (i + 0)%nat with i by lia. fold h. f_equal.
        rewrite Hfil. apply imap_ext. intros k e _. cbn. f_equal. lia.
      * intros [|k] p im c Hk.
        -- injection Hk as <- <- <-. exists jpeg. rewrite Nat.add_0_r.
           now repeat split.
        -- destruct (Hat k p im c Hk) as (jpeg' & Hs & H0 & H1).
           exists jpeg'. split; [exact Hs|].
           replace (4 * S k)%nat with (S (S (S (S (4 * k))))) by lia.
           replace (i + S k)%nat with (S i + k)%nat by lia.
           split; [exact H0|exact H1].
Qed.

(** The lines of the markup: those of the three front-matter items, then
    those of the photos. *)
Lemma render_lines (rd : ReportData) (out : str) :
  render_report_data rd = Ok out ->
  exists L,
    lines_of out
    = lines_of (title_line (property_address rd))
        ++ lines_of (author_line (author rd))
        ++ lines_of (date_line (strftime_report (effective_date rd))) ++ L /\
    (photo_list rd = [] -> L = []) /\
    (forall (k : nat) p im c, photo_list rd !! k = Some (p, im, c) ->
       exists jpeg, save_jpeg im = Ok jpeg /\
         image_line (data_url (Base64.b64encode jpeg)) ∈ L) /\
    (Forall (fun entry => one_line (format_comment entry.2) = true) (photo_list rd) ->
       length L = (4 * length (photo_list rd))%nat /\
       filter (fun l => is_heading l = true) L
         = imap (fun k entry => heading_line k entry.2) (photo_list rd) /\
       forall (k : nat) p im c, photo_list rd !! k = Some (p, im, c) ->
         exists jpeg, save_jpeg im = Ok jpeg /\
           L !! (4 * k)%nat = Some (heading_line k c) /\
           L !! (4 * k + 1)%nat
             = Some (image_line (data_url (Base64.b64encode jpeg)))).
Proof.
  unfold render_report_data. intros Hr.
  destruct (render_entries 0 (photo_list rd) (front_matter rd)) as [lines|x] eqn:Hl;
    simpl in Hr; [|discriminate].
  injection Hr as <-.
  pose proof Hl as Hinv. apply render_entries_inv in Hinv as (tail & Htail & _).
  apply render_entries_lines in Hl as (L & Hcat & Hmem & Hpos).
  exists L. split; [|split; [|split]].
  - assert (Hj : lines_of (str_join nl lines) = concat (lines_of <$> lines)).
    { rewrite Htail.
      exact (lines_of_join (title_line (property_address rd))
               (author_line (author rd)
                  :: date_line (strftime_report (effective_date rd)) :: tail)). }
    etransitivity; [exact Hj|]. etransitivity; [exact Hcat|].
    unfold front_matter. cbn [fmap list_fmap concat].
    now rewrite <- !app_assoc, app_nil_l.
  - intros Hnil. rewrite Hnil in Hpos.
    destruct (Hpos (Forall_nil_2 _)) as (Hlen & _). now destruct L.
  - exact Hmem.
  - exact Hpos.
Qed.

Lemma title_line_one_line (address : option str) :
  (forall s, address = Some s -> one_line s = true) ->
  one_line (title_line address) = true.
Proof.
  intros Ha. unfold title_line. rewrite one_line_app.
  destruct address as [s|]; [|reflexivity]. cbn [format_arg]. now rewrite (Ha s).
Qed.

Lemma author_line_one_line (auth : option str) :
  (forall s, auth = Some s -> one_line s = true) ->
  one_line (author_line auth) = true.
Proof.
  intros Ha. unfold author_line. rewrite one_line_app.
  destruct auth as [s|]; [|reflexivity]. cbn [format_arg]. now rewrite (Ha s).
Qed.

Lemma date_line_one_line (d : date) :
  one_line (date_line (strftime_report d)) = true.
Proof.
  unfold date_line. now rewrite one_line_app, strftime_report_one_line.
Qed.

(** The lines of the markup when address and author are one line each. *)
Lemma render_lines_front (rd : ReportData) (out : str) :
  render_report_data rd = Ok out ->
  (forall s, property_address rd = Some s -> one_line s = true) ->
  (forall s, author rd = Some s -> one_line s = true) ->
  exists L,
    lines_of out
    = [ title_line (property_address rd); author_line (author rd);
        date_line (strftime_report (effective_date rd)) ] ++ L /\
    (photo_list rd = [] -> L = []) /\
    (forall (k : nat) p im c, photo_list rd !! k = Some (p, im, c) ->
       exists jpeg, save_jpeg im = Ok jpeg /\
         image_line (data_url (Base64.b64encode jpeg)) ∈ L) /\
    (Forall (fun entry => one_line (format_comment entry.2) = true) (photo_list rd) ->
       length L = (4 * length (photo_list rd))%nat /\
       filter (fun l => is_heading l = true) L
         = imap (fun k entry => heading_line k entry.2) (photo_list rd) /\
       forall (k : nat) p im c, photo_list rd !! k = Some (p, im, c) ->
         exists jpeg, save_jpeg im = Ok jpeg /\
           L !! (4 * k)%nat = Some (heading_line k c) /\
           L !! (4 * k + 1)%nat
             = Some (image_line (data_url (Base64.b64encode jpeg)))).
Proof.
  intros Hr Haddr Hauth.
  destruct (render_lines rd out Hr) as (L & Hlines & Hrest).
  exists L. split; [|exact Hrest].
  rewrite Hlines.
  rewrite (lines_of_one_line _ (title_line_one_line _ Haddr)).
  rewrite (lines_of_one_line _ (author_line_one_line _ Hauth)).
  now rewrite (lines_of_one_line _ (date_line_one_line _)).
Qed.

End MarkupLines.

(** C4, as stated, fails: the comment of a photograph may run over
    several lines, and a line of it that reads like a heading is one in the
    markup: the report of one photograph has two heading lines. *)
Lemma caption_line_forges_heading :
  length (@photo_list (Toy.pillow true) Scenes.forged_caption) = 1%nat /\
  rmap (fun out => filter (fun l => is_heading l = true) (lines_of out))
    (@render_report_data (Toy.pillow true) Scenes.forged_caption)
  = Ok [ "#### 1. Cracked tile"; "#### 7. Forged entry" ].
Proof. vm_compute. split; reflexivity. Qed.

(** C4, amended: when address, author and captions are one line each, the
    markup the renderer returns has three lines and then four per photo;
    its heading lines are exactly one per photo, in the order of the list,
    and the heading of the photo at position [i] (from 0), which is line
    [3 + 4 * i] of the markup, is the number [i + 1], a period, and that
    photo's caption: the text itself for a caption that is text, the
    numeral for one that is a number. *)
Theorem render_headings_numbered `{Pillow} (rd : ReportData) (out : str) :
  render_report_data rd = Ok out ->
  (forall s, property_address rd = Some s -> one_line s = true) ->
  (forall s, author rd = Some s -> one_line s = true) ->
  Forall (fun entry => one_line (format_comment entry.2) = true) (photo_list rd) ->
  length (lines_of out) = (3 + 4 * length (photo_list rd))%nat /\
  length (filter (fun l => is_heading l = true) (lines_of out))
    = length (photo_list rd) /\
  filter (fun l => is_heading l = true) (lines_of out)
    = imap (fun i entry =>
              "#### " +:+ pretty (i + 1)%nat +:+ ". " +:+ format_comment entry.2)
           (photo_list rd) /\
  (forall (i : nat) p im s, photo_list rd !! i = Some (p, im, CText s) ->
     lines_of out !! (3 + 4 * i)%nat
       = Some ("#### " +:+ pretty (i + 1)%nat +:+ ". " +:+ s)) /\
  (forall (i : nat) p im n, photo_list rd !! i = Some (p, im, CNum n) ->
     lines_of out !! (3 + 4 * i)%nat
       = Some ("#### " +:+ pretty (i + 1)%nat +:+ ". " +:+ pretty n)).
Proof.
  intros Hr Haddr Hauth Hall.
  destruct (render_lines_front rd out Hr Haddr Hauth) as (L & Hlines & _ & _ & Hpos).
  destruct (Hpos Hall) as (Hlen & Hfil & Hat).
  assert (Hheads : filter (fun l => is_heading l = true) (lines_of out)
                   = imap (fun i entry => heading_line i entry.2) (photo_list rd)).
  { rewrite Hlines, filter_app, !filter_cons, filter_nil.
    rewrite !decide_False by (cbn; discriminate). exact Hfil. }
  split; [rewrite Hlines, length_app, Hlen; reflexivity|].
  split; [|split; [|split]].
  - now rewrite Hheads, length_imap.
  - exact Hheads.
  - intros i p im s Hi. destruct (Hat i p im _ Hi) as (jpeg & _ & H0 & _).
    rewrite Hlines, lookup_app_r by (simpl; lia).
    transitivity (L !! (4 * i)%nat); [f_equal; simpl; lia|exact H0].
  - intros i p im n Hi. destruct (Hat i p im _ Hi) as (jpeg & _ & H0 & _).
    rewrite Hlines, lookup_app_r by (simpl; lia).
    transitivity (L !! (4 * i)%nat); [f_equal; simpl; lia|exact H0].
Qed.

Lemma render_headings_numbered_witness :
  length (lines_of Toy.sample_markup)
    = (3 + 4 * length (@photo_list (Toy.pillow true) Toy.sample_report))%nat /\
  length (filter (fun l => is_heading l = true) (lines_of Toy.sample_markup))
    = length (@photo_list (Toy.pillow true) Toy.sample_report) /\
  filter (fun l => is_heading l = true) (lines_of Toy.sample_markup)
    = imap (fun i entry =>
              "#### " +:+ pretty (i + 1)%nat +:+ ". " +:+ format_comment entry.2)
           (@photo_list (Toy.pillow true) Toy.sample_report) /\
  (forall (i : nat) p im s,
     @photo_list (Toy.pillow true) Toy.sample_report !! i = Some (p, im, CText s) ->
     lines_of Toy.sample_markup !! (3 + 4 * i)%nat
       = Some ("#### " +:+ pretty (i + 1)%nat +:+ ". " +:+ s)) /\
  (forall (i : nat) p im n,
     @photo_list (Toy.pillow true) Toy.sample_report !! i = Some (p, im, CNum n) ->
     lines_of Toy.sample_markup !! (3 + 4 * i)%nat
       = Some ("#### " +:+ pretty (i + 1)%nat +:+ ". " +:+ pretty n)).
Proof.
  apply (@render_headings_numbered (Toy.pillow true) Toy.sample_report
           Toy.sample_markup sample_renders).
  - intros s [= <-]. reflexivity.
  - intros s [= <-]. reflexivity.
  - repeat constructor.
Defined.

(** C7, as stated, fails: an address that runs over two lines gives a
    front-matter block of four lines, and the second of them can read like
    a heading though the report has no photograph. *)
Lemma address_line_adds_to_front_matter :
  @photo_list (Toy.pillow true) Scenes.forged_address = [] /\
  rmap lines_of (@render_report_data (Toy.pillow true) Scenes.forged_address)
  = Ok [ "% Home Owner's Report for 1 Main St"; "#### 1. Forged";
         "% J. Smith"; "% March 4, 2024" ].
Proof. vm_compute. split; reflexivity. Qed.

(** C7, amended: when address and author are one line each, the markup
    the renderer returns begins with exactly these three lines: the title
    with the address, the author, and the date; a flag that was not given
    reads [None].  The date is the English name of the month, a space, the
    day, a comma and a space, and the year, where day and year are plain
    decimal numerals, without a zero in front, for a day from 1 to 31 and a
    year from 1000 to 9999: March 4, 2024.  With no photos these three
    lines are the whole markup. *)
Theorem render_front_matter `{Pillow} (rd : ReportData) (out : str) :
  render_report_data rd = Ok out ->
  (forall s, property_address rd = Some s -> one_line s = true) ->
  (forall s, author rd = Some s -> one_line s = true) ->
  1 <= day (effective_date rd) <= 31 ->
  1000 <= year (effective_date rd) <= 9999 ->
  exists address_text author_text month_text day_text year_text rest,
    lines_of out
    = [ "% Home Owner's Report for " +:+ address_text;
        "% " +:+ author_text;
        "% " +:+ month_text +:+ " " +:+ day_text +:+ ", " +:+ year_text ]
        ++ rest /\
    (photo_list rd = [] -> rest = []) /\
    address_text = match property_address rd with Some s => s | None => "None" end /\
    author_text = match author rd with Some s => s | None => "None" end /\
    [ "January"; "February"; "March"; "April"; "May"; "June"; "July";
      "August"; "September"; "October"; "November"; "December" ]
      !! (month_number (mon (effective_date rd)) - 1)%nat = Some month_text /\
    plain_numeral day_text = Some (Z.to_N (day (effective_date rd))) /\
    plain_numeral year_text = Some (Z.to_N (year (effective_date rd))) /\
    (effective_date rd = {| year := 2024; mon := March; day := 4 |} ->
     month_text +:+ " " +:+ day_text +:+ ", " +:+ year_text = "March 4, 2024").
Proof.
  intros Hr Haddr Hauth Hday Hyear.
  destruct (render_lines_front rd out Hr Haddr Hauth) as (L & Hlines & Hnil & _).
  exists (format_arg (property_address rd)), (format_arg (author rd)),
    (month_name (mon (effective_date rd))), (pretty (day (effective_date rd))),
    (pretty (year (effective_date rd))), L.
  split; [exact Hlines|]. split; [exact Hnil|].
  split; [now destruct (property_address rd)|].
  split; [now destruct (author rd)|].
  split; [now destruct (mon (effective_date rd))|].
  split; [apply plain_numeral_pretty_Z; lia|].
  split; [apply plain_numeral_pretty_Z; lia|].
  now intros ->.
Qed.

Lemma render_front_matter_witness :
  exists address_text author_text month_text day_text year_text rest,
    lines_of Toy.sample_markup
    = [ "% Home Owner's Report for " +:+ address_text;
        "% " +:+ author_text;
        "% " +:+ month_text +:+ " " +:+ day_text +:+ ", " +:+ year_text ]
        ++ rest /\
    (@photo_list (Toy.pillow true) Toy.sample_report = [] -> rest = []) /\
    address_text = "123 Main St" /\
    author_text = "J. Smith" /\
    [ "January"; "February"; "March"; "April"; "May"; "June"; "July";
      "August"; "September"; "October"; "November"; "December" ]
      !! (month_number March - 1)%nat = Some month_text /\
    plain_numeral day_text = Some (Z.to_N 4) /\
    plain_numeral year_text = Some (Z.to_N 2024) /\
    (Toy.clock = {| year := 2024; mon := March; day := 4 |} ->
     month_text +:+ " " +:+ day_text +:+ ", " +:+ year_text = "March 4, 2024").
Proof.
  apply (@render_front_matter (Toy.pillow true) Toy.sample_report
           Toy.sample_markup sample_renders).
  - intros s [= <-]. reflexivity.
  - intros s [= <-]. reflexivity.
  - simpl. lia.
  - simpl. lia.
Defined.

(** X21: for every photo of a report the markup has, as a line of its own,
    the image reference with the data URI of the base64 text of the JPEG
    bytes the image was saved to; reading the text back out of the
    reference and decoding it gives exactly those bytes.  When address,
    author and captions are one line each, the reference of the photo at
    position [i] is line [3 + 4 * i + 1], the line after its heading. *)
Theorem image_reference_roundtrip `{Pillow} (rd : ReportData) (out : str)
  (i : nat) (p : string) (im : image) (c : comment) :
  render_report_data rd = Ok out ->
  photo_list rd !! i = Some (p, im, c) ->
  exists jpeg,
    save_jpeg im = Ok jpeg /\
    let reference :=
      "![](data:image/jpeg;base64," +:+ Base64.b64encode jpeg +:+ "){width=90%}" in
    reference ∈ lines_of out /\
    embedded_text reference = Some (Base64.b64encode jpeg) /\
    Base64.b64decode (Base64.b64encode jpeg) = Some jpeg /\
    embedded_bytes reference = Some jpeg /\
    ((forall s, property_address rd = Some s -> one_line s = true) ->
     (forall s, author rd = Some s -> one_line s = true) ->
     Forall (fun entry => one_line (format_comment entry.2) = true) (photo_list rd) ->
     lines_of out !! (3 + 4 * i + 1)%nat = Some reference).
Proof.
  intros Hr Hi.
  destruct (render_lines rd out Hr) as (L & Hlines & _ & Hmem & _).
  destruct (Hmem i p im c Hi) as (jpeg & Hs & Hin).
  exists jpeg. split; [exact Hs|]. cbv zeta.
  change ("![](data:image/jpeg;base64," +:+ Base64.b64encode jpeg +:+ "){width=90%}")
    with (image_line (data_url (Base64.b64encode jpeg))).
  pose proof (embedded_bytes_image_line jpeg) as Hb.
  split; [|split; [|split; [|split]]].
  - rewrite Hlines. rewrite !elem_of_app. auto.
  - unfold embedded_bytes in Hb.
    destruct (embedded_text (image_line (data_url (Base64.b64encode jpeg))))
      as [t|] eqn:Ht; [|discriminate].
    unfold embedded_text, image_line, data_url in Ht.
    change ("![](" +:+ ("data:image/jpeg;base64," +:+ Base64.b64encode jpeg) +:+ "){width=90%}")
      with ("![](data:image/jpeg;base64," +:+ (Base64.b64encode jpeg +:+ "){width=90%}")) in Ht.
    rewrite strip_prefix_app in Ht. cbn [fmap option_fmap option_map] in Ht.
    rewrite (until_char_app ")" _ "{width=90%}") in Ht by apply b64encode_no_paren.
    now injection Ht as <-.
  - apply b64_roundtrip.
  - exact Hb.
  - intros Haddr Hauth Hall.
    destruct (render_lines_front rd out Hr Haddr Hauth)
      as (L' & Hlines' & _ & _ & Hpos).
    destruct (Hpos Hall) as (_ & _ & Hat).
    destruct (Hat i p im c Hi) as (jpeg' & Hs' & _ & H1).
    assert (jpeg' = jpeg) as -> by congruence.
    rewrite Hlines', lookup_app_r by (simpl; lia).
    transitivity (L' !! (4 * i + 1)%nat); [f_equal; simpl; lia|exact H1].
Qed.

Lemma image_reference_roundtrip_witness :
  exists jpeg,
    @save_jpeg (Toy.pillow true) (Toy.shot 899 674) = Ok jpeg /\
    let reference :=
      "![](data:image/jpeg;base64," +:+ Base64.b64encode jpeg +:+ "){width=90%}" in
    reference ∈ lines_of Toy.sample_markup /\
    embedded_text reference = Some (Base64.b64encode jpeg) /\
    Base64.b64decode (Base64.b64encode jpeg) = Some jpeg /\
    embedded_bytes reference = Some jpeg /\
    ((forall s, @property_address (Toy.pillow true) Toy.sample_report = Some s ->
        one_line s = true) ->
     (forall s, @author (Toy.pillow true) Toy.sample_report = Some s ->
        one_line s = true) ->
     Forall (fun entry => one_line (format_comment entry.2) = true)
       (@photo_list (Toy.pillow true) Toy.sample_report) ->
     lines_of Toy.sample_markup !! (3 + 4 * 1 + 1)%nat = Some reference).
Proof.
  apply (@image_reference_roundtrip (Toy.pillow true) Toy.sample_report
           Toy.sample_markup 1%nat "photos/c.jpg" (Toy.shot 899 674)
           (CText "Loose railing") sample_renders).
  reflexivity.
Defined.

(** ** The top-level flow, further *)

Section MainMore.
Context `{Pillow}.

(** The ways a run can end. *)
Lemma main_outcomes (e : env) (a : args) (w : world) :
  (exists x, main e a w = (Raise x, w)) \/
  main e a w = (Raise UnicodeEncodeError, opened w "report.md") \/
  (exists markdown_input,
     main e a w = (Raise IsADirectoryError, wrote_markdown w markdown_input)) \/
  (exists markdown_input x,
     main e a w = (Raise x, started_converter w markdown_input)) \/
  (exists markdown_input html,
     main e a w = (Ok tt, wrote_html w markdown_input html)).
Proof.
  destruct (arg_photo_path a) as [photo_dir|] eqn:Ha.
  - destruct (get_most_recent_photos w photo_dir) as [photos|x] eqn:Hp.
    + destruct (render_report_data (report_of e a photos)) as [md|x] eqn:Hr.
      * rewrite (main_after_render e a w photo_dir photos md Ha Hp Hr).
        destruct (writable w "report.md"); [|left; eauto].
        destruct (encodes e md); [|right; left; reflexivity].
        destruct (writable w "report.html"); [|right; right; left; eauto].
        destruct (run_process e pandoc_args md) as [html|x];
          [destruct (encodes e html)|]; right; right; right; eauto.
      * left. exists x. now apply (main_render_fails e a w photo_dir photos).
    + left. exists x. unfold main, io_bind, io_of, io_read, photo_dir_of.
      now rewrite Ha, Hp.
  - left. exists AttributeError. unfold main, io_bind, io_of, photo_dir_of.
    now rewrite Ha.
Qed.

End MainMore.

(** X10: a run changes no file but report.md and report.html: whatever it
    finds under any other path, the photographs among them, is there
    unchanged when it ends, however it ends. *)
Theorem main_touches_only_its_outputs `{Pillow} (e : env) (a : args) (w : world)
  (path : string) :
  path <> "report.md" -> path <> "report.html" ->
  fs (main e a w).2 !! path = fs w !! path.
Proof.
  intros Hmd Hhtml.
  destruct (main_outcomes e a w)
    as [[x ->]|[->|[[md ->]|[(md & x & ->)|(md & html & ->)]]]];
    cbn [snd fs opened wrote_markdown started_converter wrote_html];
    now rewrite ?lookup_insert_ne by congruence.
Qed.

Lemma main_touches_only_its_outputs_witness :
  fs (@main (Toy.pillow true) (Toy.converter true) (Toy.cli "photos")
        Toy.sample_world).2 !! "photos/a.jpg"
  = fs Toy.sample_world !! "photos/a.jpg".
Proof.
  apply (@main_touches_only_its_outputs (Toy.pillow true)); discriminate.
Defined.

(** X11: a run adds to what has been done at most one start of a process,
    and that process is pandoc with the fixed arguments; a run that ends
    well has started it exactly once, after the last truncation. *)
Theorem main_starts_pandoc_at_most_once `{Pillow} (e : env) (a : args) (w : world) :
  exists new,
    trace (main e a w).2 = new ++ trace w /\
    (length (filter (fun ev => is_spawn ev = true) new) <= 1)%nat /\
    (forall argv stdin, EvSpawn argv stdin ∈ new -> argv = pandoc_args) /\
    ((main e a w).1 = Ok tt ->
       exists stdin html,
         new = [ EvWrite "report.html" html; EvSpawn pandoc_args stdin;
                 EvTruncate "report.html"; EvWrite "report.md" (stdin +:+ nl);
                 EvTruncate "report.md" ]).
Proof.
  destruct (main_outcomes e a w)
    as [[x ->]|[->|[[md ->]|[(md & x & ->)|(md & html & ->)]]]];
    cbn [fst snd trace opened wrote_markdown started_converter wrote_html].
  - exists []. repeat split; [simpl; lia| |discriminate].
    intros argv stdin Hin. inversion Hin.
  - exists [EvTruncate "report.md"].
    repeat split; [simpl; lia| |discriminate].
    intros argv stdin Hin. repeat (apply elem_of_cons in Hin as [Hin|Hin]; [discriminate|]).
    inversion Hin.
  - exists [EvWrite "report.md" (md +:+ nl); EvTruncate "report.md"].
    repeat split; [simpl; lia| |discriminate].
    intros argv stdin Hin. repeat (apply elem_of_cons in Hin as [Hin|Hin]; [discriminate|]).
    inversion Hin.
  - exists [EvSpawn pandoc_args md; EvTruncate "report.html";
            EvWrite "report.md" (md +:+ nl); EvTruncate "report.md"].
    repeat split; [simpl; lia| |discriminate].
    intros argv stdin Hin.
    apply elem_of_cons in Hin as [Hin|Hin]; [now injection Hin as -> _|].
    repeat (apply elem_of_cons in Hin as [Hin|Hin]; [discriminate|]).
    inversion Hin.
  - exists [EvWrite "report.html" (html +:+ nl); EvSpawn pandoc_args md;
            EvTruncate "report.html"; EvWrite "report.md" (md +:+ nl);
            EvTruncate "report.md"].
    repeat split; [simpl; lia| |eauto].
    intros argv stdin Hin.
    apply elem_of_cons in Hin as [Hin|Hin]; [discriminate|].
    apply elem_of_cons in Hin as [Hin|Hin]; [now injection Hin as -> _|].
    repeat (apply elem_of_cons in Hin as [Hin|Hin]; [discriminate|]).
    inversion Hin.
Qed.

(** X12: a run never ends well with less than its whole output.  If it
    ends without error, then the directory was given and listed, every file
    in it was read, every selected image was encoded, both output files
    could be opened for writing, pandoc returned, and the locale's encoding
    could take the markup and what pandoc printed; report.md holds the
    markup and report.html what pandoc printed, each with the line end that
    print adds. *)
Theorem main_success_is_complete `{Pillow} (e : env) (a : args) (w : world) :
  (main e a w).1 = Ok tt ->
  exists photo_dir photos markdown_input html,
    arg_photo_path a = Some photo_dir /\
    get_most_recent_photos w photo_dir = Ok photos /\
    render_report_data (report_of e a photos) = Ok markdown_input /\
    writable w "report.md" = true /\
    encodes e markdown_input = true /\
    writable w "report.html" = true /\
    run_process e pandoc_args markdown_input = Ok html /\
    encodes e html = true /\
    (main e a w).2 = wrote_html w markdown_input html /\
    fs (main e a w).2 !! "report.md" = Some (File (markdown_input +:+ nl)) /\
    fs (main e a w).2 !! "report.html" = Some (File (html +:+ nl)) /\
    trace (main e a w).2
    = [ EvWrite "report.html" (html +:+ nl); EvSpawn pandoc_args markdown_input;
        EvTruncate "report.html"; EvWrite "report.md" (markdown_input +:+ nl);
        EvTruncate "report.md" ] ++ trace w.
Proof.
  intros Hok.
  destruct (arg_photo_path a) as [photo_dir|] eqn:Ha.
  2:{ unfold main, io_bind, io_of, photo_dir_of in Hok. now rewrite Ha in Hok. }
  destruct (get_most_recent_photos w photo_dir) as [photos|x] eqn:Hp.
  2:{ unfold main, io_bind, io_of, io_read, photo_dir_of in Hok.
      now rewrite Ha, Hp in Hok. }
  destruct (render_report_data (report_of e a photos)) as [md|x] eqn:Hr.
  2:{ now rewrite (main_render_fails e a w photo_dir photos x Ha Hp Hr) in Hok. }
  pose proof (main_after_render e a w photo_dir photos md Ha Hp Hr) as Hm.
  destruct (writable w "report.md"); [|now rewrite Hm in Hok].
  destruct (encodes e md) eqn:Hemd; [|now rewrite Hm in Hok].
  destruct (writable w "report.html"); [|now rewrite Hm in Hok].
  destruct (run_process e pandoc_args md) as [html|x] eqn:Hrun;
    [|now rewrite Hm in Hok].
  destruct (encodes e html) eqn:Ehtml; [|now rewrite Hm in Hok].
  exists photo_dir, photos, md, html. rewrite Hm.
  cbn [snd fs trace wrote_html started_converter wrote_markdown].
  repeat split; try reflexivity; try assumption.
  - rewrite !(lookup_insert_ne _ "report.html" "report.md") by discriminate.
    apply lookup_insert_eq.
  - apply lookup_insert_eq.
Qed.

Lemma main_success_is_complete_witness :
  exists photo_dir photos markdown_input html,
    arg_photo_path (Toy.cli "photos") = Some photo_dir /\
    @get_most_recent_photos (Toy.pillow true) Toy.sample_world photo_dir
    = Ok photos /\
    @render_report_data (Toy.pillow true)
      (report_of (Toy.converter true) (Toy.cli "photos") photos)
    = Ok markdown_input /\
    writable Toy.sample_world "report.md" = true /\
    encodes (Toy.converter true) markdown_input = true /\
    writable Toy.sample_world "report.html" = true /\
    run_process (Toy.converter true) pandoc_args markdown_input = Ok html /\
    encodes (Toy.converter true) html = true /\
    (@main (Toy.pillow true) (Toy.converter true) (Toy.cli "photos")
       Toy.sample_world).2
    = wrote_html Toy.sample_world markdown_input html /\
    fs (@main (Toy.pillow true) (Toy.converter true) (Toy.cli "photos")
          Toy.sample_world).2 !! "report.md"
    = Some (File (markdown_input +:+ nl)) /\
    fs (@main (Toy.pillow true) (Toy.converter true) (Toy.cli "photos")
          Toy.sample_world).2 !! "report.html"
    = Some (File (html +:+ nl)) /\
    trace (@main (Toy.pillow true) (Toy.converter true) (Toy.cli "photos")
             Toy.sample_world).2
    = [ EvWrite "report.html" (html +:+ nl); EvSpawn pandoc_args markdown_input;
        EvTruncate "report.html"; EvWrite "report.md" (markdown_input +:+ nl);
        EvTruncate "report.md" ] ++ trace Toy.sample_world.
Proof.
  apply (@main_success_is_complete (Toy.pillow true) (Toy.converter true)
           (Toy.cli "photos") Toy.sample_world).
  reflexivity.
Defined.

(** X13: run on an existing directory with nothing in it, the script still
    writes a report: its markup is the title, the author and the date line
    and nothing else, and pandoc is given exactly that.  The run ends well
    where the locale's encoding can take the markup and what pandoc
    printed; where it cannot take the markup, the run ends at the first
    [print] with report.md empty and pandoc not started, and where it cannot
    take what pandoc printed, at the second with report.html empty. *)
Theorem main_on_empty_directory `{Pillow} (e : env) (a : args) (w : world)
  (photo_dir : string) (html : str) :
  let markdown_input :=
    title_line (arg_property_address a) +:+ nl
      +:+ author_line (arg_author a) +:+ nl
      +:+ date_line (strftime_report (today e)) in
  arg_photo_path a = Some photo_dir ->
  fs w !! photo_dir = Some (Dir []) ->
  writable w "report.md" = true ->
  writable w "report.html" = true ->
  run_process e pandoc_args markdown_input = Ok html ->
  main e a w =
  if encodes e markdown_input then
    if encodes e html then (Ok tt, wrote_html w markdown_input html)
    else (Raise UnicodeEncodeError, started_converter w markdown_input)
  else (Raise UnicodeEncodeError, opened w "report.md").
Proof.
  intros md Ha Hd Hmd Hhtml Hrun.
  assert (Hp : get_most_recent_photos w photo_dir = Ok []).
  { unfold get_most_recent_photos, iterdir. now rewrite Hd. }
  rewrite (main_after_render e a w photo_dir [] md Ha Hp).
  - now rewrite Hmd, Hhtml, Hrun.
  - now apply render_no_photos.
Qed.

Lemma main_on_empty_directory_witness :
  exists html,
    @main (Toy.pillow true) (Toy.converter true) (Toy.cli "photos") Scenes.empty_dir
    = (Ok tt,
       wrote_html Scenes.empty_dir
         (title_line (arg_property_address (Toy.cli "photos")) +:+ nl
            +:+ author_line (arg_author (Toy.cli "photos")) +:+ nl
            +:+ date_line (strftime_report (today (Toy.converter true))))
         html).
Proof.
  eexists.
  apply (@main_on_empty_directory (Toy.pillow true) (Toy.converter true)
           (Toy.cli "photos") Scenes.empty_dir "photos"); reflexivity.
Defined.

(** X14: when an output file cannot be opened for writing the run ends with
    the error of open: for report.md, before anything is written; for
    report.html, with report.md written in full and pandoc never started.
    In neither case is pandoc started or report.html touched, also where
    the run ends before the second open because the locale's encoding
    cannot take the markup. *)
Theorem main_blocked_output `{Pillow} (e : env) (a : args) (w : world)
  (photo_dir : string) (photos : list (string * image * comment))
  (markdown_input : str) :
  arg_photo_path a = Some photo_dir ->
  get_most_recent_photos w photo_dir = Ok photos ->
  render_report_data (report_of e a photos) = Ok markdown_input ->
  writable w "report.md" = false \/ writable w "report.html" = false ->
  (forall ev, ev ∈ trace (main e a w).2 -> is_spawn ev = true -> ev ∈ trace w) /\
  fs (main e a w).2 !! "report.html" = fs w !! "report.html" /\
  (writable w "report.md" = false -> main e a w = (Raise IsADirectoryError, w)) /\
  (writable w "report.md" = true ->
     if encodes e markdown_input then
       main e a w = (Raise IsADirectoryError, wrote_markdown w markdown_input) /\
       fs (main e a w).2 !! "report.md" = Some (File (markdown_input +:+ nl))
     else main e a w = (Raise UnicodeEncodeError, opened w "report.md")).
Proof.
  intros Ha Hp Hr Hblocked.
  rewrite (main_after_render e a w photo_dir photos markdown_input Ha Hp Hr).
  destruct (writable w "report.md") eqn:Hmd.
  - destruct Hblocked as [?|Hhtml]; [discriminate|]. rewrite Hhtml.
    destruct (encodes e markdown_input);
      cbn [fst snd fs trace wrote_markdown opened];
      repeat split; try discriminate.
    + intros ev Hin Hs.
      apply elem_of_cons in Hin as [->|Hin]; [discriminate|].
      apply elem_of_cons in Hin as [->|Hin]; [discriminate|exact Hin].
    + now rewrite !lookup_insert_ne by discriminate.
    + apply lookup_insert_eq.
    + intros ev Hin Hs.
      apply elem_of_cons in Hin as [->|Hin]; [discriminate|exact Hin].
    + now rewrite !lookup_insert_ne by discriminate.
  - cbn [fst snd]. repeat split; try discriminate. tauto.
Qed.

Lemma main_blocked_output_witness :
  (@main (Toy.pillow true) (Toy.converter true) (Toy.cli "photos")
     Scenes.html_blocked).1 = Raise IsADirectoryError /\
  fs (@main (Toy.pillow true) (Toy.converter true) (Toy.cli "photos")
        Scenes.html_blocked).2 !! "report.md"
  = Some (File (Toy.selected_markup +:+ nl)).
Proof.
  destruct (@main_blocked_output (Toy.pillow true) (Toy.converter true)
              (Toy.cli "photos") Scenes.html_blocked "photos"
              Toy.selected Toy.selected_markup)
    as (_ & _ & _ & H4).
  - reflexivity.
  - reflexivity.
  - reflexivity.
  - right. reflexivity.
  - destruct (H4 eq_refl) as [Hm Hmd]. split; [|exact Hmd].
    now rewrite Hm.
Defined.

(** X22: where the locale's encoding cannot take the markup, as with an
    accented address in an ASCII locale, a run that has opened report.md
    ends at the first [print] with an encoding error: report.md is left
    empty, report.html is not touched and pandoc is not started. *)
Theorem main_unencodable_markup `{Pillow} (e : env) (a : args) (w : world)
  (photo_dir : string) (photos : list (string * image * comment))
  (markdown_input : str) :
  arg_photo_path a = Some photo_dir ->
  get_most_recent_photos w photo_dir = Ok photos ->
  render_report_data (report_of e a photos) = Ok markdown_input ->
  writable w "report.md" = true ->
  encodes e markdown_input = false ->
  main e a w = (Raise UnicodeEncodeError, opened w "report.md") /\
  fs (main e a w).2 !! "report.md" = Some (File "") /\
  fs (main e a w).2 !! "report.html" = fs w !! "report.html" /\
  trace (main e a w).2 = EvTruncate "report.md" :: trace w.
Proof.
  intros Ha Hp Hr Hmd Henc.
  rewrite (main_after_render e a w photo_dir photos markdown_input Ha Hp Hr).
  rewrite Hmd, Henc. cbn [snd fs trace opened].
  split; [reflexivity|]. split; [apply lookup_insert_eq|]. split; [|reflexivity].
  now rewrite lookup_insert_ne by discriminate.
Qed.

Lemma main_unencodable_markup_witness :
  @main (Toy.pillow true) Scenes.ascii_locale Scenes.accented_cli Scenes.empty_dir
  = (Raise UnicodeEncodeError, opened Scenes.empty_dir "report.md") /\
  fs (@main (Toy.pillow true) Scenes.ascii_locale Scenes.accented_cli
        Scenes.empty_dir).2 !! "report.md" = Some (File "") /\
  fs (@main (Toy.pillow true) Scenes.ascii_locale Scenes.accented_cli
        Scenes.empty_dir).2 !! "report.html"
  = fs Scenes.empty_dir !! "report.html" /\
  trace (@main (Toy.pillow true) Scenes.ascii_locale Scenes.accented_cli
           Scenes.empty_dir).2
  = EvTruncate "report.md" :: trace Scenes.empty_dir.
Proof.
  apply (@main_unencodable_markup (Toy.pillow true) Scenes.ascii_locale
           Scenes.accented_cli Scenes.empty_dir "photos" []
           ("% Home Owner's Report for 12 All"
              +:+ String (ascii_of_nat 195) (String (ascii_of_nat 169) "e")
              +:+ nl +:+ "% J. Smith" +:+ nl +:+ "% March 4, 2024"));
    reflexivity.
Defined.

(** X15: one file of the directory that cannot be read as an image, or
    whose comment cannot be decoded, ends the whole run with an error before
    anything is written or started, whatever the other files are. *)
Theorem main_unreadable_file_writes_nothing `{Pillow} (e : env) (a : args)
  (w : world) (photo_dir : string) (paths : list string) (photo_path : string)
  (x : exn) :
  arg_photo_path a = Some photo_dir ->
  iterdir w photo_dir = Ok paths ->
  photo_path ∈ paths ->
  visit_photo w photo_path = Raise x ->
  exists y, main e a w = (Raise y, w).
Proof.
  intros Ha Hd Hin Hv.
  destruct (photos_from_raises w paths photo_path x Hin Hv) as [y Hy].
  exists y. unfold main, io_bind, io_of, io_read, photo_dir_of, get_most_recent_photos.
  rewrite Ha, Hd. simpl. now rewrite Hy.
Qed.

Lemma main_unreadable_file_writes_nothing_witness :
  exists y,
    @main (Toy.pillow true) (Toy.converter true) (Toy.cli "photos")
      Scenes.with_notes = (Raise y, Scenes.with_notes).
Proof.
  apply (@main_unreadable_file_writes_nothing (Toy.pillow true) (Toy.converter true)
           (Toy.cli "photos") Scenes.with_notes "photos"
           ["photos/a.jpg"; "photos/b.jpg"; "photos/c.jpg"] "photos/b.jpg"
           UnidentifiedImageError).
  - reflexivity.
  - reflexivity.
  - apply elem_of_cons. right. apply elem_of_cons. now left.
  - reflexivity.
Defined.

(** ** Scaling, further *)

Section ScalingMore.

(** Both sides of the scaled size are floors of the exact quotient, or one
    less where the division by the rounded factor falls just short. *)
Lemma scaled_size_sides (W H : Z) :
  1 <= W < 2 ^ 31 -> 1 <= H < 2 ^ 31 ->
  exists w h : Z,
    scaled_size (W, H) = Ok (w, h) /\
    w * Z.max W H <= 900 * W <= (w + 1) * Z.max W H /\
    h * Z.max W H <= 900 * H <= (h + 1) * Z.max W H.
Proof.
  intros HW HH.
  assert (Hmax : 1 <= Z.max W H < 2 ^ 31) by lia.
  unfold scaled_size. generalize dependent (Z.max W H). intros m Hm.
  destruct m as [|pm|pm]; try lia.
  destruct W as [|pw|pw]; try lia.
  destruct H as [|ph|ph]; try lia.
  destruct (scale_spec pm) as (ms & es & U1 & Hscale & Hms & Hes & HU1 & Hbig & Herr);
    [lia|].
  destruct (side_spec pm pw ms es U1) as (qw & w & Hqw & Hw & Hbw); try assumption; try lia.
  destruct (side_spec pm ph ms es U1) as (qh & h & Hqh & Hh & Hbh); try assumption; try lia.
  exists w, h.
  rewrite Hscale. cbn [rbind]. rewrite Hqw. cbn [rbind]. rewrite Hw. cbn [rbind].
  rewrite Hqh. cbn [rbind]. rewrite Hh. cbn [rbind].
  now repeat split.
Qed.

(** A square image gets a square size: both sides go through the same
    computation. *)
Lemma scaled_size_square (W w h : Z) : scaled_size (W, W) = Ok (w, h) -> w = h.
Proof.
  unfold scaled_size.
  destruct (Float.int_truediv (Z.max W W) ideal_max_dimension) as [scale|];
    cbn [rbind]; [|discriminate].
  destruct (Float.int_float_truediv W scale) as [q|]; cbn [rbind]; [|discriminate].
  destruct (Float.to_int q) as [n|]; cbn [rbind]; [|discriminate].
  now intros [= <- <-].
Qed.

Lemma long_side (m n : Z) :
  0 < m -> n * m <= 900 * m <= (n + 1) * m -> n = 899 \/ n = 900.
Proof.
  intros Hm [Hlo Hhi].
  apply Z.mul_le_mono_pos_r in Hlo; [|exact Hm].
  apply Z.mul_le_mono_pos_r in Hhi; [|exact Hm]. lia.
Qed.

Lemma short_side (m a n : Z) :
  0 < a < m -> n * m <= 900 * a -> n <= 899.
Proof.
  intros Ha Hlo.
  assert (H1 : 900 * a < 900 * m) by lia.
  assert (H2 : n * m < 900 * m) by lia.
  apply Z.mul_lt_mono_pos_r in H2; lia.
Qed.

Lemma side_nonneg (m a n : Z) :
  0 < a -> 0 < m -> 900 * a <= (n + 1) * m -> 0 <= n.
Proof.
  intros Ha Hm Hhi.
  destruct (Z_le_gt_dec 0 n) as [|Hneg]; [assumption|exfalso].
  assert ((n + 1) * m <= 0 * m) by (apply Z.mul_le_mono_nonneg_r; lia).
  lia.
Qed.

End ScalingMore.

(** X16: for an image with sides from 1 to below 2^31, shrink_image asks
    for a resize whose longer side is 900 or, where the float division
    falls just short, 899; the side that was the longer one (or equal)
    stays so, and the result is the resized image once transposed. *)
Theorem shrink_image_longer_side `{Pillow} (im : image) (img_w img_h : Z) :
  im_size im = (img_w, img_h) ->
  1 <= img_w < 2 ^ 31 -> 1 <= img_h < 2 ^ 31 ->
  exists w h : Z,
    scaled_size (im_size im) = Ok (w, h) /\
    shrink_image im = (let* sm_image := im_resize im (w, h) in
                       Ok (exif_transpose sm_image)) /\
    (Z.max w h = 899 \/ Z.max w h = 900) /\
    (img_h <= img_w -> h <= w) /\ (img_w <= img_h -> w <= h).
Proof.
  intros Hsize HW HH.
  destruct (scaled_size_sides img_w img_h HW HH) as (w & h & Hs & Hbw & Hbh).
  exists w, h. unfold shrink_image. rewrite Hsize, Hs.
  split; [reflexivity|]. split; [reflexivity|].
  destruct (Z.lt_trichotomy img_w img_h) as [Hlt|[Heq|Hgt]].
  - rewrite Z.max_r in Hbw, Hbh by lia.
    assert (Hh : h = 899 \/ h = 900) by (apply (long_side img_h); lia).
    assert (Hw : w <= 899) by (apply (short_side img_h img_w); lia).
    repeat split; lia.
  - subst img_h. rewrite Z.max_id in Hbw.
    assert (Hw : w = 899 \/ w = 900) by (apply (long_side img_w); lia).
    apply scaled_size_square in Hs. repeat split; lia.
  - rewrite Z.max_l in Hbw, Hbh by lia.
    assert (Hw : w = 899 \/ w = 900) by (apply (long_side img_w); lia).
    assert (Hh : h <= 899) by (apply (short_side img_w img_h); lia).
    repeat split; lia.
Qed.

Lemma shrink_image_longer_side_witness :
  exists w h : Z,
    scaled_size (@im_size (Toy.pillow true) (Toy.shot 4032 3024)) = Ok (w, h) /\
    @shrink_image (Toy.pillow true) (Toy.shot 4032 3024)
      = (let* sm_image := @im_resize (Toy.pillow true) (Toy.shot 4032 3024) (w, h) in
         Ok (@exif_transpose (Toy.pillow true) sm_image)) /\
    (Z.max w h = 899 \/ Z.max w h = 900) /\
    (3024 <= 4032 -> h <= w) /\ (4032 <= 3024 -> w <= h).
Proof.
  apply (@shrink_image_longer_side (Toy.pillow true) (Toy.shot 4032 3024) 4032 3024);
    [reflexivity|lia|lia].
Defined.

(** X17: the scaled sides are never negative and the shorter one can
    vanish: a side below a 900th of the longer one is scaled to 0, so that
    a resize to an empty image is asked for, while a side of at least a
    450th of the longer one is scaled to 1 or more. *)
Theorem scaled_size_thin_side (W H : Z) :
  1 <= W < 2 ^ 31 -> 1 <= H < 2 ^ 31 ->
  exists w h : Z,
    scaled_size (W, H) = Ok (w, h) /\
    0 <= w /\ 0 <= h /\
    (900 * Z.min W H < Z.max W H -> Z.min w h = 0) /\
    (2 * Z.max W H <= 900 * Z.min W H -> 1 <= Z.min w h).
Proof.
  intros HW HH.
  destruct (scaled_size_sides W H HW HH) as (w & h & Hs & Hbw & Hbh).
  exists w, h. split; [exact Hs|].
  assert (Hm : 0 < Z.max W H) by lia.
  assert (Hw0 : 0 <= w) by (apply (side_nonneg (Z.max W H) W); lia).
  assert (Hh0 : 0 <= h) by (apply (side_nonneg (Z.max W H) H); lia).
  split; [exact Hw0|]. split; [exact Hh0|].
  revert Hbw Hbh Hm. generalize (Z.max W H) (Z.min_spec W H).
  intros m Hmin Hbw Hbh Hm. split.
  - intros Hthin.
    assert (Hside : forall a n, a = Z.min W H -> 0 <= n -> n * m <= 900 * a -> n = 0).
    { intros a n -> Hn Hlo.
      destruct (Z_le_gt_dec n 0) as [|Hpos]; [lia|exfalso].
      assert (1 * m <= n * m) by (apply Z.mul_le_mono_nonneg_r; lia). lia. }
    destruct Hmin as [[_ Hmin]|[_ Hmin]].
    + assert (w = 0) by (apply (Hside W); [congruence|lia|lia]). lia.
    + assert (h = 0) by (apply (Hside H); [congruence|lia|lia]). lia.
  - intros Hthick.
    assert (Hside : forall a n, Z.min W H <= a -> 900 * a <= (n + 1) * m -> 1 <= n).
    { intros a n Ha Hhi.
      destruct (Z_le_gt_dec 1 n) as [|Hsmall]; [assumption|exfalso].
      assert ((n + 1) * m <= 1 * m) by (apply Z.mul_le_mono_nonneg_r; lia). lia. }
    assert (1 <= w) by (apply (Hside W); lia).
    assert (1 <= h) by (apply (Hside H); lia). lia.
Qed.

Lemma scaled_size_thin_side_witness :
  exists w h : Z,
    scaled_size Scenes.ribbon = Ok (w, h) /\
    0 <= w /\ 0 <= h /\
    (900 * Z.min 4000 3 < Z.max 4000 3 -> Z.min w h = 0) /\
    (2 * Z.max 4000 3 <= 900 * Z.min 4000 3 -> 1 <= Z.min w h).
Proof. apply (scaled_size_thin_side 4000 3); lia. Defined.

(** ** Shell completion *)

Section CliFacts.
Import Cli.

Lemma elem_of_match_options (curr_word : string) (option_strings : list string) :
  forall (matches : gset string) (opt : string),
  opt ∈ match_options curr_word option_strings matches <->
  (opt ∈ option_strings /\ starts_with curr_word opt = true) \/ opt ∈ matches.
Proof.
  induction option_strings as [|o rest IH]; intros matches opt; simpl.
  - split; [now right|]. intros [[Hin _]|Hin]; [inversion Hin|exact Hin].
  - rewrite IH, elem_of_cons. destruct (starts_with curr_word o) eqn:Ho.
    + rewrite elem_of_union, elem_of_singleton. split.
      * intros [[Hin Hs]|[->|Hin]]; auto.
      * intros [[[->|Hin] Hs]|Hin]; auto.
    + split.
      * intros [[Hin Hs]|Hin]; auto.
      * intros [[[->|Hin] Hs]|Hin]; auto. congruence.
Qed.

Lemma elem_of_match_actions (curr_word : string) (acts : list (list string)) :
  forall (matches : gset string) (opt : string),
  opt ∈ match_actions curr_word acts matches <->
  (opt ∈ concat acts /\ starts_with curr_word opt = true) \/ opt ∈ matches.
Proof.
  induction acts as [|os rest IH]; intros matches opt; simpl.
  - split; [now right|]. intros [[Hin _]|Hin]; [inversion Hin|exact Hin].
  - rewrite IH, elem_of_match_options, elem_of_app. tauto.
Qed.

Lemma starts_with_empty (s : string) : starts_with "" s = true.
Proof. now destruct s. Qed.

End CliFacts.

(** X18: asked by the shell for completions of a word, the parser offers
    exactly those of its five option strings, the help flags among them,
    that start with the word: all five for the empty word, and none for a
    word that starts none of them. *)
Theorem completion_offers_matching_options (environ : gmap string string)
  (argv : list string) (command curr_word prev_word : string) :
  Cli.completing environ = true ->
  tail argv = [command; curr_word; prev_word] ->
  exists matches : gset string,
    Cli.bash_complete_recursor environ argv = inr matches /\
    (forall opt, opt ∈ matches <->
       opt ∈ ["-h"; "--help"; "--author"; "--property-address"; "--photo-path"] /\
       starts_with curr_word opt = true) /\
    (curr_word = "" ->
       matches = {[ "-h"; "--help"; "--author"; "--property-address"; "--photo-path" ]}).
Proof.
  intros Hc Hargv. unfold Cli.bash_complete_recursor. rewrite Hc, Hargv.
  eexists. split; [reflexivity|].
  assert (Hall : forall opt, opt ∈ Cli.match_actions curr_word Cli.actions ∅ <->
            opt ∈ ["-h"; "--help"; "--author"; "--property-address"; "--photo-path"] /\
            starts_with curr_word opt = true).
  { intros opt. rewrite elem_of_match_actions.
    change (concat Cli.actions)
      with ["-h"; "--help"; "--author"; "--property-address"; "--photo-path"].
    split; [intros [Hin|Hin]; [exact Hin|]|now left].
    now apply not_elem_of_empty in Hin. }
  split; [exact Hall|].
  intros ->. apply set_eq. intros opt. rewrite Hall.
  rewrite starts_with_empty, !elem_of_union, !elem_of_singleton, !elem_of_cons.
  split.
  - intros [[->|[->|[->|[->|[->|Hin]]]]] _]; auto. inversion Hin.
  - intros [[[[->| ->]| ->]| ->]| ->]; split; auto 10.
Qed.

Lemma completion_offers_matching_options_witness :
  exists matches : gset string,
    Cli.bash_complete_recursor Scenes.completion_env Scenes.completion_argv
    = inr matches /\
    (forall opt, opt ∈ matches <->
       opt ∈ ["-h"; "--help"; "--author"; "--property-address"; "--photo-path"] /\
       starts_with "--p" opt = true) /\
    ("--p" = "" ->
       matches = {[ "-h"; "--help"; "--author"; "--property-address"; "--photo-path" ]}).
Proof.
  apply (completion_offers_matching_options Scenes.completion_env
           Scenes.completion_argv "house_report.py" "--p" "house_report.py");
    reflexivity.
Defined.

(** X19: how a call of the completion helper ends is decided by the
    environment and the number of arguments alone: outside the completion
    mode it fails on the word it never assigned; in the completion mode it
    fails on the unpacking unless the script got exactly three arguments,
    and returns a set of matches when it did. *)
Theorem completion_helper_outcomes (environ : gmap string string) (argv : list string) :
  (Cli.bash_complete_recursor environ argv = inl Cli.UnboundLocalError <->
     Cli.completing environ = false) /\
  (Cli.bash_complete_recursor environ argv = inl (Cli.Threw ValueError) <->
     Cli.completing environ = true /\ length (tail argv) <> 3%nat) /\
  ((exists matches, Cli.bash_complete_recursor environ argv = inr matches) <->
     Cli.completing environ = true /\ length (tail argv) = 3%nat).
Proof.
  unfold Cli.bash_complete_recursor.
  destruct (Cli.completing environ); cbn [Cli.actions];
    [destruct (tail argv) as [|a [|b [|c [|d rest]]]]; cbn [length]|];
    repeat split; intros;
    repeat match goal with
           | Hx : _ /\ _ |- _ => destruct Hx
           | Hx : ex _ |- _ => destruct Hx
           end;
    try discriminate; try lia; eauto.
Qed.

(** X20: in the completion mode the script stops at the parser: argparse is
    not consulted, no directory is read, no file is written and no process
    is started; it prints the matches when the shell passed three words and
    fails on the unpacking when it did not. *)
Theorem completion_mode_runs_no_report `{Pillow} (environ : gmap string string)
  (argv : list string) (e : env) (w : world) :
  Cli.completing environ = true ->
  exists outcome,
    (forall library_parse,
       Cli.script library_parse environ argv e w = (outcome, None, w)) /\
    (length (tail argv) = 3%nat ->
       exists matches, outcome = Cli.Completed matches) /\
    (length (tail argv) <> 3%nat -> outcome = Cli.Stopped (Cli.Threw ValueError)).
Proof.
  intros Hc. unfold Cli.script, Cli.parse_args, Cli.bash_complete_recursor.
  rewrite Hc.
  destruct (tail argv) as [|a [|b [|c [|d rest]]]]; cbn [length];
    eexists; (split; [intros lp; reflexivity|]); split; intros Hn;
    try reflexivity; try lia; eauto.
Qed.

Lemma completion_mode_runs_no_report_witness :
  exists outcome,
    (forall library_parse,
       @Cli.script (Toy.pillow true) library_parse Scenes.completion_env
         Scenes.completion_argv (Toy.converter true) Toy.sample_world
       = (outcome, None, Toy.sample_world)) /\
    (length (tail Scenes.completion_argv) = 3%nat ->
       exists matches, outcome = Cli.Completed matches) /\
    (length (tail Scenes.completion_argv) <> 3%nat ->
       outcome = Cli.Stopped (Cli.Threw ValueError)).
Proof.
  apply (@completion_mode_runs_no_report (Toy.pillow true) Scenes.completion_env
           Scenes.completion_argv (Toy.converter true) Toy.sample_world).
  reflexivity.
Defined.
